(** * MicroPython OS backend (thonny/plugins/micropython/os_backend.py)

    A shallow embedding of [MicroPythonOsBackend]: the paste-mode script
    submitter, the incremental output scanner and the session operations,
    together with the properties of the design document that concern them. *)

From Stdlib Require Import String Ascii NArith Strings.Byte.
From Stdlib Require Import List Arith Lia Bool.
Import ListNotations.
Open Scope string_scope.
Open Scope nat_scope.
Open Scope list_scope.

(** ** Byte strings *)

(** Python [bytes] values. *)
Definition bytes := list byte.

(** A [bytes] literal written as a Rocq string. *)
Definition b (s : string) : bytes := list_byte_of_string s.

Fixpoint bytes_eqb (x y : bytes) : bool :=
  match x, y with
  | [], [] => true
  | c :: x', d :: y' => Byte.eqb c d && bytes_eqb x' y'
  | _, _ => false
  end.

(** [not data] for a bytes value. *)
Definition is_empty (x : bytes) : bool :=
  match x with [] => true | _ :: _ => false end.

(** [s.startswith(p)]. *)
Fixpoint startswith (s p : bytes) {struct p} : bool :=
  match p, s with
  | [], _ => true
  | c :: p', d :: s' => Byte.eqb c d && startswith s' p'
  | _ :: _, [] => false
  end.

(** The last [k] bytes of [s], the whole of [s] when it is shorter: [s[-k:]]
    for [k > 0]. *)
Definition last_bytes (k : nat) (s : bytes) : bytes :=
  skipn (length s - k) s.

(** [s.endswith(suffix)]. *)
Definition endswith (s suffix : bytes) : bool :=
  (length suffix <=? length s) && bytes_eqb (last_bytes (length suffix) s) suffix.

(** [s[: -n]]: Python reads [-0] as [0], so the slice is empty for [n = 0];
    a stop before the start is clamped to the start. *)
Definition slice_to_neg (s : bytes) (n : nat) : bytes :=
  match n with
  | 0 => []
  | S _ => firstn (length s - n) s
  end.

(** [b"".join(chunks)]. *)
Definition join (chunks : list bytes) : bytes := concat chunks.

(** Leftmost occurrence of [pat] in [s]: the part of [s] up to and including
    that occurrence, and what follows it. *)
Fixpoint split_at_first (pat s : bytes) : option (bytes * bytes) :=
  if startswith s pat then Some (pat, skipn (length pat) s)
  else
    match s with
    | [] => None
    | c :: s' =>
        match split_at_first pat s' with
        | Some (r, rest) => Some (c :: r, rest)
        | None => None
        end
    end.

(** Leftmost match of the alternation [closers[0] | closers[1] | ...] in [s],
    the alternatives tried in order at each position, as [re.search] does for
    the compiled pattern. *)
Fixpoint split_at_first_of (closers : list bytes) (s : bytes)
  : option (bytes * bytes) :=
  match find (startswith s) closers with
  | Some p => Some (p, skipn (length p) s)
  | None =>
      match s with
      | [] => None
      | c :: s' =>
          match split_at_first_of closers s' with
          | Some (r, rest) => Some (c :: r, rest)
          | None => None
          end
      end
  end.

(** [pat] occurs in [r] as its suffix and nowhere earlier. *)
Definition only_at_end (pat r : bytes) : Prop :=
  (exists x, r = x ++ pat) /\
  forall u v, r = u ++ pat ++ v -> v = [].

(** [pat] occurs somewhere in [s]. *)
Definition occurs (pat s : bytes) : Prop :=
  exists u v, s = u ++ pat ++ v.

(** ** Text *)

(** Python [str] values: sequences of code points. *)
Definition text := list N.

Definition str (s : string) : text :=
  map N_of_ascii (list_ascii_of_string s).

Fixpoint text_startswith (s p : text) {struct p} : bool :=
  match p, s with
  | [], _ => true
  | c :: p', d :: s' => N.eqb c d && text_startswith s' p'
  | _ :: _, [] => false
  end.

(** The scan of [str.replace] for a non-empty [old]: [skip] counts the
    characters of a replaced occurrence still to be passed over. *)
Fixpoint replace_from (old new s : text) (skip : nat) : text :=
  match s with
  | [] => []
  | c :: s' =>
      match skip with
      | S k => replace_from old new s' k
      | 0 =>
          if text_startswith s old
          then new ++ replace_from old new s' (length old - 1)
          else c :: replace_from old new s' 0
      end
  end.

(** [s.replace(old, new)]: every non-overlapping occurrence, left to right;
    an empty [old] matches before every character and at the end. *)
Definition replace (s old new : text) : text :=
  match old with
  | [] => new ++ flat_map (fun c => c :: new) s
  | _ :: _ => replace_from old new s 0
  end.

(** ** Effects

    A method runs on a state, may raise, and leaves the state as it was when
    the exception left it.  A run of the scan loop that is cut off after a
    given number of iterations ends in [OutOfFuel]. *)

Inductive exn : Type :=
| NotImplementedError
| AttributeError
| UnicodeDecodeError
| ConnectionFailedException
| ProtocolViolation
| TransportFailure.

Inductive outcome (A : Type) : Type :=
| Ret (a : A)
| Raise (e : exn)
| OutOfFuel.

Arguments Ret {A} a.
Arguments Raise {A} e.
Arguments OutOfFuel {A}.

Definition M (St A : Type) : Type := St -> outcome A * St.

Definition ret {St A : Type} (a : A) : M St A := fun s => (Ret a, s).

Definition raise {St A : Type} (e : exn) : M St A := fun s => (Raise e, s).

Definition bind {St A B : Type} (m : M St A) (k : A -> M St B) : M St B :=
  fun s =>
    match m s with
    | (Ret a, s') => k a s'
    | (Raise e, s') => (Raise e, s')
    | (OutOfFuel, s') => (OutOfFuel, s')
    end.

Declare Scope py_scope.
Delimit Scope py_scope with py.
Notation "x <- m ;; k" := (bind m (fun x => k))
  (at level 61, m at next level, right associativity) : py_scope.
Notation "m ;; k" := (bind m (fun _ => k))
  (at level 61, right associativity) : py_scope.
Local Open Scope py_scope.

(** ** The output scanner

    [_forward_output_until_active_prompt], over whatever state the calls it
    makes act on.  The connection's reads, the side-command check of the base
    class and the output consumer are the actions of the section; [LF],
    [NORMAL_PROMPT] and [ends_overlap] are imported by the module from
    modules that are not part of it, and are taken as given. *)

Inductive loop_ctl : Type :=
| Continue (pending : bytes)
| Return (v : bytes).

Inductive scan_status : Type :=
| Running (pending : bytes)
| Stopped (o : outcome bytes).

(** The arm of the [if]/[elif] chain that a pending buffer selects. *)
Inductive branch : Type :=
| HaveLineEnd
| HaveFullMarker
| HaveOverlap
| NoPromptInSight.

Section Scanner.

Context {St : Type}.
Variables LF NORMAL_PROMPT : bytes.
Variable ends_overlap : bytes -> bytes -> bool.
Variable _check_for_side_commands : M St unit.
Variable soft_read_until : list bytes -> M St bytes.
Variable soft_read : nat -> M St bytes.
Variable output_consumer : bytes -> string -> M St unit.

(** The alternatives of the compiled pattern, in its order. *)
Definition INCREMENTAL_OUTPUT_BLOCK_CLOSERS : list bytes :=
  [LF; NORMAL_PROMPT].

Definition scan_branch (pending : bytes) : branch :=
  if endswith pending LF then HaveLineEnd
  else if endswith pending NORMAL_PROMPT then HaveFullMarker
  else if ends_overlap pending NORMAL_PROMPT then HaveOverlap
  else NoPromptInSight.

(** One pass through the body of [while True]. *)
Definition scan_iteration (stream_name : string) (pending : bytes)
  : M St loop_ctl :=
  _check_for_side_commands ;;
  new_data <- soft_read_until INCREMENTAL_OUTPUT_BLOCK_CLOSERS ;;
  if is_empty new_data then ret (Continue pending)
  else
    let pending := pending ++ new_data in
    match scan_branch pending with
    | HaveLineEnd =>
        output_consumer pending stream_name ;;
        ret (Continue [])
    | HaveFullMarker =>
        let out := slice_to_neg pending (length NORMAL_PROMPT) in
        output_consumer out stream_name ;;
        ret (Return NORMAL_PROMPT)
    | HaveOverlap =>
        follow_up <- soft_read 1 ;;
        if is_empty follow_up then
          output_consumer pending stream_name ;;
          ret (Continue [])
        else
          ret (Continue (pending ++ follow_up))
    | NoPromptInSight =>
        output_consumer pending stream_name ;;
        ret (Continue [])
    end.

(** The loop, cut off after [fuel] iterations. *)
Fixpoint scan_loop (fuel : nat) (stream_name : string) (pending : bytes)
  (s : St) : scan_status * St :=
  match fuel with
  | 0 => (Running pending, s)
  | S fuel' =>
      match scan_iteration stream_name pending s with
      | (Ret (Continue pending'), s') => scan_loop fuel' stream_name pending' s'
      | (Ret (Return v), s') => (Stopped (Ret v), s')
      | (Raise e, s') => (Stopped (Raise e), s')
      | (OutOfFuel, s') => (Stopped OutOfFuel, s')
      end
  end.

Definition _forward_output_until_active_prompt (fuel : nat)
  (stream_name : string) : M St bytes :=
  fun s =>
    match scan_loop fuel stream_name [] s with
    | (Running _, s') => (OutOfFuel, s')
    | (Stopped o, s') => (o, s')
    end.

End Scanner.

(** The bytes of a scan are conserved between two states [s0] and [s] when
    what was emitted since [s0], followed by the [withheld] bytes, is what
    was received since [s0]. *)
Definition conserved {St : Type} (received emitted : St -> bytes)
  (s0 s : St) (withheld : bytes) : Prop :=
  exists E R,
    emitted s = emitted s0 ++ E /\
    received s = received s0 ++ R /\
    E ++ withheld = R.

(** An action leaves the observation [f] of the state alone, however it
    ends. *)
Definition preserves {St A X : Type} (f : St -> X) (m : M St A) : Prop :=
  forall s, f (snd (m s)) = f s.

(** ** The prompt matcher *)

Module Matcher.

(** Modelled from the spec: [ends_overlap] is imported from
    [thonny.plugins.micropython.backend], which is not among the sources.
    Design document, testable properties: "overlap(B, M) is true iff there
    exists k in [1, len(M)] with B's last k bytes equal to M's first k bytes,
    and B does not already end with the full M". *)
Definition ends_overlap (left right : bytes) : bool :=
  existsb (fun k => bytes_eqb (last_bytes k left) (firstn k right))
          (seq 1 (length right))
  && negb (endswith left right).

End Matcher.

(** ** The connection *)

Module Conn.

(** Modelled from the spec: [SubprocessConnection]
    ([thonny.plugins.micropython.subprocess_connection]) is not among the
    sources.  Design document, transport contract: "write(bytes) -> ();
    read_until(pattern, timeout?) -> bytes (blocks until pattern found or
    timeout/EOF); soft_read_until(pattern_set, timeout) -> bytes (returns
    whatever is available up to timeout without guaranteeing the pattern was
    found); soft_read(n, timeout) -> bytes; read_all_nonblocking() -> bytes;
    close()", and "if the connection is closed or erroring, reads return
    empty".

    [arrivals] are the batches of bytes still to come from the child, one
    batch for each time a read has to wait (an empty batch: nothing came
    before the timeout); [read_buffer] holds what has arrived and was not
    returned yet; [written] and [delivered] record what was written and what
    each read returned. *)
Record t : Type := mk {
  arrivals : list bytes;
  read_buffer : bytes;
  written : list bytes;
  delivered : list bytes
}.

(** Modelled from the spec: the "reliable, ordered, byte-stream" that the
    transport is assumed to be; everything the connection still has to hand
    over, in order. *)
Definition stream (c : t) : bytes := read_buffer c ++ concat (arrivals c).

(** Modelled from the spec: one wait of a read with a timeout; the buffer
    after the next batch came in, and the batches left. *)
Definition absorb (c : t) : bytes * list bytes :=
  match arrivals c with
  | [] => (read_buffer c, [])
  | a :: rest => (read_buffer c ++ a, rest)
  end.

(** Modelled from the spec: a read returning [r], with [arrs] still to
    arrive and [buf] left in the buffer. *)
Definition deliver (r : bytes) (arrs : list bytes) (buf : bytes) (c : t)
  : outcome bytes * t :=
  (Ret r, {| arrivals := arrs; read_buffer := buf;
             written := written c; delivered := delivered c ++ [r] |}).

(** Modelled from the spec: "write(bytes) -> ()". *)
Definition write (data : bytes) : M t unit :=
  fun c => (Ret tt, {| arrivals := arrivals c; read_buffer := read_buffer c;
                       written := written c ++ [data];
                       delivered := delivered c |}).

(** Modelled from the spec: "close()"; "if the connection is closed or
    erroring, reads return empty". *)
Definition close : M t unit :=
  fun c => (Ret tt, {| arrivals := []; read_buffer := [];
                       written := written c; delivered := delivered c |}).

(** Modelled from the spec: "blocks until pattern found or timeout/EOF";
    batches are taken in until the buffer holds [pat]. *)
Fixpoint await (pat buf : bytes) (arrs : list bytes)
  : option (bytes * bytes * list bytes) :=
  match split_at_first pat buf with
  | Some (r, rest) => Some (r, rest, arrs)
  | None =>
      match arrs with
      | [] => None
      | a :: arrs' => await pat (buf ++ a) arrs'
      end
  end.

(** Modelled from the spec: "read_until(pattern, timeout?) -> bytes (blocks
    until pattern found or timeout/EOF)"; what is returned ends with the
    first occurrence of the pattern, and an "expected marker never observed
    within the step's read, or read exhausted/EOF before match" is the
    protocol violation of the error taxonomy. *)
Definition read_until (pat : bytes) : M t bytes :=
  fun c =>
    match await pat (read_buffer c) (arrivals c) with
    | Some (r, rest, arrs) => deliver r arrs rest c
    | None =>
        (Raise ProtocolViolation,
         {| arrivals := []; read_buffer := stream c;
            written := written c; delivered := delivered c |})
    end.

(** Modelled from the spec: "soft_read_until(pattern_set, timeout) -> bytes
    (returns whatever is available up to timeout without guaranteeing the
    pattern was found)", "a bounded-timeout read that stops early at the
    first occurrence of a line-feed or a full prompt marker". *)
Definition soft_read_until (closers : list bytes) : M t bytes :=
  fun c =>
    match split_at_first_of closers (read_buffer c) with
    | Some (r, rest) => deliver r (arrivals c) rest c
    | None =>
        let (buf, arrs) := absorb c in
        match split_at_first_of closers buf with
        | Some (r, rest) => deliver r arrs rest c
        | None => deliver buf arrs [] c
        end
    end.

(** Modelled from the spec: "soft_read(n, timeout) -> bytes"; at most [n]
    bytes, after one wait when fewer are buffered. *)
Definition soft_read (n : nat) : M t bytes :=
  fun c =>
    if n <=? length (read_buffer c)
    then deliver (firstn n (read_buffer c)) (arrivals c)
                 (skipn n (read_buffer c)) c
    else
      let (buf, arrs) := absorb c in
      deliver (firstn n buf) arrs (skipn n buf) c.

(** Modelled from the spec: "read_all_nonblocking() -> bytes"; what is
    buffered and what has come in since. *)
Definition read_all : M t bytes :=
  fun c => let (buf, arrs) := absorb c in deliver buf arrs [] c.

End Conn.

(** ** The backend *)

(** Modelled from the spec: [BackendEvent] and the methods [_send_output] and
    [send_message] below belong to [thonny.common] and to the base class
    [MicroPythonBackend], which are not among the sources.  Design document,
    event surface: "an "output" event carrying (stream name, text) pairs in
    emission order; a one-time "trailing output/welcome" event carrying the
    captured banner text". *)
Inductive BackendEvent : Type :=
| ProgramOutput (stream_name : string) (data : bytes)
| HideTrailingOutput (text : text).

(** The attributes of [self] that the module reads or assigns, and the
    messages sent so far.  A welcome text that is [None] is an attribute not
    assigned yet. *)
Record Backend : Type := mkBackend {
  _executable : string;
  _connection : Conn.t;
  _original_welcome_text : option text;
  _welcome_text : option text;
  outbox : list BackendEvent
}.

(** A command of the dispatcher, as far as the module reads it. *)
Record Command : Type := mkCommand {
  args : list string;
  cmd_line : string
}.

Definition PASTE_MODE_CMD : bytes := [x05].
Definition PASTE_MODE_LINE_PREFIX : bytes := b "=== ".

(** The marker appended to a submitted script: ["#uuu"]. *)
Definition sentinel : bytes := b "#uuu".

Definition newline : bytes := [x0a].

Definition CRLF : text := [13%N; 10%N].

Definition boilerplate_line : text :=
  str "Use Ctrl-D to exit, Ctrl-E for paste mode" ++ [10%N].

Definition set_connection (c : Conn.t) (self : Backend) : Backend :=
  {| _executable := _executable self; _connection := c;
     _original_welcome_text := _original_welcome_text self;
     _welcome_text := _welcome_text self; outbox := outbox self |}.

Definition set_welcome (original cleaned : text) (self : Backend) : Backend :=
  {| _executable := _executable self; _connection := _connection self;
     _original_welcome_text := Some original;
     _welcome_text := Some cleaned; outbox := outbox self |}.

(** The two variants of the welcome text, as stored. *)
Definition welcome_texts (self : Backend) : option text * option text :=
  (_original_welcome_text self, _welcome_text self).

(** A method of [self._connection], run on [self]. *)
Definition on_connection {A : Type} (m : M Conn.t A) : M Backend A :=
  fun self =>
    let (o, c) := m (_connection self) in (o, set_connection c self).

(** A method of [self], run where a local variable [l] of the caller is in
    reach of the callbacks as well. *)
Definition on_self {L A : Type} (m : M Backend A) : M (Backend * L) A :=
  fun st =>
    let (o, self) := m (fst st) in (o, (self, snd st)).

(** Modelled from the spec: [send_message] of the base class; the events
    produced, in emission order. *)
Definition send_message (msg : BackendEvent) : M Backend unit :=
  fun self =>
    (Ret tt,
     {| _executable := _executable self; _connection := _connection self;
        _original_welcome_text := _original_welcome_text self;
        _welcome_text := _welcome_text self;
        outbox := outbox self ++ [msg] |}).

(** Modelled from the spec: [_send_output] of the base class; "an "output"
    event carrying (stream name, text) pairs". *)
Definition _send_output (data : bytes) (stream_name : string)
  : M Backend unit :=
  send_message (ProgramOutput stream_name data).

Definition _write (data : bytes) : M Backend unit :=
  on_connection (Conn.write data).

(** The operations this backend does not support. *)

Definition _soft_reboot {X : Type} (side_command : X) : M Backend unit :=
  raise NotImplementedError.

Definition _cmd_get_fs_info (cmd : Command) : M Backend unit :=
  raise NotImplementedError.

Definition _cmd_write_file (cmd : Command) : M Backend unit :=
  raise NotImplementedError.

Definition _cmd_delete (cmd : Command) : M Backend unit :=
  raise NotImplementedError.

Definition _cmd_read_file (cmd : Command) : M Backend unit :=
  raise NotImplementedError.

Definition _cmd_mkdir (cmd : Command) : M Backend unit :=
  raise NotImplementedError.

Definition _upload_file {X Y Z : Type} (source : X) (target : Y)
  (notifier : Z) : M Backend unit :=
  raise NotImplementedError.

Definition _download_file {X Y Z : Type} (source : X) (target : Y)
  (notifier : Z) : M Backend unit :=
  raise NotImplementedError.

Section Session.

(** Constants and helpers that the module imports or inherits and that are
    not among the sources: the prompt markers and the end-of-transmission
    byte, the overlap test, the decoding of [ENCODING], the constructor of
    the connection, and three methods of the base class. *)
Variables LF NORMAL_PROMPT EOT : bytes.
Variable ends_overlap : bytes -> bytes -> bool.
Variable decode : bytes -> option text.
Variable SubprocessConnection : string -> list string -> exn + Conn.t.
Variable _check_for_side_commands : M Backend unit.
Variable _report_time : string -> M Backend unit.
Variable _prepare_helpers : M Backend unit.

(** [self._forward_output_until_active_prompt(output_consumer, stream_name)],
    the consumer acting on [self] and on a local [l] of the caller. *)
Definition forward_output {L : Type}
  (output_consumer : bytes -> string -> M (Backend * L) unit)
  (fuel : nat) (stream_name : string) : M (Backend * L) bytes :=
  _forward_output_until_active_prompt LF NORMAL_PROMPT ends_overlap
    (on_self _check_for_side_commands)
    (fun closers => on_self (on_connection (Conn.soft_read_until closers)))
    (fun n => on_self (on_connection (Conn.soft_read n)))
    output_consumer fuel stream_name.

(** The closure of [_process_until_initial_prompt]: [output.append(data)]. *)
Definition collect_output (data : bytes) (stream_name : string)
  : M (Backend * list bytes) unit :=
  fun st => (Ret tt, (fst st, snd st ++ [data])).

Definition _process_until_initial_prompt (fuel : nat) (clean : option bool)
  : M Backend unit :=
  fun self =>
    match forward_output collect_output fuel "stdout" (self, []) with
    | (Ret _, (self', output)) =>
        match decode (join output) with
        | Some decoded =>
            let original := replace decoded CRLF [10%N] in
            (Ret tt,
             set_welcome original (replace original boilerplate_line []) self')
        | None => (Raise UnicodeDecodeError, self')
        end
    | (Raise e, (self', _)) => (Raise e, self')
    | (OutOfFuel, (self', _)) => (OutOfFuel, self')
    end.

(** The script is written in its byte encoding. *)
Definition _execute_with_consumer (script : bytes)
  (output_consumer : bytes -> string -> M Backend unit) : M Backend unit :=
  on_connection (Conn.write PASTE_MODE_CMD) ;;
  on_connection (Conn.read_until PASTE_MODE_LINE_PREFIX) ;;
  on_connection (Conn.write (script ++ sentinel)) ;;
  on_connection (Conn.read_until sentinel) ;;
  on_connection (Conn.write EOT) ;;
  on_connection (Conn.read_until newline) ;;
  data <- on_connection (Conn.read_until NORMAL_PROMPT) ;;
  let out := slice_to_neg data (length NORMAL_PROMPT) in
  output_consumer out "stdout".

Definition _forward_unexpected_output (stream_name : string)
  : M Backend unit :=
  data <- on_connection Conn.read_all ;;
  if endswith data NORMAL_PROMPT then
    _send_output (slice_to_neg data (length NORMAL_PROMPT)) "stdout"
  else if negb (is_empty data) then
    _send_output data "stdout"
  else ret tt.

(** [self._connection = SubprocessConnection(self._executable, args)]. *)
Definition reconnect (arguments : list string) : M Backend unit :=
  fun self =>
    match SubprocessConnection (_executable self) arguments with
    | inl e => (Raise e, self)
    | inr c => (Ret tt, set_connection c self)
    end.

(** Reading [self._original_welcome_text]. *)
Definition get_original_welcome_text : M Backend text :=
  fun self =>
    match _original_welcome_text self with
    | Some t => (Ret t, self)
    | None => (Raise AttributeError, self)
    end.

Definition _cmd_Run (fuel : nat) (cmd : Command) : M Backend unit :=
  on_connection Conn.close ;;
  _report_time "befconn" ;;
  reconnect ("-i" :: args cmd) ;;
  _report_time "afconn" ;;
  (fun self =>
     let (o, st) :=
       forward_output (fun data name => on_self (_send_output data name))
                      fuel "stdout" (self, tt) in
     (o, fst st)) ;;
  _report_time "afforv" ;;
  welcome <- get_original_welcome_text ;;
  send_message (HideTrailingOutput welcome) ;;
  _report_time "beffhelp" ;;
  _prepare_helpers ;;
  _report_time "affhelp".

End Session.

(** ** The interpreter's side of a submission

    What the child sends back when a script is submitted, as the design
    document describes the exchange: whatever precedes the paste-mode line
    prefix, the prefix, the verbatim echo of what is written after it (the
    script and the sentinel), whatever precedes the line feed with which the
    interpreter accepts the end of transmission, that line feed, the
    program's output, the normal prompt, and whatever follows. *)
Definition paste_exchange (NORMAL_PROMPT pre script ack output rest : bytes)
  : bytes :=
  pre ++ PASTE_MODE_LINE_PREFIX ++ (script ++ sentinel) ++
  ack ++ newline ++ output ++ NORMAL_PROMPT ++ rest.

(** The parts around the echo hold their closing marker at their end only:
    no earlier paste-mode line prefix, no line feed before the accepting one,
    no prompt inside the output. *)
Definition well_framed (NORMAL_PROMPT pre ack output : bytes) : Prop :=
  only_at_end PASTE_MODE_LINE_PREFIX (pre ++ PASTE_MODE_LINE_PREFIX) /\
  only_at_end newline (ack ++ newline) /\
  only_at_end NORMAL_PROMPT (output ++ NORMAL_PROMPT).

(** The four reads of a submission, each finding its marker in what the
    one before it left of [stream]. *)
Definition four_reads (NORMAL_PROMPT stream r1 r2 r3 r4 rest : bytes) : Prop :=
  exists rest1 rest2 rest3,
    split_at_first PASTE_MODE_LINE_PREFIX stream = Some (r1, rest1) /\
    split_at_first sentinel rest1 = Some (r2, rest2) /\
    split_at_first newline rest2 = Some (r3, rest3) /\
    split_at_first NORMAL_PROMPT rest3 = Some (r4, rest).

(** The transmission boundary of [script] is unambiguous: in every such
    exchange the submission completes up to the consumer, the read that waits
    for the sentinel returns the echo of the script up to the sentinel
    appended to it, and the consumer is handed the program's output. *)
Definition boundary_unambiguous (NORMAL_PROMPT EOT script : bytes) : Prop :=
  forall (pre ack output rest : bytes) (self : Backend)
         (output_consumer : bytes -> string -> M Backend unit),
    Conn.stream (_connection self) =
      paste_exchange NORMAL_PROMPT pre script ack output rest ->
    well_framed NORMAL_PROMPT pre ack output ->
    exists c,
      _execute_with_consumer NORMAL_PROMPT EOT script output_consumer self =
        output_consumer output "stdout" (set_connection c self) /\
      Conn.delivered c =
        Conn.delivered (_connection self) ++
        [pre ++ PASTE_MODE_LINE_PREFIX; script ++ sentinel;
         ack ++ newline; output ++ NORMAL_PROMPT] /\
      Conn.written c =
        Conn.written (_connection self) ++
        [PASTE_MODE_CMD; script ++ sentinel; EOT] /\
      Conn.stream c = rest.

(** ** A MicroPython REPL

    The values that the imported constants have for the Unix port of
    MicroPython, and a session in which no side command is queued; they serve
    to run the model on concrete byte streams. *)

Module Repl.

Definition NORMAL_PROMPT : bytes := b ">>> ".
Definition LF : bytes := [x0a].
Definition EOT : bytes := [x04].

(** Decoding of text that is plain ASCII, where every encoding of the REPL
    agrees; anything else is refused. *)
Definition decode (data : bytes) : option text :=
  if forallb (fun c => (Byte.to_N c <? 128)%N) data
  then Some (map Byte.to_N data)
  else None.

Definition no_side_commands : M Backend unit := ret tt.
Definition no_report (label : string) : M Backend unit := ret tt.
Definition no_helpers : M Backend unit := ret tt.

(** A connection on which [batches] are still to arrive. *)
Definition connection (batches : list bytes) : Conn.t :=
  {| Conn.arrivals := batches; Conn.read_buffer := [];
     Conn.written := []; Conn.delivered := [] |}.

(** A backend in front of such a connection, no welcome text captured. *)
Definition backend (batches : list bytes) : Backend :=
  {| _executable := "micropython"; _connection := connection batches;
     _original_welcome_text := None; _welcome_text := None; outbox := [] |}.

(** The actions of a scan whose consumer collects into a local list. *)
Definition check : M (Backend * list bytes) unit :=
  on_self no_side_commands.

Definition soft_read_until (closers : list bytes)
  : M (Backend * list bytes) bytes :=
  on_self (on_connection (Conn.soft_read_until closers)).

Definition soft_read (n : nat) : M (Backend * list bytes) bytes :=
  on_self (on_connection (Conn.soft_read n)).

(** One iteration and the loop of such a scan. *)
Definition iteration (stream_name : string) (pending : bytes)
  : M (Backend * list bytes) loop_ctl :=
  scan_iteration LF NORMAL_PROMPT Matcher.ends_overlap
    check soft_read_until soft_read collect_output stream_name pending.

Definition loop (fuel : nat) (stream_name : string) (pending : bytes)
  (st : Backend * list bytes) : scan_status * (Backend * list bytes) :=
  scan_loop LF NORMAL_PROMPT Matcher.ends_overlap
    check soft_read_until soft_read collect_output fuel stream_name pending st.

(** The scan from an empty list, on [batches] still to arrive. *)
Definition scan (fuel : nat) (batches : list bytes)
  : scan_status * (Backend * list bytes) :=
  loop fuel "stdout" [] (backend batches, []).

(** What such a state has read, and what it has collected. *)
Definition received (st : Backend * list bytes) : bytes :=
  concat (Conn.delivered (_connection (fst st))).

Definition emitted (st : Backend * list bytes) : bytes :=
  concat (snd st).

(** Nothing has arrived that was not read, and nothing is still to come:
    the child is idle at its prompt, or the connection is closed. *)
Definition quiet (st : Backend * list bytes) : Prop :=
  Conn.arrivals (_connection (fst st)) = [] /\
  Conn.read_buffer (_connection (fst st)) = [].

(** A child that is started again and sends [batches]. *)
Definition respawn (batches : list bytes) (executable : string)
  (arguments : list string) : exn + Conn.t :=
  inr (connection batches).

(** The submission and the run command of this REPL. *)
Definition execute (script : bytes)
  (output_consumer : bytes -> string -> M Backend unit) : M Backend unit :=
  _execute_with_consumer NORMAL_PROMPT EOT script output_consumer.

Definition run (batches : list bytes) (fuel : nat) (cmd : Command)
  : M Backend unit :=
  _cmd_Run LF NORMAL_PROMPT Matcher.ends_overlap (respawn batches)
    no_side_commands no_report no_helpers fuel cmd.

Definition capture (fuel : nat) : M Backend unit :=
  _process_until_initial_prompt LF NORMAL_PROMPT Matcher.ends_overlap decode
    no_side_commands fuel None.

End Repl.

(** ** Line-buffered output

    What a child that flushes its output line by line sends: batches of
    complete lines.  A complete line ends with the line-feed byte [nl], which
    occurs nowhere else in it, and does not hold the prompt marker. *)
Definition complete_line (nl : byte) (NORMAL_PROMPT line : bytes) : Prop :=
  exists body,
    line = body ++ [nl] /\ ~ In nl body /\ ~ occurs NORMAL_PROMPT body.

(** The connection has [data] at hand for its next read, and [more] batches
    to come after it: [data] is buffered, or is the next batch to arrive. *)
Definition at_hand (c : Conn.t) (data : bytes) (more : list bytes) : Prop :=
  (Conn.read_buffer c = data /\ Conn.arrivals c = more) \/
  (Conn.read_buffer c = [] /\ Conn.arrivals c = data :: more).

(** The iterations that the scan loop spends on batches of complete lines:
    one for each line, and one for a batch that is empty (a read that timed
    out). *)
Definition iterations_for (batches : list (list bytes)) : nat :=
  list_sum (map (fun lines => Nat.max 1 (length lines)) batches).

(** ** The calls of a scan

    The calls that a scan makes, in their order, with what the reads
    returned and what the consumer was handed. *)
Inductive scan_event : Type :=
| SideCommandCheck
| MainRead (data : bytes)
| Probe (data : bytes)
| Chunk (data : bytes) (stream_name : string).

Definition is_check (e : scan_event) : bool :=
  match e with SideCommandCheck => true | _ => false end.

Definition is_main_read (e : scan_event) : bool :=
  match e with MainRead _ => true | _ => false end.

Definition is_probe (e : scan_event) : bool :=
  match e with Probe _ => true | _ => false end.

Definition is_chunk (e : scan_event) : bool :=
  match e with Chunk _ _ => true | _ => false end.

(** The chunks handed to the consumer, in order. *)
Fixpoint chunks_of (events : list scan_event) : list bytes :=
  match events with
  | [] => []
  | Chunk data _ :: events' => data :: chunks_of events'
  | _ :: events' => chunks_of events'
  end.

(** An action that also records its call, when it returns, in a log kept
    beside the state. *)
Definition logged {St A : Type} (event : A -> scan_event) (m : M St A)
  : M (St * list scan_event) A :=
  fun st =>
    match m (fst st) with
    | (Ret a, s') => (Ret a, (s', snd st ++ [event a]))
    | (o, s') => (o, (s', snd st))
    end.

(** The scan of the REPL session, each of its actions recording its call. *)
Module Traced.

Definition state : Type := (Backend * list bytes) * list scan_event.

Definition check : M state unit :=
  logged (fun _ => SideCommandCheck) Repl.check.

Definition soft_read_until (closers : list bytes) : M state bytes :=
  logged MainRead (Repl.soft_read_until closers).

Definition soft_read (n : nat) : M state bytes :=
  logged Probe (Repl.soft_read n).

Definition consumer (data : bytes) (stream_name : string) : M state unit :=
  logged (fun _ => Chunk data stream_name) (collect_output data stream_name).

Definition loop (fuel : nat) (stream_name : string) (pending : bytes)
  (st : state) : scan_status * state :=
  scan_loop Repl.LF Repl.NORMAL_PROMPT Matcher.ends_overlap
    check soft_read_until soft_read consumer fuel stream_name pending st.

(** The scan on [batches] still to arrive, nothing recorded yet. *)
Definition scan (fuel : nat) (batches : list bytes) : scan_status * state :=
  loop fuel "stdout" [] ((Repl.backend batches, []), []).

End Traced.

(** ** Occurrences in text *)

Definition text_occurs (pat s : text) : Prop :=
  exists u v, s = u ++ pat ++ v.
(** ** Lemmas on byte strings *)

Lemma bytes_eqb_eq (x y : bytes) : bytes_eqb x y = true <-> x = y.
Proof.
  revert y; induction x as [|c x IH]; intros [|d y]; simpl; split;
    try congruence; try reflexivity.
  - intros H; apply andb_prop in H as [Hc Hx].
    apply Byte.byte_dec_bl in Hc; apply IH in Hx; congruence.
  - intros H; injection H as -> ->.
    rewrite Byte.byte_dec_lb by reflexivity.
    apply IH; reflexivity.
Qed.

Lemma bytes_eqb_refl (x : bytes) : bytes_eqb x x = true.
Proof. apply bytes_eqb_eq; reflexivity. Qed.

Lemma startswith_spec (s p : bytes) :
  startswith s p = true <-> exists v, s = p ++ v.
Proof.
  revert s; induction p as [|c p IH]; intros s; simpl.
  - split; [intros _; exists s; reflexivity | reflexivity].
  - destruct s as [|d s]; split.
    + discriminate.
    + intros [v Hv]; discriminate.
    + intros H; apply andb_prop in H as [Hc Hp].
      apply Byte.byte_dec_bl in Hc; apply IH in Hp as [v ->].
      exists v; congruence.
    + intros [v Hv]; injection Hv as -> ->.
      rewrite Byte.byte_dec_lb by reflexivity.
      apply IH; exists v; reflexivity.
Qed.

Lemma startswith_app (p v : bytes) : startswith (p ++ v) p = true.
Proof. apply startswith_spec; exists v; reflexivity. Qed.

Lemma last_bytes_app (x y : bytes) : last_bytes (length y) (x ++ y) = y.
Proof.
  unfold last_bytes; rewrite length_app.
  replace (length x + length y - length y) with (length x + 0) by lia.
  rewrite skipn_app, Nat.add_0_r.
  replace (length x - length x) with 0 by lia.
  rewrite skipn_all; reflexivity.
Qed.

Lemma endswith_spec (s suffix : bytes) :
  endswith s suffix = true <-> exists x, s = x ++ suffix.
Proof.
  unfold endswith; split.
  - intros H; apply andb_prop in H as [Hlen Heq].
    apply bytes_eqb_eq in Heq.
    exists (firstn (length s - length suffix) s).
    rewrite <- Heq at 2; unfold last_bytes.
    symmetry; apply firstn_skipn.
  - intros [x ->]; rewrite last_bytes_app, bytes_eqb_refl, length_app.
    rewrite andb_true_r; apply Nat.leb_le; lia.
Qed.

Lemma endswith_app (x suffix : bytes) : endswith (x ++ suffix) suffix = true.
Proof. apply endswith_spec; exists x; reflexivity. Qed.

Lemma endswith_false (s suffix : bytes) :
  endswith s suffix = false <-> forall x, s <> x ++ suffix.
Proof.
  split.
  - intros H x Hx.
    assert (endswith s suffix = true) by (apply endswith_spec; eauto).
    congruence.
  - intros H; destruct (endswith s suffix) eqn:E; [|reflexivity].
    apply endswith_spec in E as [x Hx]; destruct (H x Hx).
Qed.

Lemma slice_to_neg_app (x suffix : bytes) :
  suffix <> [] -> slice_to_neg (x ++ suffix) (length suffix) = x.
Proof.
  intros Hne; unfold slice_to_neg.
  destruct suffix as [|c suffix]; [congruence|].
  cbn [length]; rewrite length_app; cbn [length].
  replace (length x + S (length suffix) - S (length suffix))
    with (length x + 0) by lia.
  rewrite firstn_app_2; simpl; apply app_nil_r.
Qed.

Lemma skipn_length_app (x y : bytes) : skipn (length x) (x ++ y) = y.
Proof. induction x; simpl; auto. Qed.

Lemma split_at_first_eq (pat s : bytes) :
  split_at_first pat s =
  if startswith s pat then Some (pat, skipn (length pat) s)
  else
    match s with
    | [] => None
    | c :: s' =>
        match split_at_first pat s' with
        | Some (r, rest) => Some (c :: r, rest)
        | None => None
        end
    end.
Proof. destruct s; reflexivity. Qed.

Lemma only_at_end_self (pat : bytes) : only_at_end pat pat.
Proof.
  split; [exists []; reflexivity|].
  intros u v H; apply (f_equal (@length byte)) in H.
  rewrite !length_app in H.
  destruct v; [reflexivity | simpl in H; lia].
Qed.

Lemma only_at_end_tail (pat : bytes) (c : byte) (r : bytes) :
  (exists x, r = x ++ pat) -> only_at_end pat (c :: r) -> only_at_end pat r.
Proof.
  intros Hx [_ H]; split; [exact Hx|].
  intros u v E; apply (H (c :: u) v); rewrite E; reflexivity.
Qed.

(** What [split_at_first] returns is the leftmost occurrence. *)
Lemma split_at_first_sound (pat s r rest : bytes) :
  split_at_first pat s = Some (r, rest) ->
  s = r ++ rest /\ only_at_end pat r.
Proof.
  revert r rest; induction s as [|c s IH]; intros r rest;
    rewrite split_at_first_eq; destruct (startswith _ pat) eqn:Hs.
  - intros H; injection H as <- <-.
    apply startswith_spec in Hs as [v Hv].
    destruct pat; [|discriminate].
    split; [reflexivity | apply only_at_end_self].
  - discriminate.
  - intros H; injection H as <- <-.
    apply startswith_spec in Hs as [v ->].
    rewrite skipn_length_app; split; [reflexivity | apply only_at_end_self].
  - destruct (split_at_first pat s) as [[r' rest']|] eqn:Hrec; [|discriminate].
    intros H; injection H as <- <-.
    destruct (IH _ _ eq_refl) as [-> [[x Hx] Hend]].
    split; [reflexivity|split].
    + exists (c :: x); rewrite Hx; reflexivity.
    + intros [|d u] v E.
      * exfalso; simpl in E.
        assert (startswith (c :: r' ++ rest') pat = true).
        { apply startswith_spec; exists (v ++ rest').
          rewrite app_comm_cons, E, <- app_assoc; reflexivity. }
        congruence.
      * simpl in E; injection E as _ E; eauto.
Qed.

(** An occurrence that is the leftmost one is the one found. *)
Lemma split_at_first_complete (pat x rest : bytes) :
  only_at_end pat (x ++ pat) ->
  split_at_first pat (x ++ pat ++ rest) = Some (x ++ pat, rest).
Proof.
  induction x as [|c x IH]; intros Hend; rewrite split_at_first_eq.
  - simpl; rewrite startswith_app, skipn_length_app; reflexivity.
  - destruct (startswith _ pat) eqn:Hs.
    + exfalso; apply startswith_spec in Hs as [v Hv].
      destruct Hend as [_ Hend].
      assert (Hlen : length pat <= length ((c :: x) ++ pat))
        by (rewrite length_app; lia).
      assert (E : (c :: x) ++ pat = pat ++ skipn (length pat) ((c :: x) ++ pat)).
      { rewrite <- (firstn_skipn (length pat) ((c :: x) ++ pat)) at 1.
        f_equal.
        assert (F : firstn (length pat) (((c :: x) ++ pat) ++ rest) = pat)
          by (rewrite <- app_assoc, Hv, firstn_app, Nat.sub_diag, firstn_all;
              simpl; apply app_nil_r).
        rewrite firstn_app in F.
        replace (length pat - length ((c :: x) ++ pat)) with 0 in F by lia.
        simpl in F; rewrite app_nil_r in F; exact F. }
      specialize (Hend [] _ E).
      apply (f_equal (@length byte)) in Hend.
      rewrite length_skipn, length_app in Hend; cbn [length] in Hend; lia.
    + simpl; rewrite IH; [reflexivity|].
      apply only_at_end_tail with (c := c); [eauto | exact Hend].
Qed.

Lemma split_at_first_None (pat s : bytes) :
  split_at_first pat s = None -> ~ occurs pat s.
Proof.
  induction s as [|c s IH]; rewrite split_at_first_eq;
    destruct (startswith _ pat) eqn:Hs; try discriminate.
  - intros _ (u & v & E).
    destruct u; [|discriminate]; destruct pat; [|discriminate].
    discriminate.
  - destruct (split_at_first pat s) as [[r' rest']|] eqn:Hrec; [discriminate|].
    intros _ (u & v & E).
    destruct u as [|d u].
    + assert (startswith (c :: s) pat = true)
        by (apply startswith_spec; exists v; exact E).
      congruence.
    + injection E as _ E; apply IH; [reflexivity | exists u, v; exact E].
Qed.

(** Bytes appended after a match do not move it. *)
Lemma split_at_first_app (pat s t r rest : bytes) :
  split_at_first pat s = Some (r, rest) ->
  split_at_first pat (s ++ t) = Some (r, rest ++ t).
Proof.
  intros H; apply split_at_first_sound in H as [-> Hend].
  destruct Hend as [[x ->] Hend].
  rewrite <- !app_assoc; apply split_at_first_complete.
  split; [eauto | exact Hend].
Qed.

(** Nothing of the marker is left inside what precedes its first match. *)
Lemma only_at_end_not_inside (pat x : bytes) :
  pat <> [] -> only_at_end pat (x ++ pat) -> ~ occurs pat x.
Proof.
  intros Hne [_ Hend] (u & v & ->).
  specialize (Hend u (v ++ pat)).
  rewrite <- !app_assoc in Hend.
  specialize (Hend eq_refl).
  apply app_eq_nil in Hend as [_ ?]; auto.
Qed.


(** ** Runs of the model *)

Example endswith_prompt : endswith (b "abc>>> ") (b ">>> ") = true.
Proof. reflexivity. Qed.

Example endswith_longer_suffix : endswith (b "> ") (b ">>> ") = false.
Proof. reflexivity. Qed.

(** [b"abc"[:-0] == b""]. *)
Example slice_to_neg_zero : slice_to_neg (b "abc") 0 = [].
Proof. reflexivity. Qed.

Example slice_to_neg_prompt : slice_to_neg (b "abc>>> ") 4 = b "abc".
Proof. reflexivity. Qed.

Example replace_crlf :
  replace (str "a" ++ CRLF ++ str "b" ++ CRLF) CRLF [10%N] =
  str "a" ++ [10%N] ++ str "b" ++ [10%N].
Proof. reflexivity. Qed.

(** ["aaa".replace("aa", "b") == "ba"]. *)
Example replace_left_to_right : replace (str "aaa") (str "aa") (str "b") = str "ba".
Proof. reflexivity. Qed.

(** ["ab".replace("", "-") == "-a-b-"]. *)
Example replace_empty_old : replace (str "ab") [] (str "-") = str "-a-b-".
Proof. reflexivity. Qed.

Example ends_overlap_partial :
  Matcher.ends_overlap (b "abc>>") (b ">>> ") = true.
Proof. reflexivity. Qed.

Example ends_overlap_full :
  Matcher.ends_overlap (b "abc>>> ") (b ">>> ") = false.
Proof. reflexivity. Qed.

Example ends_overlap_none :
  Matcher.ends_overlap (b "abc") (b ">>> ") = false.
Proof. reflexivity. Qed.

(** The prompt arriving in one piece ends the scan at once. *)
Example scan_whole_prompt :
  fst (Repl.scan 1 [b ">>> "]) = Stopped (Ret Repl.NORMAL_PROMPT) /\
  snd (snd (Repl.scan 1 [b ">>> "])) = [[]].
Proof. split; vm_compute; reflexivity. Qed.

(** Two lines and the prompt, the second line cut by the transport. *)
Example scan_lines_then_prompt :
  fst (Repl.scan 3 [b "hello" ++ Repl.LF ++ b "wor";
                    b "ld" ++ Repl.LF ++ Repl.NORMAL_PROMPT]) =
    Stopped (Ret Repl.NORMAL_PROMPT) /\
  snd (snd (Repl.scan 3 [b "hello" ++ Repl.LF ++ b "wor";
                         b "ld" ++ Repl.LF ++ Repl.NORMAL_PROMPT])) =
    [b "hello" ++ Repl.LF; b "world" ++ Repl.LF; []].
Proof. split; vm_compute; reflexivity. Qed.

(** The prompt cut in two halves: the probe takes one byte of the second
    half, the next read the last one, and the scan ends. *)
Example scan_prompt_in_two_halves :
  fst (Repl.scan 2 [b ">>"; b "> "]) = Stopped (Ret Repl.NORMAL_PROMPT).
Proof. vm_compute; reflexivity. Qed.

(** A prefix of the prompt that nothing follows is released as output. *)
Example scan_releases_false_prefix :
  Repl.scan 1 [b "a >"] =
  (Running [],
   (set_connection (Conn.mk [] [] [] [b "a >"; []]) (Repl.backend []),
    [b "a >"])).
Proof. vm_compute; reflexivity. Qed.

(** Submitting [print(1+1)]: the output is the line [2]. *)
Example submit_print :
  outbox
    (snd (Repl.execute (b "print(1+1)") _send_output
            (Repl.backend
               [paste_exchange Repl.NORMAL_PROMPT [x0d; x0a] (b "print(1+1)")
                  [x0d] (b "2" ++ [x0d; x0a]) []]))) =
  [ProgramOutput "stdout" (b "2" ++ [x0d; x0a])].
Proof. vm_compute; reflexivity. Qed.

(** A child that dies before the prompt: the submission fails. *)
Example submit_to_dead_child :
  fst (Repl.execute (b "print(1+1)") _send_output
         (Repl.backend [b "=== print(1+1)#uuu"])) = Raise ProtocolViolation.
Proof. vm_compute; reflexivity. Qed.

(** ** The prompt matcher *)

Lemma ends_overlap_true (buffer marker : bytes) :
  Matcher.ends_overlap buffer marker = true <->
  (exists k,
     1 <= k <= length marker /\ last_bytes k buffer = firstn k marker) /\
  endswith buffer marker = false.
Proof.
  unfold Matcher.ends_overlap; rewrite andb_true_iff, negb_true_iff.
  rewrite existsb_exists; split; intros [[k Hk] Hend]; (split; [|exact Hend]);
    exists k.
  - destruct Hk as [Hin Heq]; apply in_seq in Hin; apply bytes_eqb_eq in Heq.
    split; [lia | exact Heq].
  - destruct Hk as [Hin Heq]; split; [apply in_seq; lia|].
    apply bytes_eqb_eq; exact Heq.
Qed.

(** The overlap arm lies behind the test for the full marker. *)
Lemma scan_branch_overlap (LF NORMAL_PROMPT : bytes)
  (overlap_test : bytes -> bytes -> bool) (pending : bytes) :
  scan_branch LF NORMAL_PROMPT overlap_test pending = HaveOverlap ->
  endswith pending LF = false /\
  endswith pending NORMAL_PROMPT = false /\
  overlap_test pending NORMAL_PROMPT = true.
Proof.
  unfold scan_branch.
  destruct (endswith pending LF); [discriminate|].
  destruct (endswith pending NORMAL_PROMPT); [discriminate|].
  destruct (overlap_test pending NORMAL_PROMPT); [auto | discriminate].
Qed.

(** C4.  For every buffer and marker, the overlap predicate holds iff some
    [k] with [1 <= k <= len(marker)] makes the last [k] bytes of the buffer
    equal to the first [k] bytes of the marker and the buffer does not end
    with the full marker; overlap and exact suffix match exclude each other;
    and the scanner takes its overlap arm only on a buffer that does not end
    with the full prompt marker, whatever the overlap test is. *)
Theorem ends_overlap_iff_partial_suffix (buffer marker : bytes) :
  (Matcher.ends_overlap buffer marker = true <->
     (exists k,
        1 <= k <= length marker /\
        last_bytes k buffer = firstn k marker) /\
     endswith buffer marker = false) /\
  ~ (Matcher.ends_overlap buffer marker = true /\
     endswith buffer marker = true) /\
  (forall (LF : bytes) (overlap_test : bytes -> bytes -> bool),
     scan_branch LF marker overlap_test buffer = HaveOverlap ->
     endswith buffer marker = false).
Proof.
  split; [apply ends_overlap_true|split].
  - intros [Ho He]; apply ends_overlap_true in Ho as [_ Hn]; congruence.
  - intros LF overlap_test Hb.
    apply scan_branch_overlap in Hb; tauto.
Qed.

(** ** Actions that leave an observation alone *)

Lemma preserves_ret {St A X : Type} (f : St -> X) (a : A) :
  preserves f (ret a).
Proof. intros s; reflexivity. Qed.

Lemma preserves_raise {St A X : Type} (f : St -> X) (e : exn) :
  preserves f (@raise St A e).
Proof. intros s; reflexivity. Qed.

Lemma preserves_bind {St A B X : Type} (f : St -> X) (m : M St A)
  (k : A -> M St B) :
  preserves f m -> (forall a, preserves f (k a)) -> preserves f (bind m k).
Proof.
  intros Hm Hk s; unfold bind.
  specialize (Hm s); destruct (m s) as [[a|e|] s1]; cbn in *.
  - rewrite Hk; exact Hm.
  - exact Hm.
  - exact Hm.
Qed.

(** ** The scan loop *)

Section ScannerFacts.

Context {St : Type}.
Variables LF NORMAL_PROMPT : bytes.
Variable ends_overlap : bytes -> bytes -> bool.
Variable _check_for_side_commands : M St unit.
Variable soft_read_until : list bytes -> M St bytes.
Variable soft_read : nat -> M St bytes.
Variable output_consumer : bytes -> string -> M St unit.

Local Abbreviation CLOSERS := (INCREMENTAL_OUTPUT_BLOCK_CLOSERS LF NORMAL_PROMPT).
Local Abbreviation branch_of := (scan_branch LF NORMAL_PROMPT ends_overlap).
Local Abbreviation iteration :=
  (scan_iteration LF NORMAL_PROMPT ends_overlap _check_for_side_commands
     soft_read_until soft_read output_consumer).
Local Abbreviation loop :=
  (scan_loop LF NORMAL_PROMPT ends_overlap _check_for_side_commands
     soft_read_until soft_read output_consumer).

Lemma scan_loop_step (fuel : nat) (stream_name : string) (pending : bytes)
  (s : St) :
  loop (S fuel) stream_name pending s =
  match iteration stream_name pending s with
  | (Ret (Continue pending'), s') => loop fuel stream_name pending' s'
  | (Ret (Return v), s') => (Stopped (Ret v), s')
  | (Raise e, s') => (Stopped (Raise e), s')
  | (OutOfFuel, s') => (Stopped OutOfFuel, s')
  end.
Proof. reflexivity. Qed.

(** Iterations compose: [n + m] of them are [n], then [m] more if the loop
    is still running. *)
Lemma scan_loop_add (n m : nat) (stream_name : string) (pending : bytes)
  (s : St) :
  loop (n + m) stream_name pending s =
  match loop n stream_name pending s with
  | (Running pending', s') => loop m stream_name pending' s'
  | (Stopped o, s') => (Stopped o, s')
  end.
Proof.
  revert pending s; induction n as [|n IH]; intros pending s.
  - reflexivity.
  - cbn [Nat.add]; rewrite !scan_loop_step.
    destruct (iteration stream_name pending s) as [[[p'|v]|e|] s'];
      try reflexivity.
    apply IH.
Qed.

(** An empty read sends the loop back to its start with nothing changed but
    what the check and the read themselves did. *)
Lemma iteration_empty_read (stream_name : string) (pending : bytes)
  (s s1 s2 : St) (u : unit) :
  _check_for_side_commands s = (Ret u, s1) ->
  soft_read_until CLOSERS s1 = (Ret [], s2) ->
  iteration stream_name pending s = (Ret (Continue pending), s2).
Proof.
  intros Hc Hr; unfold scan_iteration, bind; rewrite Hc, Hr; reflexivity.
Qed.

(** The probe that times out: the whole buffer goes to the consumer. *)
Lemma iteration_probe_timeout (stream_name : string)
  (pending new_data : bytes) (s s1 s2 s3 : St) (u : unit) :
  _check_for_side_commands s = (Ret u, s1) ->
  soft_read_until CLOSERS s1 = (Ret new_data, s2) ->
  new_data <> [] ->
  branch_of (pending ++ new_data) = HaveOverlap ->
  soft_read 1 s2 = (Ret [], s3) ->
  iteration stream_name pending s =
  (output_consumer (pending ++ new_data) stream_name ;; ret (Continue [])) s3.
Proof.
  intros Hc Hr Hne Hb Hp; unfold scan_iteration, bind.
  rewrite Hc, Hr.
  destruct new_data as [|c d]; [congruence|]; cbn [is_empty].
  rewrite Hb, Hp; reflexivity.
Qed.

(** The probe that returns a byte: the byte is appended, and the loop goes
    back to its start without looking at the buffer again. *)
Lemma iteration_probe_byte (stream_name : string)
  (pending new_data follow_up : bytes) (s s1 s2 s3 : St) (u : unit) :
  _check_for_side_commands s = (Ret u, s1) ->
  soft_read_until CLOSERS s1 = (Ret new_data, s2) ->
  new_data <> [] ->
  branch_of (pending ++ new_data) = HaveOverlap ->
  soft_read 1 s2 = (Ret follow_up, s3) ->
  follow_up <> [] ->
  iteration stream_name pending s =
  (Ret (Continue ((pending ++ new_data) ++ follow_up)), s3).
Proof.
  intros Hc Hr Hne Hb Hp Hf; unfold scan_iteration, bind.
  rewrite Hc, Hr.
  destruct new_data as [|c d]; [congruence|]; cbn [is_empty].
  rewrite Hb, Hp.
  destruct follow_up; [congruence | reflexivity].
Qed.

(** C5.  When the buffer, after a read, ends neither with a line feed nor
    with the full prompt marker but passes the overlap test, and the one-byte
    probe returns nothing, the iteration hands the entire buffer to the
    consumer as one chunk and goes on with an empty buffer: it does not
    return, and every buffered byte is in the chunk. *)
Theorem probe_timeout_emits_pending (stream_name : string)
  (pending new_data : bytes) (s s1 s2 s3 : St) :
  _check_for_side_commands s = (Ret tt, s1) ->
  soft_read_until CLOSERS s1 = (Ret new_data, s2) ->
  new_data <> [] ->
  endswith (pending ++ new_data) LF = false ->
  endswith (pending ++ new_data) NORMAL_PROMPT = false ->
  ends_overlap (pending ++ new_data) NORMAL_PROMPT = true ->
  soft_read 1 s2 = (Ret [], s3) ->
  iteration stream_name pending s =
    (output_consumer (pending ++ new_data) stream_name ;; ret (Continue [])) s3
  /\
  forall s4 fuel,
    output_consumer (pending ++ new_data) stream_name s3 = (Ret tt, s4) ->
    iteration stream_name pending s = (Ret (Continue []), s4) /\
    loop (S fuel) stream_name pending s = loop fuel stream_name [] s4.
Proof.
  intros Hc Hr Hne Hlf Hnp Hov Hp.
  assert (Hb : branch_of (pending ++ new_data) = HaveOverlap)
    by (unfold scan_branch; rewrite Hlf, Hnp, Hov; reflexivity).
  pose proof (iteration_probe_timeout stream_name pending new_data s s1 s2 s3 tt
                Hc Hr Hne Hb Hp) as E.
  split; [exact E|].
  intros s4 fuel Ho.
  assert (E' : iteration stream_name pending s = (Ret (Continue []), s4))
    by (rewrite E; unfold bind; rewrite Ho; reflexivity).
  split; [exact E'|].
  rewrite scan_loop_step, E'; reflexivity.
Qed.

(** A scan fails only where one of its actions does. *)
Lemma scan_iteration_raise (stream_name : string) (pending : bytes)
  (s s' : St) (e : exn) :
  iteration stream_name pending s = (Raise e, s') ->
  exists s0,
    fst (_check_for_side_commands s0) = Raise e \/
    fst (soft_read_until CLOSERS s0) = Raise e \/
    fst (soft_read 1 s0) = Raise e \/
    exists data, fst (output_consumer data stream_name s0) = Raise e.
Proof.
  unfold scan_iteration, bind.
  destruct (_check_for_side_commands s) as [[u|e1|] s1] eqn:Hc;
    [|intros H; injection H as <- <-; exists s; rewrite Hc; auto
     |discriminate].
  destruct (soft_read_until CLOSERS s1) as [[d|e2|] s2] eqn:Hr;
    [|intros H; injection H as <- <-; exists s1; rewrite Hr; auto
     |discriminate].
  destruct (is_empty d); [discriminate|].
  destruct (branch_of (pending ++ d)).
  - destruct (output_consumer _ stream_name s2) as [[u'|e3|] s3] eqn:Ho;
      try discriminate.
    intros H; injection H as <- <-; exists s2.
    do 3 right; eexists; rewrite Ho; reflexivity.
  - destruct (output_consumer _ stream_name s2) as [[u'|e3|] s3] eqn:Ho;
      try discriminate.
    intros H; injection H as <- <-; exists s2.
    do 3 right; eexists; rewrite Ho; reflexivity.
  - destruct (soft_read 1 s2) as [[f|e3|] s3] eqn:Hp;
      [|intros H; injection H as <- <-; exists s2; rewrite Hp; auto
       |discriminate].
    destruct (is_empty f); [|discriminate].
    destruct (output_consumer _ stream_name s3) as [[u'|e4|] s4] eqn:Ho;
      try discriminate.
    intros H; injection H as <- <-; exists s3.
    do 3 right; eexists; rewrite Ho; reflexivity.
  - destruct (output_consumer _ stream_name s2) as [[u'|e3|] s3] eqn:Ho;
      try discriminate.
    intros H; injection H as <- <-; exists s2.
    do 3 right; eexists; rewrite Ho; reflexivity.
Qed.

Lemma scan_loop_raise (fuel : nat) (stream_name : string) (pending : bytes)
  (s s' : St) (e : exn) :
  loop fuel stream_name pending s = (Stopped (Raise e), s') ->
  exists s0,
    fst (_check_for_side_commands s0) = Raise e \/
    fst (soft_read_until CLOSERS s0) = Raise e \/
    fst (soft_read 1 s0) = Raise e \/
    exists data, fst (output_consumer data stream_name s0) = Raise e.
Proof.
  revert pending s; induction fuel as [|fuel IH]; intros pending s.
  - discriminate.
  - rewrite scan_loop_step.
    destruct (iteration stream_name pending s) as [[[p'|v]|e1|] s1] eqn:Hi.
    + apply IH.
    + discriminate.
    + intros H; injection H as <- <-.
      eapply scan_iteration_raise; eassumption.
    + discriminate.
Qed.

(** On states where the check returns and the read comes back empty, and
    which those two calls do not leave, the loop runs on for ever: after any
    number of iterations it is still running, its buffer untouched, its
    state the one that the checks and reads alone produced. *)
Lemma scan_loop_silent (silent : St -> Prop) :
  (forall s, silent s ->
     exists s1 s2,
       _check_for_side_commands s = (Ret tt, s1) /\
       soft_read_until CLOSERS s1 = (Ret [], s2) /\ silent s2) ->
  forall fuel stream_name pending s,
    silent s ->
    exists s',
      loop fuel stream_name pending s = (Running pending, s') /\ silent s' /\
      s' = Nat.iter fuel
             (fun x => snd (soft_read_until CLOSERS
                              (snd (_check_for_side_commands x)))) s.
Proof.
  intros Hsilent fuel stream_name pending; induction fuel as [|fuel IH];
    intros s Hs.
  - exists s; repeat split; assumption.
  - destruct (Hsilent s Hs) as (s1 & s2 & Hc & Hr & Hs2).
    destruct (IH s2 Hs2) as (s' & Hl & Hs' & Hit).
    exists s'; rewrite scan_loop_step.
    rewrite (iteration_empty_read stream_name pending s s1 s2 tt Hc Hr).
    repeat split; try assumption.
    rewrite Nat.iter_succ_r, Hit; f_equal.
    rewrite Hc; cbn [snd]; rewrite Hr; reflexivity.
Qed.

(** A byte returned by the probe is appended and not looked at: if the
    connection is silent from then on, the loop runs on for ever with the
    buffer it has, whatever that buffer ends with. *)
Lemma probe_byte_is_not_reclassified (silent : St -> Prop)
  (stream_name : string) (pending new_data follow_up : bytes)
  (s s1 s2 s3 : St) :
  _check_for_side_commands s = (Ret tt, s1) ->
  soft_read_until CLOSERS s1 = (Ret new_data, s2) ->
  new_data <> [] ->
  branch_of (pending ++ new_data) = HaveOverlap ->
  soft_read 1 s2 = (Ret follow_up, s3) ->
  follow_up <> [] ->
  (forall s, silent s ->
     exists s1 s2,
       _check_for_side_commands s = (Ret tt, s1) /\
       soft_read_until CLOSERS s1 = (Ret [], s2) /\ silent s2) ->
  silent s3 ->
  forall fuel,
    exists s',
      loop (S fuel) stream_name pending s =
        (Running ((pending ++ new_data) ++ follow_up), s') /\
      silent s'.
Proof.
  intros Hc Hr Hne Hb Hp Hf Hsilent Hs3 fuel.
  rewrite scan_loop_step.
  rewrite (iteration_probe_byte stream_name pending new_data follow_up
             s s1 s2 s3 tt Hc Hr Hne Hb Hp Hf).
  destruct (scan_loop_silent silent Hsilent fuel stream_name
              ((pending ++ new_data) ++ follow_up) s3 Hs3)
    as (s' & Hl & Hs' & _).
  exists s'; auto.
Qed.

(** What every action of the scan leaves alone, the scan leaves alone. *)
Lemma scan_loop_preserves {X : Type} (f : St -> X) :
  preserves f _check_for_side_commands ->
  (forall closers, preserves f (soft_read_until closers)) ->
  (forall n, preserves f (soft_read n)) ->
  (forall data name, preserves f (output_consumer data name)) ->
  forall fuel stream_name pending s,
    f (snd (loop fuel stream_name pending s)) = f s.
Proof.
  intros Hc Hr Hp Ho.
  assert (Hi : forall stream_name pending,
             preserves f (iteration stream_name pending)).
  { intros stream_name pending; unfold scan_iteration.
    apply preserves_bind; [exact Hc | intros _].
    apply preserves_bind; [apply Hr | intros d].
    destruct (is_empty d); [apply preserves_ret|].
    destruct (branch_of (pending ++ d)).
    - apply preserves_bind; [apply Ho | intros _; apply preserves_ret].
    - apply preserves_bind; [apply Ho | intros _; apply preserves_ret].
    - apply preserves_bind; [apply Hp | intros g].
      destruct (is_empty g); [|apply preserves_ret].
      apply preserves_bind; [apply Ho | intros _; apply preserves_ret].
    - apply preserves_bind; [apply Ho | intros _; apply preserves_ret]. }
  induction fuel as [|fuel IH]; intros stream_name pending s.
  - reflexivity.
  - rewrite scan_loop_step.
    specialize (Hi stream_name pending s).
    destruct (iteration stream_name pending s) as [[[p'|v]|e|] s1];
      cbn in *; try exact Hi.
    rewrite IH; exact Hi.
Qed.

Section Observed.

(** What a state has seen since some point: the bytes that the reads
    returned, and the bytes that were handed to the consumer. *)
Variable received : St -> bytes.
Variable emitted : St -> bytes.

Hypothesis check_observed : forall s s' u,
  _check_for_side_commands s = (Ret u, s') ->
  received s' = received s /\ emitted s' = emitted s.
Hypothesis soft_read_until_observed : forall closers s s' data,
  soft_read_until closers s = (Ret data, s') ->
  received s' = received s ++ data /\ emitted s' = emitted s.
Hypothesis soft_read_observed : forall n s s' data,
  soft_read n s = (Ret data, s') ->
  received s' = received s ++ data /\ emitted s' = emitted s.
Hypothesis consumer_observed : forall data name s s' u,
  output_consumer data name s = (Ret u, s') ->
  received s' = received s /\ emitted s' = emitted s ++ data.
Hypothesis prompt_not_empty : NORMAL_PROMPT <> [].

Local Abbreviation kept := (conserved received emitted).

Lemma conserved_read (s0 s s' : St) (pending data : bytes) :
  kept s0 s pending ->
  received s' = received s ++ data -> emitted s' = emitted s ->
  kept s0 s' (pending ++ data).
Proof.
  intros (E & R & He & Hr & Hk) Hr' He'.
  exists E, (R ++ data); rewrite He', Hr', He, Hr, <- Hk.
  rewrite !app_assoc; auto.
Qed.

Lemma conserved_same (s0 s s' : St) (pending : bytes) :
  kept s0 s pending ->
  received s' = received s -> emitted s' = emitted s ->
  kept s0 s' pending.
Proof.
  intros (E & R & He & Hr & Hk) Hr' He'.
  exists E, R; rewrite He', Hr'; auto.
Qed.

Lemma conserved_emit (s0 s s' : St) (out withheld : bytes) :
  kept s0 s (out ++ withheld) ->
  received s' = received s -> emitted s' = emitted s ++ out ->
  kept s0 s' withheld.
Proof.
  intros (E & R & He & Hr & Hk) Hr' He'.
  exists (E ++ out), R; rewrite He', Hr', He, Hr, <- Hk.
  rewrite !app_assoc; auto.
Qed.

Lemma scan_iteration_conserves (stream_name : string) (pending : bytes)
  (s0 s s' : St) (ctl : loop_ctl) :
  iteration stream_name pending s = (Ret ctl, s') ->
  kept s0 s pending ->
  match ctl with
  | Continue pending' => kept s0 s' pending'
  | Return v => v = NORMAL_PROMPT /\ kept s0 s' NORMAL_PROMPT
  end.
Proof.
  unfold scan_iteration, bind; intros H K.
  destruct (_check_for_side_commands s) as [[u|e1|] s1] eqn:Hc;
    try discriminate.
  destruct (check_observed _ _ _ Hc) as [Hr1 He1].
  pose proof (conserved_same _ _ _ _ K Hr1 He1) as K1.
  destruct (soft_read_until CLOSERS s1) as [[d|e2|] s2] eqn:Hr;
    try discriminate.
  destruct (soft_read_until_observed _ _ _ _ Hr) as [Hr2 He2].
  pose proof (conserved_read _ _ _ _ _ K1 Hr2 He2) as K2.
  destruct d as [|c d]; cbn [is_empty] in H.
  { injection H as <- <-; rewrite app_nil_r in K2; exact K2. }
  set (p := pending ++ c :: d) in *.
  destruct (branch_of p) eqn:Hb.
  - destruct (output_consumer p stream_name s2) as [[u'|e3|] s3] eqn:Ho;
      try discriminate.
    injection H as <- <-; destruct (consumer_observed _ _ _ _ _ Ho) as [Hr3 He3].
    apply conserved_emit with (s := s2) (out := p); auto.
    rewrite app_nil_r; exact K2.
  - destruct (output_consumer _ stream_name s2) as [[u'|e3|] s3] eqn:Ho;
      try discriminate.
    injection H as <- <-; destruct (consumer_observed _ _ _ _ _ Ho) as [Hr3 He3].
    split; [reflexivity|].
    assert (Hend : endswith p NORMAL_PROMPT = true).
    { unfold scan_branch in Hb.
      destruct (endswith p LF); [discriminate|].
      destruct (endswith p NORMAL_PROMPT); [reflexivity|].
      destruct (ends_overlap p NORMAL_PROMPT); discriminate. }
    apply endswith_spec in Hend as [x Hx].
    rewrite Hx, slice_to_neg_app in He3 by assumption.
    apply conserved_emit with (s := s2) (out := x); auto.
    rewrite <- Hx; exact K2.
  - destruct (soft_read 1 s2) as [[f|e3|] s3] eqn:Hp; try discriminate.
    destruct (soft_read_observed _ _ _ _ Hp) as [Hr3 He3].
    pose proof (conserved_read _ _ _ _ _ K2 Hr3 He3) as K3.
    destruct f as [|c' f]; cbn [is_empty] in H.
    + destruct (output_consumer p stream_name s3) as [[u'|e4|] s4] eqn:Ho;
        try discriminate.
      injection H as <- <-; destruct (consumer_observed _ _ _ _ _ Ho) as [Hr4 He4].
      apply conserved_emit with (s := s3) (out := p); auto.
    + injection H as <- <-; exact K3.
  - destruct (output_consumer p stream_name s2) as [[u'|e3|] s3] eqn:Ho;
      try discriminate.
    injection H as <- <-; destruct (consumer_observed _ _ _ _ _ Ho) as [Hr3 He3].
    apply conserved_emit with (s := s2) (out := p); auto.
    rewrite app_nil_r; exact K2.
Qed.

Lemma scan_loop_conserves (fuel : nat) (stream_name : string)
  (pending : bytes) (s0 s s' : St) (status : scan_status) :
  loop fuel stream_name pending s = (status, s') ->
  kept s0 s pending ->
  match status with
  | Running pending' => kept s0 s' pending'
  | Stopped (Ret v) => v = NORMAL_PROMPT /\ kept s0 s' NORMAL_PROMPT
  | Stopped _ => True
  end.
Proof.
  revert pending s; induction fuel as [|fuel IH]; intros pending s H K.
  - injection H as <- <-; exact K.
  - rewrite scan_loop_step in H.
    destruct (iteration stream_name pending s) as [[[p'|v]|e1|] s1] eqn:Hi.
    + apply (IH p' s1 H).
      exact (scan_iteration_conserves _ _ _ _ _ _ Hi K).
    + injection H as <- <-.
      exact (scan_iteration_conserves _ _ _ _ _ _ Hi K).
    + injection H as <- <-; exact I.
    + injection H as <- <-; exact I.
Qed.

Lemma conserved_start (s : St) : kept s s [].
Proof. exists [], []; rewrite !app_nil_r; auto. Qed.

(** C9.  After any number of iterations of a scan started in [s], while the
    loop is running, the chunks emitted since [s] followed by the pending
    buffer are the bytes read since [s], in their order; and when the scan
    returns, it returns the prompt marker, and the chunks emitted followed by
    that marker are the bytes read: the marker is all that was withheld. *)
Theorem scan_conserves_bytes (fuel : nat) (stream_name : string)
  (s s' : St) (status : scan_status) :
  loop fuel stream_name [] s = (status, s') ->
  match status with
  | Running pending =>
      exists E R,
        emitted s' = emitted s ++ E /\ received s' = received s ++ R /\
        E ++ pending = R
  | Stopped (Ret v) =>
      v = NORMAL_PROMPT /\
      exists E R,
        emitted s' = emitted s ++ E /\ received s' = received s ++ R /\
        E ++ NORMAL_PROMPT = R
  | Stopped _ => True
  end.
Proof.
  intros H.
  pose proof (scan_loop_conserves _ _ _ _ _ _ _ H (conserved_start s)) as K.
  destruct status as [pending|[v|e|]]; exact K.
Qed.

End Observed.

(** C2, as the code has it.  While the side-command check returns and the
    read comes back empty, the scan does not terminate: after any number of
    iterations it is still running with the pending buffer it had, and
    nothing was done to the state but those checks and reads, so nothing was
    emitted and no failure surfaced; and a scan that does fail passes on an
    exception raised by the check, by a read of the connection or by the
    output consumer. *)
Theorem empty_reads_retry_forever (silent : St -> Prop) :
  (forall s, silent s ->
     exists s1 s2,
       _check_for_side_commands s = (Ret tt, s1) /\
       soft_read_until CLOSERS s1 = (Ret [], s2) /\ silent s2) ->
  (forall fuel stream_name pending s,
     silent s ->
     exists s',
       loop fuel stream_name pending s = (Running pending, s') /\ silent s' /\
       s' = Nat.iter fuel
              (fun x => snd (soft_read_until CLOSERS
                               (snd (_check_for_side_commands x)))) s) /\
  (forall fuel stream_name pending s s' e,
     loop fuel stream_name pending s = (Stopped (Raise e), s') ->
     exists s0,
       fst (_check_for_side_commands s0) = Raise e \/
       fst (soft_read_until CLOSERS s0) = Raise e \/
       fst (soft_read 1 s0) = Raise e \/
       exists data, fst (output_consumer data stream_name s0) = Raise e).
Proof.
  intros Hsilent; split.
  - intros fuel stream_name pending s Hs.
    exact (scan_loop_silent silent Hsilent fuel stream_name pending s Hs).
  - intros fuel stream_name pending s s' e H.
    eapply scan_loop_raise; exact H.
Qed.

End ScannerFacts.

(** ** The connection *)

Lemma await_eq (pat buf : bytes) (arrs : list bytes) :
  Conn.await pat buf arrs =
  match split_at_first pat buf with
  | Some (r, rest) => Some (r, rest, arrs)
  | None =>
      match arrs with
      | [] => None
      | a :: arrs' => Conn.await pat (buf ++ a) arrs'
      end
  end.
Proof. destruct arrs; reflexivity. Qed.

(** Waiting for a marker finds its leftmost occurrence in everything that is
    still to come, however the bytes are cut into batches. *)
Lemma await_stream (pat : bytes) (arrs : list bytes) (buf : bytes) :
  match split_at_first pat (buf ++ concat arrs) with
  | Some (r, rest) =>
      exists buf' arrs',
        Conn.await pat buf arrs = Some (r, buf', arrs') /\
        buf' ++ concat arrs' = rest
  | None => Conn.await pat buf arrs = None
  end.
Proof.
  revert buf; induction arrs as [|a arrs IH]; intros buf; rewrite await_eq.
  - cbn [concat]; rewrite app_nil_r.
    destruct (split_at_first pat buf) as [[r rest]|]; [|reflexivity].
    exists rest, []; rewrite app_nil_r; auto.
  - destruct (split_at_first pat buf) as [[r rest]|] eqn:Hb.
    + rewrite (split_at_first_app _ _ _ _ _ Hb); eauto.
    + specialize (IH (buf ++ a)).
      cbn [concat]; rewrite app_assoc; exact IH.
Qed.

Lemma read_until_found (pat : bytes) (c : Conn.t) (r rest : bytes) :
  split_at_first pat (Conn.stream c) = Some (r, rest) ->
  fst (Conn.read_until pat c) = Ret r /\
  Conn.stream (snd (Conn.read_until pat c)) = rest /\
  Conn.written (snd (Conn.read_until pat c)) = Conn.written c /\
  Conn.delivered (snd (Conn.read_until pat c)) = Conn.delivered c ++ [r].
Proof.
  intros H; unfold Conn.read_until.
  pose proof (await_stream pat (Conn.arrivals c) (Conn.read_buffer c)) as A.
  unfold Conn.stream in H; rewrite H in A.
  destruct A as (buf' & arrs' & -> & E).
  unfold Conn.deliver, Conn.stream; cbn; auto.
Qed.

Lemma read_until_missing (pat : bytes) (c : Conn.t) :
  split_at_first pat (Conn.stream c) = None ->
  fst (Conn.read_until pat c) = Raise ProtocolViolation /\
  Conn.written (snd (Conn.read_until pat c)) = Conn.written c /\
  Conn.delivered (snd (Conn.read_until pat c)) = Conn.delivered c.
Proof.
  intros H; unfold Conn.read_until.
  pose proof (await_stream pat (Conn.arrivals c) (Conn.read_buffer c)) as A.
  unfold Conn.stream in H; rewrite H in A; rewrite A; cbn; auto.
Qed.

Lemma write_stream (data : bytes) (c : Conn.t) :
  Conn.stream (snd (Conn.write data c)) = Conn.stream c.
Proof. reflexivity. Qed.

Lemma write_delivered (data : bytes) (c : Conn.t) :
  Conn.delivered (snd (Conn.write data c)) = Conn.delivered c.
Proof. reflexivity. Qed.

Lemma write_written (data : bytes) (c : Conn.t) :
  Conn.written (snd (Conn.write data c)) = Conn.written c ++ [data].
Proof. reflexivity. Qed.

(** Every read returns something and records it, and nothing else. *)
Lemma soft_read_until_delivers (closers : list bytes) (c : Conn.t) :
  exists data,
    fst (Conn.soft_read_until closers c) = Ret data /\
    Conn.delivered (snd (Conn.soft_read_until closers c)) =
      Conn.delivered c ++ [data] /\
    Conn.written (snd (Conn.soft_read_until closers c)) = Conn.written c /\
    Conn.read_buffer c ++ concat (Conn.arrivals c) =
      data ++ Conn.stream (snd (Conn.soft_read_until closers c)).
Proof.
  unfold Conn.soft_read_until, Conn.absorb, Conn.stream.
  assert (S : forall s r rest, split_at_first_of closers s = Some (r, rest) ->
                               s = r ++ rest).
  { induction s as [|x s IH]; intros r rest; cbn [split_at_first_of].
    - destruct (find (startswith []) closers) as [p|] eqn:F; [|discriminate].
      intros H; injection H as <- <-.
      apply find_some in F as [_ F]; apply startswith_spec in F as [v F].
      destruct p; [reflexivity | discriminate].
    - destruct (find (startswith (x :: s)) closers) as [p|] eqn:F.
      + intros H; injection H as <- <-.
        apply find_some in F as [_ F]; apply startswith_spec in F as [v F].
        rewrite F, skipn_length_app; reflexivity.
      + destruct (split_at_first_of closers s) as [[r' rest']|] eqn:R;
          [|discriminate].
        intros H; injection H as <- <-.
        rewrite (IH _ _ eq_refl); reflexivity. }
  destruct (split_at_first_of closers (Conn.read_buffer c)) as [[r rest]|] eqn:E.
  - exists r; cbn; rewrite (S _ _ _ E), <- app_assoc; auto.
  - destruct (Conn.arrivals c) as [|a arrs].
    + rewrite E; exists (Conn.read_buffer c); cbn; auto.
    + destruct (split_at_first_of closers (Conn.read_buffer c ++ a))
        as [[r rest]|] eqn:E'.
      * exists r; cbn; rewrite app_assoc, (S _ _ _ E'), <- !app_assoc; auto.
      * exists (Conn.read_buffer c ++ a); cbn; rewrite app_assoc; auto.
Qed.

Lemma soft_read_delivers (n : nat) (c : Conn.t) :
  exists data,
    fst (Conn.soft_read n c) = Ret data /\
    Conn.delivered (snd (Conn.soft_read n c)) = Conn.delivered c ++ [data] /\
    Conn.written (snd (Conn.soft_read n c)) = Conn.written c /\
    length data <= n.
Proof.
  unfold Conn.soft_read, Conn.absorb.
  destruct (n <=? length (Conn.read_buffer c)).
  - eexists; cbn; repeat split; apply firstn_le_length.
  - destruct (Conn.arrivals c); eexists; cbn; repeat split;
      apply firstn_le_length.
Qed.

(** ** The session *)

Lemma bind_on_connection {A B : Type} (m : M Conn.t A) (k : A -> M Backend B)
  (self : Backend) :
  bind (on_connection m) k self =
  match fst (m (_connection self)) with
  | Ret a => k a (set_connection (snd (m (_connection self))) self)
  | Raise e => (Raise e, set_connection (snd (m (_connection self))) self)
  | OutOfFuel => (OutOfFuel, set_connection (snd (m (_connection self))) self)
  end.
Proof.
  unfold bind, on_connection.
  destruct (m (_connection self)) as [[a|e|] c]; reflexivity.
Qed.

(** The sentinel has no proper border: an occurrence of it in a script
    followed by the sentinel lies inside the script or is the appended one. *)
Lemma sentinel_only_at_end (script : bytes) :
  ~ occurs sentinel script -> only_at_end sentinel (script ++ sentinel).
Proof.
  intros Hno; split; [exists script; reflexivity|].
  intros u v E.
  apply (f_equal (@rev byte)) in E.
  rewrite !rev_app_distr in E.
  destruct (rev v) as [|x1 [|x2 [|x3 [|x4 w]]]] eqn:Hv.
  - apply (f_equal (@rev byte)) in Hv; rewrite rev_involutive in Hv; exact Hv.
  - cbn in E; discriminate.
  - cbn in E; discriminate.
  - cbn in E; discriminate.
  - exfalso; apply Hno; exists u, (rev w).
    change (rev sentinel) with [x75; x75; x75; x23] in E.
    cbn in E; injection E as _ _ _ _ E.
    apply (f_equal (@rev byte)) in E.
    rewrite rev_involutive, !rev_app_distr, rev_involutive in E.
    cbn in E; exact E.
Qed.

Lemma bind_write {B : Type} (data : bytes) (k : unit -> M Backend B)
  (self : Backend) :
  bind (on_connection (Conn.write data)) k self =
  k tt (set_connection (snd (Conn.write data (_connection self))) self).
Proof. reflexivity. Qed.

Lemma bind_read_found {B : Type} (pat : bytes) (k : bytes -> M Backend B)
  (self : Backend) (r rest : bytes) :
  split_at_first pat (Conn.stream (_connection self)) = Some (r, rest) ->
  bind (on_connection (Conn.read_until pat)) k self =
  k r (set_connection (snd (Conn.read_until pat (_connection self))) self).
Proof.
  intros H; rewrite bind_on_connection.
  destruct (read_until_found pat _ r rest H) as (-> & _); reflexivity.
Qed.

Lemma bind_read_missing {B : Type} (pat : bytes) (k : bytes -> M Backend B)
  (self : Backend) :
  split_at_first pat (Conn.stream (_connection self)) = None ->
  bind (on_connection (Conn.read_until pat)) k self =
  (Raise ProtocolViolation,
   set_connection (snd (Conn.read_until pat (_connection self))) self).
Proof.
  intros H; rewrite bind_on_connection.
  destruct (read_until_missing pat _ H) as (-> & _); reflexivity.
Qed.

Section SessionFacts.

Variables LF NORMAL_PROMPT EOT : bytes.
Variable ends_overlap : bytes -> bytes -> bool.
Variable decode : bytes -> option text.
Variable SubprocessConnection : string -> list string -> exn + Conn.t.
Variable _check_for_side_commands : M Backend unit.
Variable _report_time : string -> M Backend unit.
Variable _prepare_helpers : M Backend unit.

Local Abbreviation execute := (_execute_with_consumer NORMAL_PROMPT EOT).

(** When the four markers are found, the consumer is called on what the
    last read returned, less the length of the prompt. *)
Lemma execute_found (script : bytes)
  (output_consumer : bytes -> string -> M Backend unit) (self : Backend)
  (r1 r2 r3 r4 rest : bytes) :
  four_reads NORMAL_PROMPT (Conn.stream (_connection self)) r1 r2 r3 r4 rest ->
  exists c,
    execute script output_consumer self =
      output_consumer (slice_to_neg r4 (length NORMAL_PROMPT)) "stdout"
                      (set_connection c self) /\
    Conn.delivered c = Conn.delivered (_connection self) ++ [r1; r2; r3; r4] /\
    Conn.written c =
      Conn.written (_connection self) ++
      [PASTE_MODE_CMD; script ++ sentinel; EOT] /\
    Conn.stream c = rest.
Proof.
  intros (rest1 & rest2 & rest3 & H1 & H2 & H3 & H4).
  unfold _execute_with_consumer.
  set (c0 := _connection self) in *.
  set (c1 := snd (Conn.write PASTE_MODE_CMD c0)).
  set (c2 := snd (Conn.read_until PASTE_MODE_LINE_PREFIX c1)).
  set (c3 := snd (Conn.write (script ++ sentinel) c2)).
  set (c4 := snd (Conn.read_until sentinel c3)).
  set (c5 := snd (Conn.write EOT c4)).
  set (c6 := snd (Conn.read_until newline c5)).
  set (c7 := snd (Conn.read_until NORMAL_PROMPT c6)).
  destruct (read_until_found PASTE_MODE_LINE_PREFIX c1 r1 rest1 H1)
    as (_ & S2 & W2 & D2).
  fold c2 in S2, W2, D2.
  assert (H2' : split_at_first sentinel (Conn.stream c3) = Some (r2, rest2))
    by (unfold c3; rewrite write_stream, S2; exact H2).
  destruct (read_until_found sentinel c3 r2 rest2 H2') as (_ & S4 & W4 & D4).
  fold c4 in S4, W4, D4.
  assert (H3' : split_at_first newline (Conn.stream c5) = Some (r3, rest3))
    by (unfold c5; rewrite write_stream, S4; exact H3).
  destruct (read_until_found newline c5 r3 rest3 H3') as (_ & S6 & W6 & D6).
  fold c6 in S6, W6, D6.
  assert (H4' : split_at_first NORMAL_PROMPT (Conn.stream c6) = Some (r4, rest))
    by (rewrite S6; exact H4).
  destruct (read_until_found NORMAL_PROMPT c6 r4 rest H4')
    as (_ & S7 & W7 & D7).
  fold c7 in S7, W7, D7.
  exists c7; split; [|split; [|split]].
  - rewrite bind_write.
    rewrite (bind_read_found PASTE_MODE_LINE_PREFIX _ _ r1 rest1) by exact H1.
    rewrite bind_write.
    rewrite (bind_read_found sentinel _ _ r2 rest2) by exact H2'.
    rewrite bind_write.
    rewrite (bind_read_found newline _ _ r3 rest3) by exact H3'.
    rewrite (bind_read_found NORMAL_PROMPT _ _ r4 rest) by exact H4'.
    reflexivity.
  - rewrite D7, D6; unfold c5; rewrite write_delivered, D4.
    unfold c3; rewrite write_delivered, D2.
    unfold c1; rewrite write_delivered, <- !app_assoc; reflexivity.
  - rewrite W7, W6; unfold c5; rewrite write_written, W4.
    unfold c3; rewrite write_written, W2.
    unfold c1; rewrite write_written, <- !app_assoc; reflexivity.
  - exact S7.
Qed.

(** Otherwise a read gives up, and the consumer is never called. *)
Lemma execute_cases (script : bytes)
  (output_consumer : bytes -> string -> M Backend unit) (self : Backend) :
  (exists r1 r2 r3 r4 rest,
     four_reads NORMAL_PROMPT (Conn.stream (_connection self)) r1 r2 r3 r4 rest) \/
  (exists c,
     execute script output_consumer self =
     (Raise ProtocolViolation, set_connection c self)).
Proof.
  unfold _execute_with_consumer, four_reads.
  set (c0 := _connection self) in *.
  set (c1 := snd (Conn.write PASTE_MODE_CMD c0)).
  set (c2 := snd (Conn.read_until PASTE_MODE_LINE_PREFIX c1)).
  set (c3 := snd (Conn.write (script ++ sentinel) c2)).
  set (c4 := snd (Conn.read_until sentinel c3)).
  set (c5 := snd (Conn.write EOT c4)).
  set (c6 := snd (Conn.read_until newline c5)).
  rewrite bind_write.
  destruct (split_at_first PASTE_MODE_LINE_PREFIX (Conn.stream c0))
    as [[r1 rest1]|] eqn:H1;
    [|right; eexists; rewrite bind_read_missing by exact H1; reflexivity].
  rewrite (bind_read_found PASTE_MODE_LINE_PREFIX _ _ r1 rest1) by exact H1.
  destruct (read_until_found PASTE_MODE_LINE_PREFIX c1 r1 rest1 H1)
    as (_ & S2 & _).
  fold c2 in S2.
  rewrite bind_write.
  destruct (split_at_first sentinel rest1) as [[r2 rest2]|] eqn:H2.
  2:{ right; eexists; rewrite bind_read_missing; [reflexivity|].
      cbn [_connection set_connection]; fold c0 c1 c2.
      rewrite write_stream, S2; exact H2. }
  assert (H2' : split_at_first sentinel (Conn.stream c3) = Some (r2, rest2))
    by (unfold c3; rewrite write_stream, S2; exact H2).
  rewrite (bind_read_found sentinel _ _ r2 rest2) by exact H2'.
  destruct (read_until_found sentinel c3 r2 rest2 H2') as (_ & S4 & _).
  fold c4 in S4.
  rewrite bind_write.
  destruct (split_at_first newline rest2) as [[r3 rest3]|] eqn:H3.
  2:{ right; eexists; rewrite bind_read_missing; [reflexivity|].
      cbn [_connection set_connection]; fold c0 c1 c2 c3 c4.
      rewrite write_stream, S4; exact H3. }
  assert (H3' : split_at_first newline (Conn.stream c5) = Some (r3, rest3))
    by (unfold c5; rewrite write_stream, S4; exact H3).
  rewrite (bind_read_found newline _ _ r3 rest3) by exact H3'.
  destruct (read_until_found newline c5 r3 rest3 H3') as (_ & S6 & _).
  fold c6 in S6.
  destruct (split_at_first NORMAL_PROMPT rest3) as [[r4 rest4]|] eqn:H4.
  2:{ right; eexists; rewrite bind_read_missing; [reflexivity|].
      cbn [_connection set_connection]; fold c0 c1 c2 c3 c4 c5 c6.
      rewrite S6; exact H4. }
  left; exists r1, r2, r3, r4, rest4, rest1, rest2, rest3; auto.
Qed.

Lemma four_reads_decompose (stream r1 r2 r3 r4 rest : bytes) :
  four_reads NORMAL_PROMPT stream r1 r2 r3 r4 rest ->
  stream = r1 ++ r2 ++ r3 ++ r4 ++ rest /\
  only_at_end PASTE_MODE_LINE_PREFIX r1 /\
  only_at_end sentinel r2 /\
  only_at_end newline r3 /\
  only_at_end NORMAL_PROMPT r4.
Proof.
  intros (rest1 & rest2 & rest3 & H1 & H2 & H3 & H4).
  apply split_at_first_sound in H1 as [-> E1].
  apply split_at_first_sound in H2 as [-> E2].
  apply split_at_first_sound in H3 as [-> E3].
  apply split_at_first_sound in H4 as [-> E4].
  auto.
Qed.

Lemma four_reads_same (stream r1 r2 r3 r4 rest r1' r2' r3' r4' rest' : bytes) :
  four_reads NORMAL_PROMPT stream r1 r2 r3 r4 rest ->
  four_reads NORMAL_PROMPT stream r1' r2' r3' r4' rest' ->
  r1 = r1' /\ r2 = r2' /\ r3 = r3' /\ r4 = r4' /\ rest = rest'.
Proof.
  intros (a1 & a2 & a3 & H1 & H2 & H3 & H4) (b1 & b2 & b3 & G1 & G2 & G3 & G4).
  rewrite H1 in G1; injection G1 as <- <-.
  rewrite H2 in G2; injection G2 as <- <-.
  rewrite H3 in G3; injection G3 as <- <-.
  rewrite H4 in G4; injection G4 as <- <-.
  auto.
Qed.

(** In a well-framed exchange around a script that does not hold the
    sentinel, each read stops where the interpreter meant it to. *)
Lemma four_reads_exchange (pre script ack output rest : bytes) :
  well_framed NORMAL_PROMPT pre ack output ->
  ~ occurs sentinel script ->
  four_reads NORMAL_PROMPT
    (paste_exchange NORMAL_PROMPT pre script ack output rest)
    (pre ++ PASTE_MODE_LINE_PREFIX) (script ++ sentinel)
    (ack ++ newline) (output ++ NORMAL_PROMPT) rest.
Proof.
  intros (W1 & W3 & W4) Hs; unfold paste_exchange.
  exists ((script ++ sentinel) ++ ack ++ newline ++ output ++
          NORMAL_PROMPT ++ rest),
         (ack ++ newline ++ output ++ NORMAL_PROMPT ++ rest),
         (output ++ NORMAL_PROMPT ++ rest).
  split; [apply split_at_first_complete; exact W1|].
  split; [rewrite <- app_assoc; apply split_at_first_complete;
          apply sentinel_only_at_end; exact Hs|].
  split; apply split_at_first_complete; assumption.
Qed.

(** C3, as the code has it.  For every script, when all six steps of the
    submission complete, the consumer is handed, once, the bytes that came
    after the first line feed following the first sentinel following the
    first paste-mode line prefix, up to the next normal prompt, the prompt
    left out; the prompt does not occur in them.  When the script does not
    hold the sentinel and the interpreter's exchange is well framed, these
    bytes are the program's output: nothing of the echo, of the sentinel or
    of the prompt is among them. *)
Theorem execute_output_between_markers (script : bytes)
  (output_consumer : bytes -> string -> M Backend unit)
  (self self' : Backend) :
  NORMAL_PROMPT <> [] ->
  execute script output_consumer self = (Ret tt, self') ->
  exists out c,
    output_consumer out "stdout" (set_connection c self) = (Ret tt, self') /\
    (exists r1 r2 r3 rest,
       Conn.stream (_connection self) =
         r1 ++ r2 ++ r3 ++ (out ++ NORMAL_PROMPT) ++ rest /\
       only_at_end PASTE_MODE_LINE_PREFIX r1 /\
       only_at_end sentinel r2 /\
       only_at_end newline r3 /\
       only_at_end NORMAL_PROMPT (out ++ NORMAL_PROMPT) /\
       Conn.delivered c =
         Conn.delivered (_connection self) ++
         [r1; r2; r3; out ++ NORMAL_PROMPT] /\
       Conn.stream c = rest) /\
    ~ occurs NORMAL_PROMPT out /\
    (forall pre ack output rest,
       Conn.stream (_connection self) =
         paste_exchange NORMAL_PROMPT pre script ack output rest ->
       well_framed NORMAL_PROMPT pre ack output ->
       ~ occurs sentinel script ->
       out = output).
Proof.
  intros Hne Hrun.
  destruct (execute_cases script output_consumer self)
    as [(r1 & r2 & r3 & r4 & rest & Hreads)|[c Hfail]];
    [|rewrite Hfail in Hrun; discriminate].
  destruct (execute_found script output_consumer self _ _ _ _ _ Hreads)
    as (c & Hexec & Hdel & _ & Hstream).
  destruct (four_reads_decompose _ _ _ _ _ _ Hreads)
    as (Hsplit & E1 & E2 & E3 & E4).
  destruct E4 as [[out Hout] E4]; subst r4.
  rewrite slice_to_neg_app in Hexec by exact Hne.
  assert (E4' : only_at_end NORMAL_PROMPT (out ++ NORMAL_PROMPT))
    by (split; [exists out; reflexivity | exact E4]).
  exists out, c; split; [rewrite <- Hexec; exact Hrun|].
  split.
  { exists r1, r2, r3, rest.
    split; [exact Hsplit|]. split; [exact E1|]. split; [exact E2|].
    split; [exact E3|]. split; [exact E4'|]. split; [exact Hdel|].
    exact Hstream. }
  split.
  - apply only_at_end_not_inside; assumption.
  - intros pre ack output rest' Hshape Hframed Hscript.
    pose proof (four_reads_exchange pre script ack output rest'
                  Hframed Hscript) as Hideal.
    rewrite <- Hshape in Hideal.
    destruct (four_reads_same _ _ _ _ _ _ _ _ _ _ _ Hreads Hideal)
      as (_ & _ & _ & E & _).
    apply app_inv_tail in E; exact E.
Qed.

(** C6, as the code has it.  For every script that does not hold the
    sentinel, the empty script among them, the transmission boundary is
    unambiguous: the read that waits for the sentinel returns the echo of the
    script up to the sentinel appended to it, and the submission hands the
    program's output to the consumer; an empty script with no output
    completes and yields the empty output. *)
Theorem sentinel_marks_boundary :
  (forall script,
     ~ occurs sentinel script ->
     boundary_unambiguous NORMAL_PROMPT EOT script) /\
  boundary_unambiguous NORMAL_PROMPT EOT [] /\
  (forall (pre ack rest : bytes) (self : Backend)
          (output_consumer : bytes -> string -> M Backend unit),
     Conn.stream (_connection self) =
       paste_exchange NORMAL_PROMPT pre [] ack [] rest ->
     well_framed NORMAL_PROMPT pre ack [] ->
     exists c,
       execute [] output_consumer self =
       output_consumer [] "stdout" (set_connection c self)).
Proof.
  assert (G : forall script, ~ occurs sentinel script ->
                             boundary_unambiguous NORMAL_PROMPT EOT script).
  { intros script Hs pre ack output rest self output_consumer Hshape Hframed.
    pose proof (four_reads_exchange pre script ack output rest Hframed Hs)
      as Hreads.
    rewrite <- Hshape in Hreads.
    destruct (execute_found script output_consumer self _ _ _ _ _ Hreads)
      as (c & Hexec & Hdel & Hwr & Hstream).
    exists c; repeat split; try assumption.
    rewrite Hexec; f_equal.
    destruct NORMAL_PROMPT as [|p ps] eqn:Hp.
    - destruct Hframed as (_ & _ & [_ Hend]).
      specialize (Hend [] output); rewrite app_nil_r in Hend.
      rewrite (Hend eq_refl); reflexivity.
    - apply slice_to_neg_app; discriminate. }
  assert (E : ~ occurs sentinel []).
  { intros (u & v & H); destruct u; discriminate. }
  split; [exact G|split; [exact (G [] E)|]].
  intros pre ack rest self output_consumer Hshape Hframed.
  destruct (G [] E pre ack [] rest self output_consumer Hshape Hframed)
    as (c & Hexec & _).
  exists c; exact Hexec.
Qed.

(** C10.  Between commands, with a non-empty prompt marker, everything that
    is available is read; when it ends with the marker, it is forwarded with
    that marker stripped from its end; when it is not empty and does not end
    with the marker, it is forwarded as it is; and when nothing is available,
    no output event is sent. *)
Theorem forward_unexpected_output_cases (stream_name : string)
  (self : Backend) :
  NORMAL_PROMPT <> [] ->
  exists data self1,
    on_connection Conn.read_all self = (Ret data, self1) /\
    data = fst (Conn.absorb (_connection self)) /\
    outbox self1 = outbox self /\
    (forall body,
       data = body ++ NORMAL_PROMPT ->
       _forward_unexpected_output NORMAL_PROMPT stream_name self =
         _send_output body "stdout" self1 /\
       outbox (snd (_forward_unexpected_output NORMAL_PROMPT stream_name self))
         = outbox self ++ [ProgramOutput "stdout" body]) /\
    (data <> [] -> endswith data NORMAL_PROMPT = false ->
       _forward_unexpected_output NORMAL_PROMPT stream_name self =
         _send_output data "stdout" self1 /\
       outbox (snd (_forward_unexpected_output NORMAL_PROMPT stream_name self))
         = outbox self ++ [ProgramOutput "stdout" data]) /\
    (data = [] ->
       _forward_unexpected_output NORMAL_PROMPT stream_name self =
         (Ret tt, self1)).
Proof.
  intros Hne.
  destruct (on_connection Conn.read_all self) as [o self1] eqn:Hread.
  assert (Ho : o = Ret (fst (Conn.absorb (_connection self))) /\
               outbox self1 = outbox self).
  { unfold on_connection, Conn.read_all in Hread.
    destruct (Conn.absorb (_connection self)) as [buf arrs].
    cbn in Hread; injection Hread as <- <-; auto. }
  destruct Ho as [-> Hbox].
  set (data := fst (Conn.absorb (_connection self))) in *.
  assert (En : endswith [] NORMAL_PROMPT = false)
    by (destruct NORMAL_PROMPT; [congruence | reflexivity]).
  exists data, self1.
  split; [reflexivity|]. split; [reflexivity|]. split; [exact Hbox|].
  unfold _forward_unexpected_output, bind; rewrite Hread.
  split; [|split].
  - intros body ->.
    rewrite endswith_app, slice_to_neg_app by exact Hne.
    split; [reflexivity | cbn; rewrite Hbox; reflexivity].
  - intros Hd He; rewrite He.
    destruct data; [congruence|].
    split; [reflexivity | cbn; rewrite Hbox; reflexivity].
  - intros ->; rewrite En; reflexivity.
Qed.

(** ** The welcome text *)

Lemma preserves_on_connection {A : Type} (m : M Conn.t A) :
  preserves welcome_texts (on_connection m).
Proof.
  intros self; unfold on_connection.
  destruct (m (_connection self)); reflexivity.
Qed.

Lemma preserves_send_message (msg : BackendEvent) :
  preserves welcome_texts (send_message msg).
Proof. intros self; reflexivity. Qed.

Lemma preserves_on_self {L A : Type} (m : M Backend A) :
  preserves welcome_texts m ->
  preserves (fun st : Backend * L => welcome_texts (fst st)) (on_self m).
Proof.
  intros H [self l]; unfold on_self; cbn [fst snd].
  specialize (H self); destruct (m self); exact H.
Qed.

Local Abbreviation forward := (forward_output LF NORMAL_PROMPT ends_overlap
                                 _check_for_side_commands).

(** A scan leaves the welcome text alone when its consumer and the
    side-command check do. *)
Lemma forward_output_preserves {L : Type}
  (output_consumer : bytes -> string -> M (Backend * L) unit)
  (fuel : nat) (stream_name : string) :
  preserves welcome_texts _check_for_side_commands ->
  (forall data name,
     preserves (fun st : Backend * L => welcome_texts (fst st))
               (output_consumer data name)) ->
  preserves (fun st : Backend * L => welcome_texts (fst st))
            (forward output_consumer fuel stream_name).
Proof.
  intros Hc Ho st.
  unfold forward_output, _forward_output_until_active_prompt.
  pose proof (scan_loop_preserves LF NORMAL_PROMPT ends_overlap
                (on_self _check_for_side_commands)
                (fun closers =>
                   on_self (on_connection (Conn.soft_read_until closers)))
                (fun n => on_self (on_connection (Conn.soft_read n)))
                output_consumer
                (fun st : Backend * L => welcome_texts (fst st))
                (preserves_on_self _ Hc)
                (fun closers =>
                   preserves_on_self _ (preserves_on_connection _))
                (fun n => preserves_on_self _ (preserves_on_connection _))
                Ho fuel stream_name [] st) as P.
  destruct (scan_loop _ _ _ _ _ _ _ fuel stream_name [] st) as [[p|o] st'];
    exact P.
Qed.

Lemma cmd_Run_preserves (fuel : nat) (cmd : Command) :
  preserves welcome_texts _check_for_side_commands ->
  (forall label, preserves welcome_texts (_report_time label)) ->
  preserves welcome_texts _prepare_helpers ->
  preserves welcome_texts
    (_cmd_Run LF NORMAL_PROMPT ends_overlap SubprocessConnection
       _check_for_side_commands _report_time _prepare_helpers fuel cmd).
Proof.
  intros Hc Ht Hh; unfold _cmd_Run.
  apply preserves_bind; [apply preserves_on_connection | intros _].
  apply preserves_bind; [apply Ht | intros _].
  apply preserves_bind; [|intros _].
  { intros self; unfold reconnect.
    destruct (SubprocessConnection _ _); reflexivity. }
  apply preserves_bind; [apply Ht | intros _].
  apply preserves_bind; [|intros _].
  { intros self.
    pose proof (forward_output_preserves
                  (fun data name => on_self (_send_output data name))
                  fuel "stdout" Hc
                  (fun data name =>
                     preserves_on_self _ (preserves_send_message _))
                  (self, tt)) as P.
    destruct (forward _ fuel "stdout" (self, tt)) as [o st]; exact P. }
  apply preserves_bind; [apply Ht | intros _].
  apply preserves_bind; [|intros welcome].
  { intros self; unfold get_original_welcome_text.
    destruct (_original_welcome_text self); reflexivity. }
  apply preserves_bind; [apply preserves_send_message | intros _].
  apply preserves_bind; [apply Ht | intros _].
  apply preserves_bind; [exact Hh | intros _; apply Ht].
Qed.

Lemma execute_preserves (script : bytes)
  (output_consumer : bytes -> string -> M Backend unit) :
  (forall data name, preserves welcome_texts (output_consumer data name)) ->
  preserves welcome_texts (execute script output_consumer).
Proof.
  intros Ho; unfold _execute_with_consumer.
  repeat (apply preserves_bind; [apply preserves_on_connection | intros ?]).
  apply Ho.
Qed.

Lemma forward_unexpected_output_preserves (stream_name : string) :
  preserves welcome_texts (_forward_unexpected_output NORMAL_PROMPT stream_name).
Proof.
  unfold _forward_unexpected_output.
  apply preserves_bind; [apply preserves_on_connection | intros data].
  destruct (endswith data NORMAL_PROMPT); [apply preserves_send_message|].
  destruct (negb (is_empty data));
    [apply preserves_send_message | apply preserves_ret].
Qed.

(** What [_process_until_initial_prompt] stores when it completes. *)
Lemma process_until_initial_prompt_captures (fuel : nat) (clean : option bool)
  (self self' : Backend) :
  _process_until_initial_prompt LF NORMAL_PROMPT ends_overlap decode
    _check_for_side_commands fuel clean self = (Ret tt, self') ->
  exists v self1 output decoded,
    forward collect_output fuel "stdout" (self, []) =
      (Ret v, (self1, output)) /\
    decode (join output) = Some decoded /\
    _original_welcome_text self' = Some (replace decoded CRLF [10%N]) /\
    _welcome_text self' =
      Some (replace (replace decoded CRLF [10%N]) boilerplate_line []).
Proof.
  unfold _process_until_initial_prompt.
  destruct (forward collect_output fuel "stdout" (self, []))
    as [[v|e|] [self1 output]]; try discriminate.
  destruct (decode (join output)) as [decoded|] eqn:Hd; [|discriminate].
  intros H; injection H as <-.
  exists v, self1, output, decoded; auto.
Qed.

(** C8, as the code has it.  The two variants of the welcome text are stored
    when [_process_until_initial_prompt] completes: the raw variant is the
    decoded output of the scan with CR LF turned into LF, the cleaned variant
    is the raw variant with the boilerplate line removed.  A run command,
    which recreates the connection, does not replace them: it leaves both as
    they were, however it ends; so do a script submission whose consumer
    leaves them alone, the forwarding of unexpected output and a write. *)
Theorem welcome_text_capture_and_frame :
  preserves welcome_texts _check_for_side_commands ->
  (forall label, preserves welcome_texts (_report_time label)) ->
  preserves welcome_texts _prepare_helpers ->
  (forall fuel clean self self',
     _process_until_initial_prompt LF NORMAL_PROMPT ends_overlap decode
       _check_for_side_commands fuel clean self = (Ret tt, self') ->
     exists v self1 output decoded,
       forward collect_output fuel "stdout" (self, []) =
         (Ret v, (self1, output)) /\
       decode (join output) = Some decoded /\
       _original_welcome_text self' = Some (replace decoded CRLF [10%N]) /\
       _welcome_text self' =
         Some (replace (replace decoded CRLF [10%N]) boilerplate_line [])) /\
  (forall fuel cmd self,
     welcome_texts
       (snd (_cmd_Run LF NORMAL_PROMPT ends_overlap SubprocessConnection
               _check_for_side_commands _report_time _prepare_helpers
               fuel cmd self)) = welcome_texts self) /\
  (forall script output_consumer self,
     (forall data name, preserves welcome_texts (output_consumer data name)) ->
     welcome_texts (snd (execute script output_consumer self)) =
     welcome_texts self) /\
  (forall stream_name self,
     welcome_texts
       (snd (_forward_unexpected_output NORMAL_PROMPT stream_name self)) =
     welcome_texts self) /\
  (forall data self,
     welcome_texts (snd (_write data self)) = welcome_texts self).
Proof.
  intros Hc Ht Hh.
  split; [intros fuel clean self self' H;
          exact (process_until_initial_prompt_captures fuel clean self self' H)|].
  split; [intros fuel cmd self; apply (cmd_Run_preserves fuel cmd Hc Ht Hh)|].
  split; [intros script output_consumer self Ho;
          apply (execute_preserves script output_consumer Ho)|].
  split; [intros stream_name self;
          apply (forward_unexpected_output_preserves stream_name)|].
  intros data self; apply (preserves_on_connection (Conn.write data)).
Qed.

End SessionFacts.

(** C7.  Each operation that this backend does not support raises
    [NotImplementedError], whatever its arguments, and leaves the session as
    it was; the signal is not the one of a transport failure. *)
Theorem unsupported_operations_raise :
  (forall (X : Type) (side_command : X) (self : Backend),
     _soft_reboot side_command self = (Raise NotImplementedError, self)) /\
  (forall cmd self,
     _cmd_get_fs_info cmd self = (Raise NotImplementedError, self)) /\
  (forall cmd self,
     _cmd_write_file cmd self = (Raise NotImplementedError, self)) /\
  (forall cmd self,
     _cmd_delete cmd self = (Raise NotImplementedError, self)) /\
  (forall cmd self,
     _cmd_read_file cmd self = (Raise NotImplementedError, self)) /\
  (forall cmd self,
     _cmd_mkdir cmd self = (Raise NotImplementedError, self)) /\
  (forall (X Y Z : Type) (source : X) (target : Y) (notifier : Z) self,
     _upload_file source target notifier self =
     (Raise NotImplementedError, self)) /\
  (forall (X Y Z : Type) (source : X) (target : Y) (notifier : Z) self,
     _download_file source target notifier self =
     (Raise NotImplementedError, self)) /\
  NotImplementedError <> TransportFailure /\
  NotImplementedError <> ProtocolViolation.
Proof.
  repeat split; try discriminate.
Qed.

(** ** Runs of a MicroPython REPL *)

Lemma concat_snoc (l : list bytes) (d : bytes) :
  concat (l ++ [d]) = concat l ++ d.
Proof. rewrite concat_app; cbn; rewrite app_nil_r; reflexivity. Qed.

Lemma repl_check_observed (s s' : Backend * list bytes) (u : unit) :
  Repl.check s = (Ret u, s') ->
  Repl.received s' = Repl.received s /\ Repl.emitted s' = Repl.emitted s.
Proof.
  destruct s as [self l]; intros H; injection H as _ <-; auto.
Qed.

Lemma repl_soft_read_until_observed (closers : list bytes)
  (s s' : Backend * list bytes) (data : bytes) :
  Repl.soft_read_until closers s = (Ret data, s') ->
  Repl.received s' = Repl.received s ++ data /\
  Repl.emitted s' = Repl.emitted s.
Proof.
  destruct s as [self l].
  unfold Repl.soft_read_until, on_self, on_connection; cbn [fst snd].
  destruct (soft_read_until_delivers closers (_connection self))
    as (d & Hd & Hdel & _).
  destruct (Conn.soft_read_until closers (_connection self)) as [o c].
  cbn [fst snd] in *; subst o.
  intros H; injection H as <- <-.
  unfold Repl.received, Repl.emitted; cbn.
  rewrite Hdel, concat_snoc; auto.
Qed.

Lemma repl_soft_read_observed (n : nat) (s s' : Backend * list bytes)
  (data : bytes) :
  Repl.soft_read n s = (Ret data, s') ->
  Repl.received s' = Repl.received s ++ data /\
  Repl.emitted s' = Repl.emitted s.
Proof.
  destruct s as [self l].
  unfold Repl.soft_read, on_self, on_connection; cbn [fst snd].
  destruct (soft_read_delivers n (_connection self)) as (d & Hd & Hdel & _).
  destruct (Conn.soft_read n (_connection self)) as [o c].
  cbn [fst snd] in *; subst o.
  intros H; injection H as <- <-.
  unfold Repl.received, Repl.emitted; cbn.
  rewrite Hdel, concat_snoc; auto.
Qed.

Lemma repl_consumer_observed (data : bytes) (name : string)
  (s s' : Backend * list bytes) (u : unit) :
  collect_output data name s = (Ret u, s') ->
  Repl.received s' = Repl.received s /\
  Repl.emitted s' = Repl.emitted s ++ data.
Proof.
  destruct s as [self l]; intros H; injection H as _ <-.
  unfold Repl.received, Repl.emitted; cbn.
  rewrite concat_snoc; auto.
Qed.

(** On a quiet connection the check returns and the read comes back empty;
    the connection stays quiet, and nothing is collected or received. *)
Lemma repl_quiet_read (s : Backend * list bytes) :
  Repl.quiet s ->
  exists s1 s2,
    Repl.check s = (Ret tt, s1) /\
    Repl.soft_read_until
      (INCREMENTAL_OUTPUT_BLOCK_CLOSERS Repl.LF Repl.NORMAL_PROMPT) s1 =
      (Ret [], s2) /\
    Repl.quiet s2 /\ snd s2 = snd s /\ Repl.received s2 = Repl.received s.
Proof.
  destruct s as [[exe [arrs buf wr del] orig wel box] l].
  intros [Ha Hb]; cbn in Ha, Hb; subst arrs buf.
  eexists; eexists; split; [reflexivity|].
  split; [reflexivity|].
  split; [split; reflexivity|].
  split; [reflexivity|].
  unfold Repl.received; cbn; rewrite concat_snoc, app_nil_r; reflexivity.
Qed.

Lemma repl_quiet_step (s : Backend * list bytes) :
  Repl.quiet s ->
  exists s1 s2,
    Repl.check s = (Ret tt, s1) /\
    Repl.soft_read_until
      (INCREMENTAL_OUTPUT_BLOCK_CLOSERS Repl.LF Repl.NORMAL_PROMPT) s1 =
      (Ret [], s2) /\
    Repl.quiet s2.
Proof.
  intros Hq; destruct (repl_quiet_read s Hq) as (s1 & s2 & Hc & Hr & Hq2 & _).
  exists s1, s2; auto.
Qed.

(** C1, evaluated.  The prompt arrives byte by byte, each byte in time for
    the read that waits for it: the third byte is read by the loop's read and
    the fourth by the probe.  The pending buffer is then the full prompt
    marker, all that was sent has been read and nothing more is to come, and
    yet after any number of further iterations the scan is still running and
    has emitted nothing. *)
Theorem fragmented_prompt_is_not_recognised (fuel : nat) :
  exists st,
    Repl.scan (2 + fuel) [b ">"; b ">"; b ">"; b " "] =
      (Running Repl.NORMAL_PROMPT, st) /\
    endswith Repl.NORMAL_PROMPT Repl.NORMAL_PROMPT = true /\
    Repl.received st = Repl.NORMAL_PROMPT /\
    Repl.quiet st /\
    snd st = [].
Proof.
  unfold Repl.scan, Repl.loop; rewrite scan_loop_add.
  set (st2 := (set_connection
                 (Conn.mk [] [] [] [b ">"; b ">"; b ">"; b " "])
                 (Repl.backend []), @nil bytes)).
  assert (E : scan_loop Repl.LF Repl.NORMAL_PROMPT Matcher.ends_overlap
                Repl.check Repl.soft_read_until Repl.soft_read collect_output
                2 "stdout" []
                (Repl.backend [b ">"; b ">"; b ">"; b " "], []) =
              (Running Repl.NORMAL_PROMPT, st2))
    by (vm_compute; reflexivity).
  rewrite E.
  set (idle := fun s : Backend * list bytes =>
                 Repl.quiet s /\ snd s = [] /\
                 Repl.received s = Repl.NORMAL_PROMPT).
  assert (Hidle : forall s, idle s ->
            exists s1 s2,
              Repl.check s = (Ret tt, s1) /\
              Repl.soft_read_until
                (INCREMENTAL_OUTPUT_BLOCK_CLOSERS Repl.LF Repl.NORMAL_PROMPT)
                s1 = (Ret [], s2) /\ idle s2).
  { intros s (Hq & Hs & Hr).
    destruct (repl_quiet_read s Hq) as (s1 & s2 & Hc & Hrd & Hq2 & Hs2 & Hr2).
    exists s1, s2; unfold idle; rewrite Hs2, Hr2; auto. }
  destruct (scan_loop_silent Repl.LF Repl.NORMAL_PROMPT Matcher.ends_overlap
              Repl.check Repl.soft_read_until Repl.soft_read collect_output
              idle Hidle fuel "stdout" Repl.NORMAL_PROMPT st2)
    as (st & Hl & (Hq & Hs & Hr) & _);
    [repeat split; reflexivity|].
  exists st; repeat split; solve [assumption | apply Hq].
Qed.

(** A connection that is closed, so that every read returns empty: for no
    number of iterations does the scan stop, be it with a failure. *)
Lemma closed_connection_scan_never_stops :
  ~ exists fuel o st, Repl.scan fuel [] = (Stopped o, st).
Proof.
  intros (fuel & o & st & H).
  destruct (scan_loop_silent Repl.LF Repl.NORMAL_PROMPT Matcher.ends_overlap
              Repl.check Repl.soft_read_until Repl.soft_read collect_output
              Repl.quiet repl_quiet_step fuel "stdout" []
              (Repl.backend [], []))
    as (st' & Hl & _); [split; reflexivity|].
  unfold Repl.scan, Repl.loop in H; rewrite Hl in H; discriminate.
Qed.

Lemma empty_reads_retry_forever_witness :
  exists st,
    Repl.loop 7 "stdout" (b ">>") (Repl.backend [], []) =
      (Running (b ">>"), st) /\
    Repl.quiet st.
Proof.
  destruct (proj1 (empty_reads_retry_forever
                     Repl.LF Repl.NORMAL_PROMPT Matcher.ends_overlap
                     Repl.check Repl.soft_read_until Repl.soft_read
                     collect_output Repl.quiet repl_quiet_step)
                  7 "stdout" (b ">>") (Repl.backend [], [])
                  (conj eq_refl eq_refl))
    as (st & Hl & Hq & _).
  exists st; split; assumption.
Defined.

Lemma only_at_end_computed (pat r : bytes) :
  split_at_first pat r = Some (r, []) -> only_at_end pat r.
Proof. intros H; apply split_at_first_sound in H as [_ H]; exact H. Qed.

Lemma probe_timeout_emits_pending_witness :
  let s := (Repl.backend [b ">>"], @nil bytes) in
  let s2 := snd (Repl.soft_read_until
                   (INCREMENTAL_OUTPUT_BLOCK_CLOSERS Repl.LF
                      Repl.NORMAL_PROMPT) s) in
  let s3 := snd (Repl.soft_read 1 s2) in
  Repl.iteration "stdout" [] s =
    (collect_output ([] ++ b ">>") "stdout" ;; ret (Continue [])) s3 /\
  snd (snd (Repl.iteration "stdout" [] s)) = [b ">>"].
Proof.
  cbv zeta.
  split; [|vm_compute; reflexivity].
  apply (proj1 (probe_timeout_emits_pending
                  Repl.LF Repl.NORMAL_PROMPT Matcher.ends_overlap
                  Repl.check Repl.soft_read_until Repl.soft_read
                  collect_output "stdout" [] (b ">>")
                  (Repl.backend [b ">>"], [])
                  (Repl.backend [b ">>"], [])
                  (snd (Repl.soft_read_until
                          (INCREMENTAL_OUTPUT_BLOCK_CLOSERS Repl.LF
                             Repl.NORMAL_PROMPT)
                          (Repl.backend [b ">>"], [])))
                  (snd (Repl.soft_read 1
                          (snd (Repl.soft_read_until
                                  (INCREMENTAL_OUTPUT_BLOCK_CLOSERS Repl.LF
                                     Repl.NORMAL_PROMPT)
                                  (Repl.backend [b ">>"], [])))))
                  eq_refl eq_refl
                  ltac:(discriminate) eq_refl eq_refl eq_refl eq_refl)).
Defined.

Lemma scan_conserves_bytes_witness :
  exists st E R,
    Repl.scan 4 [b "hello" ++ Repl.LF ++ b "wor";
                 b "ld" ++ Repl.LF ++ Repl.NORMAL_PROMPT] =
      (Stopped (Ret Repl.NORMAL_PROMPT), st) /\
    Repl.emitted st = E /\ Repl.received st = R /\
    E ++ Repl.NORMAL_PROMPT = R.
Proof.
  destruct (Repl.scan 4 [b "hello" ++ Repl.LF ++ b "wor";
                         b "ld" ++ Repl.LF ++ Repl.NORMAL_PROMPT])
    as [status st] eqn:Hr.
  pose proof (scan_conserves_bytes
                Repl.LF Repl.NORMAL_PROMPT Matcher.ends_overlap
                Repl.check Repl.soft_read_until Repl.soft_read collect_output
                Repl.received Repl.emitted
                repl_check_observed repl_soft_read_until_observed
                repl_soft_read_observed repl_consumer_observed
                ltac:(discriminate) 4 "stdout" _ st status Hr) as K.
  vm_compute in Hr; injection Hr as <- <-.
  destruct K as (_ & E & R & He & Hre & Hk).
  eexists; exists E, R; split; [reflexivity|].
  split; [exact He | split; [exact Hre | exact Hk]].
Defined.

Lemma forward_unexpected_output_cases_witness :
  exists data self1,
    on_connection Conn.read_all
      (Repl.backend [b "late" ++ Repl.LF ++ Repl.NORMAL_PROMPT]) =
      (Ret data, self1) /\
    _forward_unexpected_output Repl.NORMAL_PROMPT "stdout"
      (Repl.backend [b "late" ++ Repl.LF ++ Repl.NORMAL_PROMPT]) =
      _send_output (b "late" ++ Repl.LF) "stdout" self1.
Proof.
  destruct (forward_unexpected_output_cases Repl.NORMAL_PROMPT "stdout"
              (Repl.backend [b "late" ++ Repl.LF ++ Repl.NORMAL_PROMPT])
              ltac:(discriminate))
    as (data & self1 & Hread & Hdata & _ & Hstrip & _).
  exists data, self1; split; [exact Hread|].
  apply (Hstrip (b "late" ++ Repl.LF)).
  rewrite Hdata; reflexivity.
Defined.

Lemma execute_output_between_markers_witness :
  let script := b "print(1+1)" in
  let output := b "2" ++ [x0d] ++ newline in
  let self :=
    Repl.backend
      [paste_exchange Repl.NORMAL_PROMPT [x0d; x0a] script [x0d] output []] in
  exists c,
    _send_output output "stdout" (set_connection c self) =
    Repl.execute script _send_output self.
Proof.
  cbv zeta.
  set (script := b "print(1+1)").
  set (output := b "2" ++ [x0d] ++ newline).
  set (self := Repl.backend _).
  destruct (execute_output_between_markers Repl.NORMAL_PROMPT Repl.EOT
              script _send_output self
              (snd (Repl.execute script _send_output self))
              ltac:(discriminate) eq_refl)
    as (out & c & Hcall & _ & _ & Hout).
  exists c.
  rewrite <- (Hout [x0d; x0a] [x0d] output [] eq_refl).
  - rewrite Hcall; vm_compute; reflexivity.
  - repeat split;
      solve [apply only_at_end_computed; vm_compute; reflexivity
            | eexists; reflexivity].
  - apply split_at_first_None; vm_compute; reflexivity.
Defined.

(** A script that holds the sentinel, submitted to an interpreter whose
    exchange is well framed: all six steps complete, and the consumer is
    handed the rest of the script's echo and the sentinel before the
    program's output. *)
Lemma sentinel_in_script_leaks_echo :
  let script := b "x = 1 #uuu" ++ newline ++ b "print(x + 1)" in
  let output := b "2" ++ newline in
  let self :=
    Repl.backend [paste_exchange Repl.NORMAL_PROMPT [] script [] output []] in
  let handed := b "print(x + 1)" ++ sentinel ++ newline ++ output in
  well_framed Repl.NORMAL_PROMPT [] [] output /\
  fst (Repl.execute script _send_output self) = Ret tt /\
  outbox (snd (Repl.execute script _send_output self)) =
    [ProgramOutput "stdout" handed] /\
  occurs sentinel handed /\
  handed <> output.
Proof.
  cbv zeta; split; [|split; [|split; [|split]]].
  - repeat split;
      solve [apply only_at_end_computed; vm_compute; reflexivity
            | eexists; reflexivity].
  - vm_compute; reflexivity.
  - vm_compute; reflexivity.
  - exists (b "print(x + 1)"), (newline ++ b "2" ++ newline); reflexivity.
  - discriminate.
Qed.

(** The boundary of that script is ambiguous: the read that waits for the
    sentinel stops inside the script's echo. *)
Lemma sentinel_in_script_breaks_boundary :
  ~ boundary_unambiguous Repl.NORMAL_PROMPT Repl.EOT
      (b "x = 1 #uuu" ++ newline ++ b "print(x + 1)").
Proof.
  intros H.
  destruct (H [] [] (b "2" ++ newline) []
              (Repl.backend
                 [paste_exchange Repl.NORMAL_PROMPT []
                    (b "x = 1 #uuu" ++ newline ++ b "print(x + 1)") []
                    (b "2" ++ newline) []])
              _send_output eq_refl)
    as (c & Hexec & _).
  - repeat split;
      solve [apply only_at_end_computed; vm_compute; reflexivity
            | eexists; reflexivity].
  - vm_compute in Hexec; discriminate.
Qed.

Lemma sentinel_marks_boundary_witness :
  exists c,
    Repl.execute [] _send_output
      (Repl.backend [paste_exchange Repl.NORMAL_PROMPT [] [] [x0d] [] []]) =
    _send_output [] "stdout"
      (set_connection c
         (Repl.backend [paste_exchange Repl.NORMAL_PROMPT [] [] [x0d] [] []])).
Proof.
  apply (proj2 (proj2 (sentinel_marks_boundary Repl.NORMAL_PROMPT Repl.EOT))
           [] [x0d] []
           (Repl.backend [paste_exchange Repl.NORMAL_PROMPT [] [] [x0d] [] []])
           _send_output eq_refl).
  repeat split;
    solve [apply only_at_end_computed; vm_compute; reflexivity
          | eexists; reflexivity].
Defined.

(** A run command on a backend that holds the welcome text of its first
    child, the new child greeting with another banner: the banner is
    forwarded as output, the stored text is announced and stays. *)
Lemma run_keeps_the_stored_welcome_text :
  let old := str "MicroPython v1.12" ++ [10%N] in
  let banner := b "MicroPython v1.13" ++ Repl.LF in
  let self := set_welcome old old (Repl.backend []) in
  let result :=
    Repl.run [banner ++ Repl.NORMAL_PROMPT] 5 (mkCommand ["main.py"] "") self in
  fst result = Ret tt /\
  outbox (snd result) =
    [ProgramOutput "stdout" banner; ProgramOutput "stdout" [];
     HideTrailingOutput old] /\
  Conn.delivered (_connection (snd result)) = [banner; Repl.NORMAL_PROMPT] /\
  _original_welcome_text (snd result) = Some old /\
  _welcome_text (snd result) = Some old /\
  _original_welcome_text
    (snd (Repl.capture 5 (Repl.backend [banner ++ Repl.NORMAL_PROMPT]))) =
    Some (str "MicroPython v1.13" ++ [10%N]) /\
  _original_welcome_text (snd result) <>
    Some (str "MicroPython v1.13" ++ [10%N]).
Proof.
  cbv zeta; repeat split; try (vm_compute; reflexivity).
  vm_compute; discriminate.
Qed.

Lemma welcome_text_capture_and_frame_witness :
  welcome_texts
    (snd (Repl.run [b "MicroPython v1.13" ++ Repl.LF ++ Repl.NORMAL_PROMPT] 5
            (mkCommand ["main.py"] "")
            (set_welcome (str "MicroPython v1.12") (str "MicroPython v1.12")
               (Repl.backend [])))) =
  (Some (str "MicroPython v1.12"), Some (str "MicroPython v1.12")).
Proof.
  apply (proj1 (proj2 (welcome_text_capture_and_frame
                         Repl.LF Repl.NORMAL_PROMPT Repl.EOT
                         Matcher.ends_overlap Repl.decode
                         (Repl.respawn
                            [b "MicroPython v1.13" ++ Repl.LF ++
                             Repl.NORMAL_PROMPT])
                         Repl.no_side_commands Repl.no_report Repl.no_helpers
                         (preserves_ret _ _)
                         (fun label => preserves_ret _ _)
                         (preserves_ret _ _)))).
Defined.

(** ** Line-buffered output *)

Lemma byte_eqb_neq (x y : byte) : x <> y -> Byte.eqb x y = false.
Proof.
  intros H; destruct (Byte.eqb x y) eqn:E; [|reflexivity].
  apply Byte.byte_dec_bl in E; contradiction.
Qed.

Lemma bind_ret_eq {St A B : Type} (m : M St A) (k : A -> M St B)
  (s s' : St) (a : A) :
  m s = (Ret a, s') -> bind m k s = k a s'.
Proof. intros H; unfold bind; rewrite H; reflexivity. Qed.

(** A line feed inside the prefix [p] of [s ++ nl :: more], unless the whole
    of [p] lies in [s]. *)
Lemma prefix_before_byte (nl : byte) (s more p v : bytes) :
  s ++ nl :: more = p ++ v -> (exists w, s = p ++ w) \/ In nl p.
Proof.
  revert p; induction s as [|c s IH]; intros [|x p] E.
  - left; exists []; reflexivity.
  - right; injection E as -> _; left; reflexivity.
  - left; exists (c :: s); reflexivity.
  - injection E as -> E.
    destruct (IH _ E) as [[w ->]|Hin].
    + left; exists w; reflexivity.
    + right; right; exact Hin.
Qed.

Lemma split_at_first_of_eq (closers : list bytes) (s : bytes) :
  split_at_first_of closers s =
  match find (startswith s) closers with
  | Some p => Some (p, skipn (length p) s)
  | None =>
      match s with
      | [] => None
      | c :: s' =>
          match split_at_first_of closers s' with
          | Some (r, rest) => Some (c :: r, rest)
          | None => None
          end
      end
  end.
Proof. destruct s; reflexivity. Qed.

(** The main read of the scan stops after the first complete line. *)
Lemma closers_stop_at_line (nl : byte) (NORMAL_PROMPT body more : bytes) :
  ~ In nl NORMAL_PROMPT ->
  ~ In nl body -> ~ occurs NORMAL_PROMPT body ->
  split_at_first_of [[nl]; NORMAL_PROMPT] (body ++ nl :: more) =
    Some (body ++ [nl], more).
Proof.
  intros Hnp; induction body as [|c body IH]; intros Hnl Hocc.
  - rewrite split_at_first_of_eq; cbn [app find startswith].
    rewrite Byte.byte_dec_lb by reflexivity; reflexivity.
  - assert (Hc : Byte.eqb nl c = false).
    { apply byte_eqb_neq; intros ->; apply Hnl; left; reflexivity. }
    assert (Hs : startswith ((c :: body) ++ nl :: more) NORMAL_PROMPT = false).
    { destruct (startswith _ NORMAL_PROMPT) eqn:Hs; [|reflexivity].
      apply startswith_spec in Hs as [v Hv].
      destruct (prefix_before_byte _ _ _ _ _ Hv) as [[w Hw]|Hin].
      - exfalso; apply Hocc; exists [], w; exact Hw.
      - contradiction. }
    rewrite split_at_first_of_eq; cbn [find].
    rewrite Hs; cbn [app startswith]; rewrite Hc; cbn [andb].
    rewrite IH; [reflexivity | |].
    + intros H; apply Hnl; right; exact H.
    + intros (u & v & ->); apply Hocc; exists (c :: u), v; reflexivity.
Qed.

(** The main read stops after the prompt marker that ends an unfinished
    line. *)
Lemma closers_stop_at_prompt (nl : byte) (NORMAL_PROMPT tail rest : bytes) :
  NORMAL_PROMPT <> [] ->
  ~ In nl NORMAL_PROMPT ->
  ~ In nl tail -> only_at_end NORMAL_PROMPT (tail ++ NORMAL_PROMPT) ->
  split_at_first_of [[nl]; NORMAL_PROMPT] (tail ++ NORMAL_PROMPT ++ rest) =
    Some (tail ++ NORMAL_PROMPT, rest).
Proof.
  intros Hne Hnp; induction tail as [|c tail IH]; intros Hnl Hend.
  - destruct NORMAL_PROMPT as [|x p] eqn:E; [congruence|].
    rewrite <- E.
    assert (Hx : Byte.eqb nl x = false).
    { apply byte_eqb_neq; intros ->; apply Hnp; left; reflexivity. }
    assert (Hs : startswith (NORMAL_PROMPT ++ rest) [nl] = false).
    { rewrite E; cbn [app startswith]; rewrite Hx; reflexivity. }
    cbn [app].
    rewrite split_at_first_of_eq; cbn [find].
    rewrite Hs, startswith_app, skipn_length_app; reflexivity.
  - assert (Hc : Byte.eqb nl c = false).
    { apply byte_eqb_neq; intros ->; apply Hnl; left; reflexivity. }
    assert (Hs : startswith ((c :: tail) ++ NORMAL_PROMPT ++ rest)
                            NORMAL_PROMPT = false).
    { pose proof (split_at_first_complete _ _ rest Hend) as Hc'.
      rewrite split_at_first_eq in Hc'.
      destruct (startswith _ NORMAL_PROMPT); [|reflexivity].
      injection Hc' as Hlen _.
      apply (f_equal (@length byte)) in Hlen.
      cbn [app length] in Hlen; rewrite length_app in Hlen; lia. }
    rewrite split_at_first_of_eq; cbn [find].
    rewrite Hs; cbn [app startswith]; rewrite Hc; cbn [andb].
    rewrite IH; [reflexivity | |].
    + intros H; apply Hnl; right; exact H.
    + apply only_at_end_tail with (c := c); [eauto | exact Hend].
Qed.

Lemma closers_nothing_buffered (nl : byte) (NORMAL_PROMPT : bytes) :
  NORMAL_PROMPT <> [] ->
  split_at_first_of [[nl]; NORMAL_PROMPT] [] = None.
Proof. destruct NORMAL_PROMPT; [congruence | reflexivity]. Qed.

(** A read that finds a closer in what is at hand returns up to it and
    leaves the rest buffered. *)
Lemma soft_read_until_at_hand (closers : list bytes) (c : Conn.t)
  (data chunk left : bytes) (more : list bytes) :
  at_hand c data more ->
  split_at_first_of closers [] = None ->
  split_at_first_of closers data = Some (chunk, left) ->
  Conn.soft_read_until closers c = Conn.deliver chunk more left c.
Proof.
  intros [[Hb Ha]|[Hb Ha]] Hnil Hsplit; unfold Conn.soft_read_until.
  - rewrite Hb, Hsplit, Ha; reflexivity.
  - unfold Conn.absorb; rewrite Hb, Hnil, Ha; cbn [app].
    rewrite Hsplit; reflexivity.
Qed.

(** A read that waits in vain: nothing buffered, and an empty batch. *)
Lemma soft_read_until_timeout (closers : list bytes) (c : Conn.t)
  (more : list bytes) :
  Conn.read_buffer c = [] -> Conn.arrivals c = [] :: more ->
  split_at_first_of closers [] = None ->
  Conn.soft_read_until closers c = Conn.deliver [] more [] c.
Proof.
  intros Hb Ha Hnil; unfold Conn.soft_read_until, Conn.absorb.
  rewrite Hb, Hnil, Ha; cbn [app]; rewrite Hnil; reflexivity.
Qed.

(** A read that finds no closer in the batch that arrives returns the
    batch. *)
Lemma soft_read_until_whole_batch (closers : list bytes) (c : Conn.t)
  (a : bytes) (arrs : list bytes) :
  Conn.read_buffer c = [] -> Conn.arrivals c = a :: arrs ->
  split_at_first_of closers [] = None ->
  split_at_first_of closers a = None ->
  Conn.soft_read_until closers c = Conn.deliver a arrs [] c.
Proof.
  intros Hb Ha Hnil Hnone; unfold Conn.soft_read_until, Conn.absorb.
  rewrite Hb, Hnil, Ha; cbn [app]; rewrite Hnone; reflexivity.
Qed.

(** A read that finds no closer in what is buffered, and waits in vain for
    more, returns what is buffered. *)
Lemma soft_read_until_leftover (closers : list bytes) (c : Conn.t) :
  hd [] (Conn.arrivals c) = [] ->
  split_at_first_of closers (Conn.read_buffer c) = None ->
  Conn.soft_read_until closers c =
    Conn.deliver (Conn.read_buffer c) (tl (Conn.arrivals c)) [] c.
Proof.
  intros Ha Hnone; unfold Conn.soft_read_until, Conn.absorb.
  rewrite Hnone; destruct (Conn.arrivals c) as [|a arrs]; cbn [hd tl] in *.
  - rewrite Hnone; reflexivity.
  - subst a; rewrite app_nil_r, Hnone; reflexivity.
Qed.

(** The probe takes the first byte of the batch that arrives. *)
Lemma soft_read_first_byte (c : Conn.t) (x : byte) (a : bytes)
  (arrs : list bytes) :
  Conn.read_buffer c = [] -> Conn.arrivals c = (x :: a) :: arrs ->
  Conn.soft_read 1 c = Conn.deliver [x] arrs a c.
Proof.
  intros Hb Ha; unfold Conn.soft_read, Conn.absorb.
  rewrite Hb, Ha; reflexivity.
Qed.

(** Where a closer occurs, the main read finds one. *)
Lemma closers_found (closers : list bytes) (p x v : bytes) :
  In p closers -> split_at_first_of closers (x ++ p ++ v) <> None.
Proof.
  intros Hin; induction x as [|c x IH]; rewrite split_at_first_of_eq.
  - destruct (find (startswith ([] ++ p ++ v)) closers) eqn:F;
      [discriminate|].
    pose proof (find_none _ _ F p Hin) as Hs.
    cbn [app] in Hs; rewrite startswith_app in Hs; discriminate.
  - destruct (find (startswith ((c :: x) ++ p ++ v)) closers);
      [discriminate|].
    cbn [app].
    destruct (split_at_first_of closers (x ++ p ++ v)) as [[r rest]|];
      [discriminate | congruence].
Qed.

Lemma closers_none_no_suffix (closers : list bytes) (p s : bytes) :
  split_at_first_of closers s = None -> In p closers ->
  endswith s p = false.
Proof.
  intros Hnone Hin; apply endswith_false; intros x E.
  apply (closers_found closers p x [] Hin).
  rewrite app_nil_r, <- E; exact Hnone.
Qed.

Lemma on_self_read {L : Type} (m : M Conn.t bytes) (self : Backend) (l : L)
  (r : bytes) (c : Conn.t) :
  m (_connection self) = (Ret r, c) ->
  on_self (on_connection m) (self, l) = (Ret r, (set_connection c self, l)).
Proof.
  intros H; unfold on_self, on_connection; cbn [fst snd].
  rewrite H; reflexivity.
Qed.

Section LineForwarding.

Variable nl : byte.
Variable NORMAL_PROMPT : bytes.
Variable ends_overlap : bytes -> bytes -> bool.
Variable _check_for_side_commands : M Backend unit.
Context {L : Type}.
Variable output_consumer : bytes -> string -> M (Backend * L) unit.

(** The calls of the consumer, as a state shows them: each one leaves a
    record of the chunk and of the stream name that it was handed. *)
Context {X : Type}.
Variable record : bytes -> string -> X.
Variable calls : Backend * L -> list X.

Hypothesis prompt_not_empty : NORMAL_PROMPT <> [].
Hypothesis no_line_feed_in_prompt : ~ In nl NORMAL_PROMPT.

(** No side command interferes: the check returns, and leaves the connection
    and the consumer's record alone. *)
Hypothesis check_returns : forall self l,
  exists self',
    _check_for_side_commands self = (Ret tt, self') /\
    _connection self' = _connection self /\
    calls (self', l) = calls (self, l).

(** The consumer records what it is handed and returns, leaving the
    connection alone; a read does not show in its record. *)
Hypothesis consumer_records : forall data name st,
  exists st',
    output_consumer data name st = (Ret tt, st') /\
    _connection (fst st') = _connection (fst st) /\
    calls st' = calls st ++ [record data name].

Hypothesis reads_not_recorded : forall c self l,
  calls (set_connection c self, l) = calls (self, l).

Local Abbreviation CLOSERS := (INCREMENTAL_OUTPUT_BLOCK_CLOSERS [nl] NORMAL_PROMPT).
Local Abbreviation read_main :=
  (fun closers : list bytes =>
     on_self (L := L) (on_connection (Conn.soft_read_until closers))).
Local Abbreviation read_probe :=
  (fun n : nat => on_self (L := L) (on_connection (Conn.soft_read n))).
Local Abbreviation iteration :=
  (scan_iteration [nl] NORMAL_PROMPT ends_overlap
     (on_self _check_for_side_commands) read_main read_probe output_consumer).
Local Abbreviation loop :=
  (scan_loop [nl] NORMAL_PROMPT ends_overlap
     (on_self _check_for_side_commands) read_main read_probe output_consumer).

Local Abbreviation conn := (fun st : Backend * L => _connection (fst st)).

(** The check and the main read of an iteration, when the read returns
    [chunk]. *)
Lemma iteration_reads (name : string) (pending chunk left : bytes)
  (arrs : list bytes) (st : Backend * L) :
  Conn.soft_read_until CLOSERS (conn st) =
    Conn.deliver chunk arrs left (conn st) ->
  exists st1,
    iteration name pending st =
      (if is_empty chunk then ret (Continue pending)
       else
         match scan_branch [nl] NORMAL_PROMPT ends_overlap (pending ++ chunk)
         with
         | HaveLineEnd =>
             output_consumer (pending ++ chunk) name ;; ret (Continue [])
         | HaveFullMarker =>
             output_consumer
               (slice_to_neg (pending ++ chunk) (length NORMAL_PROMPT)) name ;;
             ret (Return NORMAL_PROMPT)
         | HaveOverlap =>
             follow_up <- read_probe 1 ;;
             if is_empty follow_up then
               output_consumer (pending ++ chunk) name ;; ret (Continue [])
             else ret (Continue ((pending ++ chunk) ++ follow_up))
         | NoPromptInSight =>
             output_consumer (pending ++ chunk) name ;; ret (Continue [])
         end) st1 /\
    calls st1 = calls st /\
    Conn.read_buffer (conn st1) = left /\
    Conn.arrivals (conn st1) = arrs /\
    Conn.written (conn st1) = Conn.written (conn st) /\
    Conn.delivered (conn st1) = Conn.delivered (conn st) ++ [chunk].
Proof.
  intros Hread; destruct st as [self l].
  destruct (check_returns self l) as (self1 & Hcheck & Hconn & Hcalls).
  cbn [fst] in Hread; rewrite <- Hconn in Hread.
  unfold Conn.deliver in Hread.
  eexists; split; [|split; [|split; [|split; [|split]]]].
  - unfold scan_iteration.
    rewrite (bind_ret_eq _ _ (self, l) (self1, l) tt)
      by (unfold on_self; cbn [fst snd]; rewrite Hcheck; reflexivity).
    rewrite (bind_ret_eq _ _ _ _ _ (on_self_read _ self1 l _ _ Hread)).
    reflexivity.
  - rewrite reads_not_recorded; exact Hcalls.
  - reflexivity.
  - reflexivity.
  - cbn [fst set_connection _connection Conn.written]; congruence.
  - cbn [fst set_connection _connection Conn.delivered]; congruence.
Qed.

Lemma complete_line_not_empty (line : bytes) :
  complete_line nl NORMAL_PROMPT line -> is_empty line = false.
Proof. intros ([|c body] & -> & _); reflexivity. Qed.

(** An iteration that finds a complete line at hand passes it on. *)
Lemma iteration_line (name : string) (line left : bytes)
  (more : list bytes) (st : Backend * L) :
  complete_line nl NORMAL_PROMPT line ->
  at_hand (conn st) (line ++ left) more ->
  exists st',
    iteration name [] st = (Ret (Continue []), st') /\
    calls st' = calls st ++ [record line name] /\
    Conn.read_buffer (conn st') = left /\
    Conn.arrivals (conn st') = more /\
    Conn.written (conn st') = Conn.written (conn st) /\
    Conn.delivered (conn st') = Conn.delivered (conn st) ++ [line].
Proof.
  intros Hline Hhand.
  pose proof (complete_line_not_empty _ Hline) as Hne.
  destruct Hline as (body & -> & Hnl & Hocc).
  assert (Hsplit : split_at_first_of CLOSERS ((body ++ [nl]) ++ left) =
                   Some (body ++ [nl], left)).
  { rewrite <- app_assoc; cbn [app].
    apply closers_stop_at_line; assumption. }
  pose proof (soft_read_until_at_hand _ _ _ _ _ _ Hhand
                (closers_nothing_buffered nl _ prompt_not_empty) Hsplit)
    as Hread.
  destruct (iteration_reads name [] _ _ _ st Hread)
    as (st1 & Hit & Hcalls & Hbuf & Harr & Hwr & Hdel).
  rewrite Hne in Hit; cbn [app] in Hit.
  unfold scan_branch in Hit; rewrite endswith_app in Hit.
  destruct (consumer_records (body ++ [nl]) name st1)
    as (st2 & Hcons & Hconn & Hcalls2).
  exists st2; split; [|split; [|split; [|split; [|split]]]].
  - rewrite Hit; unfold bind; rewrite Hcons; reflexivity.
  - rewrite Hcalls2, Hcalls; reflexivity.
  - cbn beta; rewrite Hconn; exact Hbuf.
  - cbn beta; rewrite Hconn; exact Harr.
  - cbn beta; rewrite Hconn; exact Hwr.
  - cbn beta; rewrite Hconn; exact Hdel.
Qed.

Lemma prompt_does_not_end_line (tail : bytes) :
  endswith (tail ++ NORMAL_PROMPT) [nl] = false.
Proof.
  apply endswith_false; intros x E.
  destruct (exists_last prompt_not_empty) as (p & z & Hp).
  rewrite Hp, app_assoc in E.
  apply app_inj_tail in E as [_ ->].
  apply no_line_feed_in_prompt; rewrite Hp.
  apply in_or_app; right; left; reflexivity.
Qed.

(** An iteration that finds the prompt marker at hand, at the end of an
    unfinished line, passes that line on and returns. *)
Lemma iteration_prompt (name : string) (tail rest : bytes)
  (more : list bytes) (st : Backend * L) :
  ~ In nl tail -> only_at_end NORMAL_PROMPT (tail ++ NORMAL_PROMPT) ->
  at_hand (conn st) (tail ++ NORMAL_PROMPT ++ rest) more ->
  exists st',
    iteration name [] st = (Ret (Return NORMAL_PROMPT), st') /\
    calls st' = calls st ++ [record tail name] /\
    Conn.read_buffer (conn st') = rest /\
    Conn.arrivals (conn st') = more /\
    Conn.written (conn st') = Conn.written (conn st) /\
    Conn.delivered (conn st') =
      Conn.delivered (conn st) ++ [tail ++ NORMAL_PROMPT].
Proof.
  intros Hnl Hend Hhand.
  pose proof (closers_stop_at_prompt nl _ _ rest prompt_not_empty
                no_line_feed_in_prompt Hnl Hend) as Hsplit.
  pose proof (soft_read_until_at_hand _ _ _ _ _ _ Hhand
                (closers_nothing_buffered nl _ prompt_not_empty) Hsplit)
    as Hread.
  destruct (iteration_reads name [] _ _ _ st Hread)
    as (st1 & Hit & Hcalls & Hbuf & Harr & Hwr & Hdel).
  assert (Hne : is_empty (tail ++ NORMAL_PROMPT) = false).
  { destruct tail; [|reflexivity].
    destruct NORMAL_PROMPT; [congruence | reflexivity]. }
  rewrite Hne in Hit; cbn [app] in Hit.
  unfold scan_branch in Hit.
  rewrite prompt_does_not_end_line, endswith_app in Hit.
  rewrite slice_to_neg_app in Hit by exact prompt_not_empty.
  destruct (consumer_records tail name st1)
    as (st2 & Hcons & Hconn & Hcalls2).
  exists st2; split; [|split; [|split; [|split; [|split]]]].
  - rewrite Hit; unfold bind; rewrite Hcons; reflexivity.
  - rewrite Hcalls2, Hcalls; reflexivity.
  - cbn beta; rewrite Hconn; exact Hbuf.
  - cbn beta; rewrite Hconn; exact Harr.
  - cbn beta; rewrite Hconn; exact Hwr.
  - cbn beta; rewrite Hconn; exact Hdel.
Qed.

(** An iteration whose read times out changes nothing but the record of the
    reads. *)
Lemma iteration_timeout (name : string) (pending : bytes)
  (more : list bytes) (st : Backend * L) :
  Conn.read_buffer (conn st) = [] ->
  Conn.arrivals (conn st) = [] :: more ->
  exists st',
    iteration name pending st = (Ret (Continue pending), st') /\
    calls st' = calls st /\
    Conn.read_buffer (conn st') = [] /\
    Conn.arrivals (conn st') = more /\
    Conn.written (conn st') = Conn.written (conn st) /\
    Conn.delivered (conn st') = Conn.delivered (conn st) ++ [[]].
Proof.
  intros Hb Ha.
  pose proof (soft_read_until_timeout CLOSERS _ _ Hb Ha
                (closers_nothing_buffered nl _ prompt_not_empty)) as Hread.
  destruct (iteration_reads name pending _ _ _ st Hread)
    as (st1 & Hit & Hrest).
  exists st1; split; [exact Hit | exact Hrest].
Qed.

(** The lines that are buffered are passed on one by one. *)
Lemma loop_buffered_lines (name : string) (lines : list bytes) :
  Forall (complete_line nl NORMAL_PROMPT) lines ->
  forall (left : bytes) (st : Backend * L),
    Conn.read_buffer (conn st) = concat lines ++ left ->
    exists st',
      loop (length lines) name [] st = (Running [], st') /\
      calls st' = calls st ++ map (fun chunk => record chunk name) lines /\
      Conn.read_buffer (conn st') = left /\
      Conn.arrivals (conn st') = Conn.arrivals (conn st) /\
      Conn.written (conn st') = Conn.written (conn st) /\
      Conn.delivered (conn st') = Conn.delivered (conn st) ++ lines.
Proof.
  induction 1 as [|line lines Hline _ IH]; intros left st Hbuf.
  - exists st; rewrite !app_nil_r; cbn [concat app] in Hbuf.
    repeat split; try reflexivity; exact Hbuf.
  - cbn [concat] in Hbuf; rewrite <- app_assoc in Hbuf.
    destruct (iteration_line name line (concat lines ++ left)
                (Conn.arrivals (conn st)) st Hline (or_introl (conj Hbuf eq_refl)))
      as (st1 & Hit & Hcalls & Hb1 & Ha1 & Hw1 & Hd1).
    destruct (IH left st1 Hb1) as (st2 & Hl & Hcalls2 & Hb2 & Ha2 & Hw2 & Hd2).
    exists st2; split; [|split; [|split; [|split; [|split]]]].
    + cbn [length]; rewrite scan_loop_step, Hit; exact Hl.
    + rewrite Hcalls2, Hcalls, <- app_assoc; reflexivity.
    + exact Hb2.
    + rewrite Ha2; exact Ha1.
    + rewrite Hw2; exact Hw1.
    + rewrite Hd2, Hd1, <- app_assoc; reflexivity.
Qed.

(** A batch of complete lines, arriving when nothing is buffered, is passed
    on line by line; an empty batch costs an iteration. *)
Lemma loop_batch (name : string) (lines : list bytes) (more : list bytes)
  (st : Backend * L) :
  Forall (complete_line nl NORMAL_PROMPT) lines ->
  Conn.read_buffer (conn st) = [] ->
  Conn.arrivals (conn st) = concat lines :: more ->
  exists st',
    loop (Nat.max 1 (length lines)) name [] st = (Running [], st') /\
    calls st' = calls st ++ map (fun chunk => record chunk name) lines /\
    Conn.read_buffer (conn st') = [] /\
    Conn.arrivals (conn st') = more /\
    Conn.written (conn st') = Conn.written (conn st) /\
    Conn.delivered (conn st') =
      Conn.delivered (conn st) ++ match lines with [] => [[]] | _ => lines end.
Proof.
  intros Hlines Hb Ha; destruct Hlines as [|line lines Hline Hlines].
  - destruct (iteration_timeout name [] more st Hb Ha)
      as (st1 & Hit & Hcalls & Hrest).
    exists st1; split; [|split].
    + cbn [length Nat.max]; rewrite scan_loop_step, Hit; reflexivity.
    + rewrite app_nil_r; exact Hcalls.
    + exact Hrest.
  - cbn [concat] in Ha.
    destruct (iteration_line name line (concat lines) more st Hline
                (or_intror (conj Hb Ha)))
      as (st1 & Hit & Hcalls & Hb1 & Ha1 & Hw1 & Hd1).
    rewrite <- (app_nil_r (concat lines)) in Hb1.
    destruct (loop_buffered_lines name lines Hlines [] st1 Hb1)
      as (st2 & Hl & Hcalls2 & Hb2 & Ha2 & Hw2 & Hd2).
    exists st2; split; [|split; [|split; [|split; [|split]]]].
    + cbn [length]; replace (Nat.max 1 (S (length lines)))
        with (S (length lines)) by lia.
      rewrite scan_loop_step, Hit; exact Hl.
    + rewrite Hcalls2, Hcalls, <- app_assoc; reflexivity.
    + exact Hb2.
    + rewrite Ha2; exact Ha1.
    + rewrite Hw2; exact Hw1.
    + rewrite Hd2, Hd1, <- app_assoc; reflexivity.
Qed.

(** Batches of complete lines are passed on line by line. *)
Lemma loop_batches (name : string) (batches : list (list bytes)) :
  Forall (Forall (complete_line nl NORMAL_PROMPT)) batches ->
  forall (more : list bytes) (st : Backend * L),
    Conn.read_buffer (conn st) = [] ->
    Conn.arrivals (conn st) = map (@concat byte) batches ++ more ->
    exists st',
      loop (iterations_for batches) name [] st = (Running [], st') /\
      calls st' =
        calls st ++ map (fun chunk => record chunk name) (concat batches) /\
      Conn.read_buffer (conn st') = [] /\
      Conn.arrivals (conn st') = more /\
      Conn.written (conn st') = Conn.written (conn st).
Proof.
  induction 1 as [|lines batches Hlines _ IH]; intros more st Hb Ha.
  - exists st; rewrite app_nil_r; repeat split; try reflexivity; assumption.
  - cbn [map app] in Ha.
    destruct (loop_batch name lines _ st Hlines Hb Ha)
      as (st1 & Hl1 & Hcalls1 & Hb1 & Ha1 & Hw1 & _).
    destruct (IH more st1 Hb1 Ha1) as (st2 & Hl2 & Hcalls2 & Hb2 & Ha2 & Hw2).
    exists st2; split; [|split; [|split; [|split]]].
    + change (iterations_for (lines :: batches))
        with (Nat.max 1 (length lines) + iterations_for batches).
      rewrite scan_loop_add, Hl1; exact Hl2.
    + rewrite Hcalls2, Hcalls1; cbn [concat].
      rewrite map_app, <- app_assoc; reflexivity.
    + exact Hb2.
    + exact Ha2.
    + rewrite Hw2; exact Hw1.
Qed.

(** The last batch: complete lines, an unfinished line and the prompt. *)
Lemma loop_last_batch (name : string) (lines : list bytes)
  (tail rest : bytes) (more : list bytes) (st : Backend * L) :
  Forall (complete_line nl NORMAL_PROMPT) lines ->
  ~ In nl tail -> only_at_end NORMAL_PROMPT (tail ++ NORMAL_PROMPT) ->
  Conn.read_buffer (conn st) = [] ->
  Conn.arrivals (conn st) =
    (concat lines ++ tail ++ NORMAL_PROMPT ++ rest) :: more ->
  exists st',
    loop (length lines + 1) name [] st = (Stopped (Ret NORMAL_PROMPT), st') /\
    calls st' =
      calls st ++ map (fun chunk => record chunk name) (lines ++ [tail]) /\
    Conn.read_buffer (conn st') = rest /\
    Conn.arrivals (conn st') = more /\
    Conn.written (conn st') = Conn.written (conn st).
Proof.
  intros Hlines Hnl Hend Hb Ha; destruct Hlines as [|line lines Hline Hlines].
  - cbn [concat app] in Ha.
    destruct (iteration_prompt name tail rest more st Hnl Hend
                (or_intror (conj Hb Ha)))
      as (st1 & Hit & Hcalls & Hb1 & Ha1 & Hw1 & _).
    exists st1; split; [|split; [|split; [|split]]]; try assumption.
    cbn [length Nat.add]; rewrite scan_loop_step, Hit; reflexivity.
  - cbn [concat] in Ha; rewrite <- app_assoc in Ha.
    destruct (iteration_line name line _ more st Hline
                (or_intror (conj Hb Ha)))
      as (st1 & Hit & Hcalls & Hb1 & Ha1 & Hw1 & _).
    destruct (loop_buffered_lines name lines Hlines _ st1 Hb1)
      as (st2 & Hl & Hcalls2 & Hb2 & Ha2 & Hw2 & _).
    destruct (iteration_prompt name tail rest (Conn.arrivals (conn st2)) st2
                Hnl Hend (or_introl (conj Hb2 eq_refl)))
      as (st3 & Hit3 & Hcalls3 & Hb3 & Ha3 & Hw3 & _).
    exists st3; split; [|split; [|split; [|split]]].
    + replace (length (line :: lines) + 1) with (S (length lines + 1))
        by (cbn [length]; lia).
      rewrite scan_loop_step, Hit.
      rewrite scan_loop_add, Hl.
      change 1 with (S 0); rewrite scan_loop_step, Hit3; reflexivity.
    + rewrite Hcalls3, Hcalls2, Hcalls; cbn [app map].
      rewrite map_app, <- !app_assoc; reflexivity.
    + exact Hb3.
    + rewrite Ha3, Ha2; exact Ha1.
    + rewrite Hw3, Hw2; exact Hw1.
Qed.

(** Line-buffered output, then the prompt: every line is passed on as one
    chunk, in order, then what precedes the prompt on its line, and the loop
    stops with the prompt; what follows the prompt is left unread. *)
Lemma loop_line_buffered (name : string) (batches : list (list bytes))
  (lines : list bytes) (tail rest : bytes) (more : list bytes)
  (st : Backend * L) :
  Forall (Forall (complete_line nl NORMAL_PROMPT)) batches ->
  Forall (complete_line nl NORMAL_PROMPT) lines ->
  ~ In nl tail -> only_at_end NORMAL_PROMPT (tail ++ NORMAL_PROMPT) ->
  Conn.read_buffer (conn st) = [] ->
  Conn.arrivals (conn st) =
    map (@concat byte) batches ++
    (concat lines ++ tail ++ NORMAL_PROMPT ++ rest) :: more ->
  exists st',
    loop (iterations_for batches + (length lines + 1)) name [] st =
      (Stopped (Ret NORMAL_PROMPT), st') /\
    calls st' =
      calls st ++
      map (fun chunk => record chunk name) (concat batches ++ lines ++ [tail]) /\
    Conn.read_buffer (conn st') = rest /\
    Conn.arrivals (conn st') = more /\
    Conn.written (conn st') = Conn.written (conn st).
Proof.
  intros Hbatches Hlines Hnl Hend Hb Ha.
  destruct (loop_batches name batches Hbatches _ st Hb Ha)
    as (st1 & Hl1 & Hcalls1 & Hb1 & Ha1 & Hw1).
  destruct (loop_last_batch name lines tail rest more st1 Hlines Hnl Hend
              Hb1 Ha1)
    as (st2 & Hl2 & Hcalls2 & Hb2 & Ha2 & Hw2).
  exists st2; split; [|split; [|split; [|split]]].
  - rewrite scan_loop_add, Hl1; exact Hl2.
  - rewrite Hcalls2, Hcalls1, <- app_assoc, <- map_app; reflexivity.
  - exact Hb2.
  - exact Ha2.
  - rewrite Hw2; exact Hw1.
Qed.

(** An iteration that is handed a batch with no closer in it, of which the
    overlap test fails, passes it on. *)
Lemma iteration_unfinished (name : string) (data : bytes)
  (more : list bytes) (st : Backend * L) :
  data <> [] ->
  split_at_first_of CLOSERS data = None ->
  ends_overlap data NORMAL_PROMPT = false ->
  Conn.read_buffer (conn st) = [] ->
  Conn.arrivals (conn st) = data :: more ->
  exists st',
    iteration name [] st = (Ret (Continue []), st') /\
    calls st' = calls st ++ [record data name] /\
    Conn.read_buffer (conn st') = [] /\
    Conn.arrivals (conn st') = more.
Proof.
  intros Hne Hnone Hov Hb Ha.
  pose proof (soft_read_until_whole_batch CLOSERS _ _ _ Hb Ha
                (closers_nothing_buffered nl _ prompt_not_empty) Hnone)
    as Hread.
  destruct (iteration_reads name [] _ _ _ st Hread)
    as (st1 & Hit & Hcalls & Hb1 & Ha1 & _).
  assert (He : is_empty data = false)
    by (destruct data; [congruence | reflexivity]).
  rewrite He in Hit; cbn [app] in Hit.
  unfold scan_branch in Hit.
  rewrite (closers_none_no_suffix _ [nl] _ Hnone) in Hit
    by (left; reflexivity).
  rewrite (closers_none_no_suffix _ NORMAL_PROMPT _ Hnone) in Hit
    by (right; left; reflexivity).
  rewrite Hov in Hit.
  destruct (consumer_records data name st1)
    as (st2 & Hcons & Hconn & Hcalls2).
  exists st2; split; [|split; [|split]].
  - rewrite Hit; unfold bind; rewrite Hcons; reflexivity.
  - rewrite Hcalls2, Hcalls; reflexivity.
  - cbn beta; rewrite Hconn; exact Hb1.
  - cbn beta; rewrite Hconn; exact Ha1.
Qed.

(** X13.  Output that does not end its line is forwarded as it arrives.
    With no side command interfering, let batches arrive that hold neither
    a line feed nor the prompt marker, and of which the overlap test fails.
    Each one is handed to the consumer as one chunk in the iteration that
    reads it, nothing is withheld, and the loop goes on. *)
Theorem unfinished_output_is_forwarded_as_it_arrives
  (name : string) (batches : list bytes) :
  Forall (fun data =>
            data <> [] /\
            split_at_first_of CLOSERS data = None /\
            ends_overlap data NORMAL_PROMPT = false) batches ->
  forall (more : list bytes) (st : Backend * L),
    Conn.read_buffer (_connection (fst st)) = [] ->
    Conn.arrivals (_connection (fst st)) = batches ++ more ->
    exists st',
      loop (length batches) name [] st = (Running [], st') /\
      calls st' = calls st ++ map (fun chunk => record chunk name) batches /\
      Conn.read_buffer (_connection (fst st')) = [] /\
      Conn.arrivals (_connection (fst st')) = more.
Proof.
  induction 1 as [|data batches (Hne & Hnone & Hov) _ IH]; intros more st Hb Ha.
  - exists st; rewrite app_nil_r; repeat split; assumption.
  - destruct (iteration_unfinished name data (batches ++ more) st
                Hne Hnone Hov Hb Ha) as (st1 & Hit & Hcalls & Hb1 & Ha1).
    destruct (IH more st1 Hb1 Ha1) as (st2 & Hl & Hcalls2 & Hb2 & Ha2).
    exists st2; split; [|split; [|split]].
    + cbn [length]; rewrite scan_loop_step, Hit; exact Hl.
    + rewrite Hcalls2, Hcalls, <- app_assoc; reflexivity.
    + exact Hb2.
    + exact Ha2.
Qed.

(** X11.  A prompt that arrives in two parts is recognised when more than
    one byte of it is still to come.  With no side command interfering, let
    a batch end with a proper prefix of the prompt marker, so that the main
    read returns it whole and the overlap test holds of it, and let the rest
    of the marker, two bytes or more, be the next batch, the child being
    silent afterwards.  The probe takes the first byte of the rest, the next
    main read the others; the consumer is handed what preceded the marker,
    once, and the scan returns the marker after two iterations. *)
Theorem split_prompt_is_recognised
  (name : string) (lead first_part second_part : bytes) (x : byte)
  (quiet : list bytes) (extra : nat) (st : Backend * L) :
  first_part ++ x :: second_part = NORMAL_PROMPT ->
  first_part <> [] -> second_part <> [] ->
  split_at_first_of CLOSERS (lead ++ first_part) = None ->
  split_at_first_of CLOSERS second_part = None ->
  ends_overlap (lead ++ first_part) NORMAL_PROMPT = true ->
  hd [] quiet = [] ->
  Conn.read_buffer (_connection (fst st)) = [] ->
  Conn.arrivals (_connection (fst st)) =
    (lead ++ first_part) :: (x :: second_part) :: quiet ->
  exists st',
    forward_output [nl] NORMAL_PROMPT ends_overlap _check_for_side_commands
      output_consumer (2 + extra) name st = (Ret NORMAL_PROMPT, st') /\
    calls st' = calls st ++ [record lead name] /\
    Conn.read_buffer (_connection (fst st')) = [] /\
    Conn.arrivals (_connection (fst st')) = tl quiet /\
    Conn.delivered (_connection (fst st')) =
      Conn.delivered (_connection (fst st)) ++
      [lead ++ first_part; [x]; second_part].
Proof.
  intros Hsplit Hp1 Hp2 Hnone1 Hnone2 Hov Hquiet Hb Ha.
  pose proof (closers_nothing_buffered nl _ prompt_not_empty) as Hnil.
  (* first iteration: the main read, then the probe *)
  pose proof (soft_read_until_whole_batch CLOSERS _ _ _ Hb Ha Hnil Hnone1)
    as Hread1.
  destruct (iteration_reads name [] _ _ _ st Hread1)
    as (st1 & Hit1 & Hcalls1 & Hb1 & Ha1 & Hw1 & Hd1).
  assert (Hne1 : is_empty (lead ++ first_part) = false).
  { destruct lead; [|reflexivity].
    destruct first_part; [congruence | reflexivity]. }
  rewrite Hne1 in Hit1; cbn [app] in Hit1.
  unfold scan_branch in Hit1.
  rewrite (closers_none_no_suffix _ [nl] _ Hnone1) in Hit1
    by (left; reflexivity).
  rewrite (closers_none_no_suffix _ NORMAL_PROMPT _ Hnone1) in Hit1
    by (right; left; reflexivity).
  rewrite Hov in Hit1.
  destruct st1 as [self1 l1]; cbn [fst snd] in Hb1, Ha1, Hw1, Hd1.
  pose proof (soft_read_first_byte _ _ _ _ Hb1 Ha1) as Hprobe.
  unfold Conn.deliver in Hprobe.
  rewrite (bind_ret_eq _ _ _ _ _ (on_self_read _ self1 l1 _ _ Hprobe))
    in Hit1.
  cbn [is_empty] in Hit1.
  (* second iteration: the rest of the marker *)
  match type of Hit1 with _ = ret _ ?s => set (st2 := s) in * end.
  assert (Hread2 : Conn.soft_read_until CLOSERS (_connection (fst st2)) =
                   Conn.deliver second_part (tl quiet) []
                     (_connection (fst st2))).
  { rewrite (soft_read_until_leftover CLOSERS (_connection (fst st2)));
      [reflexivity | exact Hquiet | exact Hnone2]. }
  destruct (iteration_reads name ((lead ++ first_part) ++ [x]) _ _ _ st2
              Hread2)
    as (st3 & Hit3 & Hcalls3 & Hb3 & Ha3 & Hw3 & Hd3).
  assert (Hne2 : is_empty second_part = false)
    by (destruct second_part; [congruence | reflexivity]).
  rewrite Hne2 in Hit3.
  assert (Hall : ((lead ++ first_part) ++ [x]) ++ second_part =
                 lead ++ NORMAL_PROMPT).
  { rewrite <- Hsplit, <- !app_assoc; reflexivity. }
  rewrite Hall in Hit3.
  unfold scan_branch in Hit3.
  rewrite prompt_does_not_end_line, endswith_app in Hit3.
  rewrite slice_to_neg_app in Hit3 by exact prompt_not_empty.
  destruct (consumer_records lead name st3)
    as (st4 & Hcons & Hconn & Hcalls4).
  exists st4; split; [|split; [|split; [|split]]].
  - unfold forward_output, _forward_output_until_active_prompt.
    change (2 + extra) with (S (S extra)).
    rewrite scan_loop_step, Hit1; unfold ret.
    rewrite scan_loop_step, Hit3; unfold bind; rewrite Hcons; reflexivity.
  - rewrite Hcalls4, Hcalls3; unfold st2.
    rewrite reads_not_recorded; f_equal; exact Hcalls1.
  - rewrite Hconn; exact Hb3.
  - rewrite Hconn; exact Ha3.
  - rewrite Hconn, Hd3; unfold st2.
    cbn [fst set_connection _connection Conn.delivered].
    rewrite Hd1, <- !app_assoc; reflexivity.
Qed.

(** X1.  Line-buffered output is forwarded line by line.  When no side
    command interferes and the child's output arrives in batches of complete
    lines (a batch may be empty: a read that timed out), the last batch
    ending with an unfinished line and the prompt marker, the scan hands the
    consumer every line as one chunk, in order, then what precedes the
    prompt on its line, and returns the prompt marker; it writes nothing,
    and what arrived after the prompt stays unread.  More iterations allowed
    change nothing. *)
Theorem line_buffered_output_is_forwarded_by_line
  (name : string) (batches : list (list bytes)) (lines : list bytes)
  (tail rest : bytes) (more : list bytes) (extra : nat) (st : Backend * L) :
  Forall (Forall (complete_line nl NORMAL_PROMPT)) batches ->
  Forall (complete_line nl NORMAL_PROMPT) lines ->
  ~ In nl tail -> only_at_end NORMAL_PROMPT (tail ++ NORMAL_PROMPT) ->
  Conn.read_buffer (_connection (fst st)) = [] ->
  Conn.arrivals (_connection (fst st)) =
    map (@concat byte) batches ++
    (concat lines ++ tail ++ NORMAL_PROMPT ++ rest) :: more ->
  exists st',
    forward_output [nl] NORMAL_PROMPT ends_overlap _check_for_side_commands
      output_consumer
      (iterations_for batches + (length lines + 1) + extra) name st =
      (Ret NORMAL_PROMPT, st') /\
    calls st' =
      calls st ++
      map (fun chunk => record chunk name) (concat batches ++ lines ++ [tail]) /\
    Conn.read_buffer (_connection (fst st')) = rest /\
    Conn.arrivals (_connection (fst st')) = more /\
    Conn.written (_connection (fst st')) =
      Conn.written (_connection (fst st)).
Proof.
  intros Hbatches Hlines Hnl Hend Hb Ha.
  destruct (loop_line_buffered name batches lines tail rest more st
              Hbatches Hlines Hnl Hend Hb Ha) as (st' & Hl & Hrest).
  exists st'; split; [|exact Hrest].
  unfold forward_output, _forward_output_until_active_prompt.
  rewrite scan_loop_add, Hl; reflexivity.
Qed.

End LineForwarding.

Lemma complete_line_computed (nl : byte) (NORMAL_PROMPT body : bytes) :
  forallb (fun c => negb (Byte.eqb nl c)) body = true ->
  split_at_first NORMAL_PROMPT body = None ->
  complete_line nl NORMAL_PROMPT (body ++ [nl]).
Proof.
  intros Hall Hnone; exists body; split; [reflexivity|split].
  - intros Hin; rewrite forallb_forall in Hall.
    specialize (Hall _ Hin).
    rewrite Byte.byte_dec_lb in Hall by reflexivity; discriminate.
  - apply split_at_first_None; exact Hnone.
Qed.

Lemma not_in_computed (nl : byte) (s : bytes) :
  forallb (fun c => negb (Byte.eqb nl c)) s = true -> ~ In nl s.
Proof.
  intros Hall Hin; rewrite forallb_forall in Hall.
  specialize (Hall _ Hin).
  rewrite Byte.byte_dec_lb in Hall by reflexivity; discriminate.
Qed.

Lemma no_side_commands_returns {L X : Type} (calls : Backend * L -> list X)
  (self : Backend) (l : L) :
  exists self',
    Repl.no_side_commands self = (Ret tt, self') /\
    _connection self' = _connection self /\
    calls (self', l) = calls (self, l).
Proof. exists self; repeat split. Qed.

Lemma collect_output_records (data : bytes) (name : string)
  (st : Backend * list bytes) :
  exists st',
    collect_output data name st = (Ret tt, st') /\
    _connection (fst st') = _connection (fst st) /\
    snd st' = snd st ++ [data].
Proof. eexists; repeat split. Qed.

(** A banner in two batches with a timed-out read between them, then the
    prompt. *)
Lemma line_buffered_output_is_forwarded_by_line_witness :
  let line1 := b "MicroPython v1.12 on 2020-02-02; linux version" ++ [x0a] in
  let line2 := b "Use Ctrl-D to exit, Ctrl-E for paste mode" ++ [x0a] in
  let line3 := b "ready" ++ [x0a] in
  let st := (Repl.backend
               [line1 ++ line2; []; line3 ++ b "..." ++ Repl.NORMAL_PROMPT],
             @nil bytes) in
  exists st',
    forward_output [x0a] Repl.NORMAL_PROMPT Matcher.ends_overlap
      Repl.no_side_commands collect_output 5 "stdout" st =
      (Ret Repl.NORMAL_PROMPT, st') /\
    snd st' = [line1; line2; line3; b "..."] /\
    Conn.read_buffer (_connection (fst st')) = [] /\
    Conn.arrivals (_connection (fst st')) = [] /\
    Conn.written (_connection (fst st')) = [].
Proof.
  cbv zeta.
  apply (line_buffered_output_is_forwarded_by_line
           x0a Repl.NORMAL_PROMPT Matcher.ends_overlap Repl.no_side_commands
           collect_output (fun chunk _ => chunk) (@snd Backend (list bytes))
           ltac:(discriminate)
           (not_in_computed x0a Repl.NORMAL_PROMPT eq_refl)
           (no_side_commands_returns _)
           collect_output_records
           (fun _ _ _ => eq_refl)
           "stdout"
           [[b "MicroPython v1.12 on 2020-02-02; linux version" ++ [x0a];
             b "Use Ctrl-D to exit, Ctrl-E for paste mode" ++ [x0a]]; []]
           [b "ready" ++ [x0a]] (b "...") [] [] 0).
  - repeat constructor; apply complete_line_computed; reflexivity.
  - repeat constructor; apply complete_line_computed; reflexivity.
  - apply not_in_computed; reflexivity.
  - apply only_at_end_computed; reflexivity.
  - reflexivity.
  - reflexivity.
Defined.

(** ** Lemmas on text *)

Lemma text_startswith_spec (s p : text) :
  text_startswith s p = true <-> exists v, s = p ++ v.
Proof.
  revert s; induction p as [|c p IH]; intros s; simpl.
  - split; [intros _; exists s; reflexivity | reflexivity].
  - destruct s as [|d s]; split.
    + discriminate.
    + intros [v Hv]; discriminate.
    + intros H; apply andb_prop in H as [Hc Hp].
      apply N.eqb_eq in Hc; apply IH in Hp as [v ->].
      exists v; congruence.
    + intros [v Hv]; injection Hv as -> ->.
      rewrite N.eqb_refl; apply IH; exists v; reflexivity.
Qed.

(** A prefix of [y ++ v] that is no longer than [y] is a prefix of [y]. *)
Lemma prefix_of_longer {A : Type} (p w y v : list A) :
  p ++ w = y ++ v -> length p <= length y -> exists t, y = p ++ t.
Proof.
  revert y; induction p as [|c p IH]; intros y E Hlen.
  - exists y; reflexivity.
  - destruct y as [|d y]; [simpl in Hlen; lia|].
    injection E as -> E; simpl in Hlen.
    destruct (IH y E ltac:(lia)) as [t ->].
    exists t; reflexivity.
Qed.

(** The characters of a replaced occurrence are passed over. *)
Lemma replace_from_skip (old new x v : text) :
  replace_from old new (x ++ v) (length x) = replace_from old new v 0.
Proof.
  induction x as [|c x IH]; [reflexivity|].
  destruct v; cbn [app length replace_from]; exact IH.
Qed.

(** Without an occurrence of [old], [replace] returns its argument. *)
Lemma replace_absent (s old new : text) :
  ~ text_occurs old s -> replace s old new = s.
Proof.
  intros Hocc; destruct old as [|o old].
  { exfalso; apply Hocc; exists [], s; reflexivity. }
  unfold replace; induction s as [|c s IH]; [reflexivity|].
  cbn [replace_from].
  destruct (text_startswith (c :: s) (o :: old)) eqn:Hs.
  - exfalso; apply text_startswith_spec in Hs as [v Hv].
    apply Hocc; exists [], v; exact Hv.
  - rewrite IH; [reflexivity|].
    intros (u & v & ->); apply Hocc; exists (c :: u), v; reflexivity.
Qed.

(** The leftmost occurrence of [old] is replaced, and the scan goes on
    behind it. *)
Lemma replace_first (u v old new : text) :
  old <> [] ->
  (forall a t, u ++ old = a ++ old ++ t -> t = []) ->
  replace (u ++ old ++ v) old new = u ++ new ++ replace v old new.
Proof.
  intros Hne; destruct old as [|o old]; [congruence|]; clear Hne.
  unfold replace; induction u as [|c u IH]; intros Hend.
  - cbn [app replace_from].
    assert (Hs : text_startswith (o :: old ++ v) (o :: old) = true)
      by (apply text_startswith_spec; exists v; reflexivity).
    rewrite Hs.
    replace (length (o :: old) - 1) with (length old)
      by (cbn [length]; lia).
    rewrite replace_from_skip; reflexivity.
  - change ((c :: u) ++ (o :: old) ++ v) with (c :: (u ++ (o :: old) ++ v)).
    change ((c :: u) ++ new ++ replace_from (o :: old) new v 0)
      with (c :: (u ++ new ++ replace_from (o :: old) new v 0)).
    remember (u ++ (o :: old) ++ v) as s eqn:Es.
    cbn [replace_from].
    destruct (text_startswith (c :: s) (o :: old)) eqn:Hs.
    + exfalso; apply text_startswith_spec in Hs as [w Hw].
      subst s.
      assert (E : (o :: old) ++ w = ((c :: u) ++ o :: old) ++ v)
        by (rewrite <- app_assoc; symmetry; exact Hw).
      apply prefix_of_longer in E as [t Ht];
        [|rewrite length_app; cbn [length]; lia].
      pose proof (Hend [] t Ht) as ->.
      apply (f_equal (@length N)) in Ht.
      rewrite !length_app in Ht; cbn [length] in Ht; lia.
    + subst s; rewrite IH; [reflexivity|].
      intros a t E; apply (Hend (c :: a) t).
      cbn [app]; rewrite E; reflexivity.
Qed.

(** Cutting occurrences out does not make a text longer. *)
Lemma replace_from_shrinks (old s : text) (skip : nat) :
  length (replace_from old [] s skip) <= length s.
Proof.
  revert skip; induction s as [|c s IH]; intros skip; [reflexivity|].
  cbn [replace_from length].
  destruct skip as [|k].
  - destruct (text_startswith (c :: s) old); cbn [app length];
      [specialize (IH (length old - 1)) | specialize (IH 0)]; lia.
  - specialize (IH k); lia.
Qed.

Lemma replace_shrinks (s old : text) :
  old <> [] -> length (replace s old []) <= length s.
Proof.
  destruct old; [congruence|]; intros _; apply replace_from_shrinks.
Qed.

(** ** Capturing the welcome text *)

Section CaptureFacts.

Variable NORMAL_PROMPT : bytes.
Variable ends_overlap : bytes -> bytes -> bool.
Variable decode : bytes -> option text.
Variable _check_for_side_commands : M Backend unit.

(** What [_process_until_initial_prompt] does with the scan's result. *)
Lemma process_until_initial_prompt_stores (LF : bytes) (fuel : nat)
  (clean : option bool) (self self1 : Backend) (status : scan_status)
  (output : list bytes) :
  scan_loop LF NORMAL_PROMPT ends_overlap
    (on_self _check_for_side_commands)
    (fun closers => on_self (on_connection (Conn.soft_read_until closers)))
    (fun n => on_self (on_connection (Conn.soft_read n)))
    collect_output fuel "stdout" [] (self, []) = (status, (self1, output)) ->
  _process_until_initial_prompt LF NORMAL_PROMPT ends_overlap decode
    _check_for_side_commands fuel clean self =
  match status with
  | Running _ => (OutOfFuel, self1)
  | Stopped (Ret _) =>
      match decode (join output) with
      | Some decoded =>
          (Ret tt,
           set_welcome (replace decoded CRLF [10%N])
             (replace (replace decoded CRLF [10%N]) boilerplate_line [])
             self1)
      | None => (Raise UnicodeDecodeError, self1)
      end
  | Stopped (Raise e) => (Raise e, self1)
  | Stopped OutOfFuel => (OutOfFuel, self1)
  end.
Proof.
  intros H.
  unfold _process_until_initial_prompt, forward_output,
    _forward_output_until_active_prompt.
  rewrite H; destruct status as [p|[v|e|]]; reflexivity.
Qed.

(** X2.  A banner that arrives line-buffered is captured whole.  When no
    side command interferes and the child sends complete lines in batches,
    then an unfinished line and the prompt marker, and these bytes without
    the marker decode, [_process_until_initial_prompt] completes; the raw
    welcome text is their decoding with CR LF turned into LF, the cleaned
    one is the raw one with the boilerplate line replaced by nothing; what
    arrived behind the prompt is still unread and nothing was written. *)
Theorem line_buffered_banner_is_captured
  (nl : byte) (batches : list (list bytes)) (lines : list bytes)
  (tail rest : bytes) (more : list bytes) (decoded : text)
  (extra : nat) (clean : option bool) (self : Backend) :
  NORMAL_PROMPT <> [] ->
  ~ In nl NORMAL_PROMPT ->
  (forall s, exists s',
      _check_for_side_commands s = (Ret tt, s') /\
      _connection s' = _connection s) ->
  Forall (Forall (complete_line nl NORMAL_PROMPT)) batches ->
  Forall (complete_line nl NORMAL_PROMPT) lines ->
  ~ In nl tail -> only_at_end NORMAL_PROMPT (tail ++ NORMAL_PROMPT) ->
  Conn.read_buffer (_connection self) = [] ->
  Conn.arrivals (_connection self) =
    map (@concat byte) batches ++
    (concat lines ++ tail ++ NORMAL_PROMPT ++ rest) :: more ->
  decode (join (concat batches ++ lines ++ [tail])) = Some decoded ->
  exists self',
    _process_until_initial_prompt [nl] NORMAL_PROMPT ends_overlap decode
      _check_for_side_commands
      (iterations_for batches + (length lines + 1) + extra) clean self =
      (Ret tt, self') /\
    _original_welcome_text self' = Some (replace decoded CRLF [10%N]) /\
    _welcome_text self' =
      Some (replace (replace decoded CRLF [10%N]) boilerplate_line []) /\
    Conn.read_buffer (_connection self') = rest /\
    Conn.arrivals (_connection self') = more /\
    Conn.written (_connection self') = Conn.written (_connection self).
Proof.
  intros Hne Hnp Hcheck Hbatches Hlines Hnl Hend Hb Ha Hdec.
  destruct (loop_line_buffered nl NORMAL_PROMPT ends_overlap
              _check_for_side_commands collect_output
              (fun chunk _ => chunk) (@snd Backend (list bytes)) Hne Hnp
              (fun s l =>
                 match Hcheck s with
                 | ex_intro _ s' (conj H1 H2) =>
                     ex_intro _ s' (conj H1 (conj H2 eq_refl))
                 end)
              collect_output_records (fun _ _ _ => eq_refl)
              "stdout" batches lines tail rest more (self, [])
              Hbatches Hlines Hnl Hend Hb Ha)
    as ([self1 output] & Hl & Hcalls & Hb1 & Ha1 & Hw1).
  cbn [fst snd app] in *; rewrite map_id in Hcalls; subst output.
  exists (set_welcome (replace decoded CRLF [10%N])
            (replace (replace decoded CRLF [10%N]) boilerplate_line [])
            self1).
  split; [|repeat split; assumption].
  erewrite process_until_initial_prompt_stores
    by (rewrite scan_loop_add, Hl; reflexivity).
  cbn beta iota; rewrite Hdec; reflexivity.
Qed.

(** X3.  The welcome text is what the child sent before its first prompt.
    When the side-command check does not read from the connection and
    [_process_until_initial_prompt] completes, the bytes that its reads
    returned are a banner followed by the prompt marker, nothing else; the
    banner decodes, and the raw welcome text is its decoding with CR LF
    turned into LF. *)
Theorem welcome_text_is_what_was_read
  (LF : bytes) (fuel : nat) (clean : option bool) (self self' : Backend) :
  NORMAL_PROMPT <> [] ->
  (forall s s' u,
      _check_for_side_commands s = (Ret u, s') ->
      Conn.delivered (_connection s') = Conn.delivered (_connection s)) ->
  _process_until_initial_prompt LF NORMAL_PROMPT ends_overlap decode
    _check_for_side_commands fuel clean self = (Ret tt, self') ->
  exists banner decoded,
    concat (Conn.delivered (_connection self')) =
      concat (Conn.delivered (_connection self)) ++ banner ++ NORMAL_PROMPT /\
    decode banner = Some decoded /\
    _original_welcome_text self' = Some (replace decoded CRLF [10%N]) /\
    _welcome_text self' =
      Some (replace (replace decoded CRLF [10%N]) boilerplate_line []).
Proof.
  intros Hne Hcheck H.
  destruct (scan_loop LF NORMAL_PROMPT ends_overlap
              (on_self _check_for_side_commands)
              (fun closers =>
                 on_self (on_connection (Conn.soft_read_until closers)))
              (fun n => on_self (on_connection (Conn.soft_read n)))
              collect_output fuel "stdout" [] (self, []))
    as [status [self1 output]] eqn:Hl.
  rewrite (process_until_initial_prompt_stores _ _ clean _ _ _ _ Hl) in H.
  assert (Hobs : forall (s s' : Backend * list bytes) (u : unit),
             on_self _check_for_side_commands s = (Ret u, s') ->
             Repl.received s' = Repl.received s /\
             Repl.emitted s' = Repl.emitted s).
  { intros [s l] s' u; unfold on_self; cbn [fst snd].
    destruct (_check_for_side_commands s) as [o s1] eqn:Hc.
    intros E; injection E as -> <-.
    unfold Repl.received, Repl.emitted; cbn [fst snd].
    rewrite (Hcheck _ _ _ Hc); auto. }
  pose proof (scan_loop_conserves LF NORMAL_PROMPT ends_overlap _ _ _ _
                Repl.received Repl.emitted Hobs
                repl_soft_read_until_observed repl_soft_read_observed
                repl_consumer_observed Hne _ _ _ (self, []) _ _ _ Hl
                (ex_intro _ [] (ex_intro _ []
                   (conj (eq_sym (app_nil_r _))
                      (conj (eq_sym (app_nil_r _)) eq_refl))))) as K.
  destruct status as [p|[v|e|]]; try discriminate.
  destruct K as (_ & E & R & He & Hr & HER).
  destruct (decode (join output)) as [decoded|] eqn:Hd; [|discriminate].
  injection H as <-.
  unfold Repl.received, Repl.emitted in He, Hr; cbn [fst snd concat app] in He, Hr.
  exists (join output), decoded; split; [|auto].
  cbn [set_welcome _connection]; unfold join.
  rewrite Hr, <- HER, He; reflexivity.
Qed.

(** X4.  What the cleaning of the welcome text does.  After a completed
    [_process_until_initial_prompt] both variants are assigned; the cleaned
    one is not longer than the raw one; it is the raw one when the
    boilerplate line does not occur in it, and when the line occurs once, it
    is the raw text with that line cut out. *)
Theorem welcome_text_cleaning
  (LF : bytes) (fuel : nat) (clean : option bool) (self self' : Backend) :
  _process_until_initial_prompt LF NORMAL_PROMPT ends_overlap decode
    _check_for_side_commands fuel clean self = (Ret tt, self') ->
  exists raw cleaned,
    _original_welcome_text self' = Some raw /\
    _welcome_text self' = Some cleaned /\
    length cleaned <= length raw /\
    (~ text_occurs boilerplate_line raw -> cleaned = raw) /\
    (forall u v,
        raw = u ++ boilerplate_line ++ v ->
        (forall a t, u ++ boilerplate_line = a ++ boilerplate_line ++ t ->
                     t = []) ->
        ~ text_occurs boilerplate_line v ->
        cleaned = u ++ v).
Proof.
  intros H.
  destruct (process_until_initial_prompt_captures _ _ _ _ _ _ _ _ _ H)
    as (v & self1 & output & decoded & _ & _ & Hraw & Hclean).
  exists (replace decoded CRLF [10%N]),
    (replace (replace decoded CRLF [10%N]) boilerplate_line []).
  split; [exact Hraw|split; [exact Hclean|split; [|split]]].
  - apply replace_shrinks; discriminate.
  - apply replace_absent.
  - intros u w -> Hfirst Hrest.
    rewrite replace_first by (discriminate || exact Hfirst).
    rewrite replace_absent by exact Hrest; reflexivity.
Qed.

(** X14.  A capture that fails assigns nothing.  When the side-command
    check leaves the welcome text alone and [_process_until_initial_prompt]
    does not complete, because the scan raised or because the banner does
    not decode, both variants of the welcome text are as they were; a banner
    that does not decode ends the capture in [UnicodeDecodeError]. *)
Theorem failed_capture_assigns_nothing
  (LF : bytes) (fuel : nat) (clean : option bool) (self : Backend) :
  preserves welcome_texts _check_for_side_commands ->
  let capture :=
    _process_until_initial_prompt LF NORMAL_PROMPT ends_overlap decode
      _check_for_side_commands fuel clean self in
  let scan :=
    forward_output LF NORMAL_PROMPT ends_overlap _check_for_side_commands
      collect_output fuel "stdout" (self, []) in
  (fst capture <> Ret tt ->
   welcome_texts (snd capture) = welcome_texts self) /\
  (forall v, fst scan = Ret v -> decode (join (snd (snd scan))) = None ->
             fst capture = Raise UnicodeDecodeError).
Proof.
  intros Hc; cbv zeta.
  pose proof (forward_output_preserves LF NORMAL_PROMPT ends_overlap
                _check_for_side_commands collect_output fuel "stdout" Hc
                (fun data name st => eq_refl) (self, [])) as P.
  unfold _process_until_initial_prompt.
  destruct (forward_output LF NORMAL_PROMPT ends_overlap
              _check_for_side_commands collect_output fuel "stdout"
              (self, [])) as [[v|e|] [self1 output]];
    cbn [fst snd] in *; (split; [intros Hf | intros v' Hv Hd]);
    try discriminate; try exact P.
  - destruct (decode (join output)); [destruct Hf; reflexivity | exact P].
  - rewrite Hd; reflexivity.
Qed.

End CaptureFacts.

(** ** Submissions *)

Section SubmissionFacts.

Variables NORMAL_PROMPT EOT : bytes.

Local Abbreviation execute := (_execute_with_consumer NORMAL_PROMPT EOT).

(** X5.  A submission goes on only as far as the interpreter answers.  The
    paste-mode command is always written.  The script is written only when
    the paste-mode line prefix came back, and the end of transmission, which
    makes the interpreter run the script, only when the sentinel came back
    as well.  When one of the four markers does not come, the submission
    ends in the protocol error, the consumer is not called, and nothing of
    the backend but its connection has changed; when all four come, the
    consumer is called once, on what the last read returned without the
    length of the prompt, and what follows the prompt stays unread. *)
Theorem submission_advances_with_the_answers (script : bytes)
  (output_consumer : bytes -> string -> M Backend unit) (self : Backend) :
  let c0 := _connection self in
  let failed_after (wrote : list bytes) :=
    exists c,
      execute script output_consumer self =
        (Raise ProtocolViolation, set_connection c self) /\
      Conn.written c = Conn.written c0 ++ wrote in
  match split_at_first PASTE_MODE_LINE_PREFIX (Conn.stream c0) with
  | None => failed_after [PASTE_MODE_CMD]
  | Some (_, rest1) =>
      match split_at_first sentinel rest1 with
      | None => failed_after [PASTE_MODE_CMD; script ++ sentinel]
      | Some (_, rest2) =>
          match split_at_first newline rest2 with
          | None => failed_after [PASTE_MODE_CMD; script ++ sentinel; EOT]
          | Some (_, rest3) =>
              match split_at_first NORMAL_PROMPT rest3 with
              | None =>
                  failed_after [PASTE_MODE_CMD; script ++ sentinel; EOT]
              | Some (r4, rest) =>
                  exists c,
                    execute script output_consumer self =
                      output_consumer
                        (slice_to_neg r4 (length NORMAL_PROMPT)) "stdout"
                        (set_connection c self) /\
                    Conn.written c =
                      Conn.written c0 ++
                      [PASTE_MODE_CMD; script ++ sentinel; EOT] /\
                    Conn.stream c = rest
              end
          end
      end
  end.
Proof.
  cbv zeta.
  unfold _execute_with_consumer.
  set (c0 := _connection self) in *.
  set (c1 := snd (Conn.write PASTE_MODE_CMD c0)).
  set (c2 := snd (Conn.read_until PASTE_MODE_LINE_PREFIX c1)).
  set (c3 := snd (Conn.write (script ++ sentinel) c2)).
  set (c4 := snd (Conn.read_until sentinel c3)).
  set (c5 := snd (Conn.write EOT c4)).
  set (c6 := snd (Conn.read_until newline c5)).
  set (c7 := snd (Conn.read_until NORMAL_PROMPT c6)).
  assert (W1 : Conn.written c1 = Conn.written c0 ++ [PASTE_MODE_CMD])
    by reflexivity.
  rewrite bind_write.
  destruct (split_at_first PASTE_MODE_LINE_PREFIX (Conn.stream c0))
    as [[r1 rest1]|] eqn:H1.
  2:{ exists c2; split; [rewrite bind_read_missing by exact H1; reflexivity|].
      destruct (read_until_missing PASTE_MODE_LINE_PREFIX c1 H1) as (_ & W & _).
      fold c2 in W; rewrite W; exact W1. }
  rewrite (bind_read_found PASTE_MODE_LINE_PREFIX _ _ r1 rest1) by exact H1.
  destruct (read_until_found PASTE_MODE_LINE_PREFIX c1 r1 rest1 H1)
    as (_ & S2 & W2 & _).
  fold c2 in S2, W2.
  assert (W3 : Conn.written c3 =
               Conn.written c0 ++ [PASTE_MODE_CMD; script ++ sentinel]).
  { unfold c3; rewrite write_written, W2, W1, <- app_assoc; reflexivity. }
  rewrite bind_write.
  cbn [_connection set_connection]; fold c0 c1 c2 c3.
  destruct (split_at_first sentinel rest1) as [[r2 rest2]|] eqn:H2.
  2:{ assert (H2' : split_at_first sentinel (Conn.stream c3) = None)
        by (unfold c3; rewrite write_stream, S2; exact H2).
      exists c4; split; [rewrite bind_read_missing by exact H2'; reflexivity|].
      destruct (read_until_missing sentinel c3 H2') as (_ & W & _).
      fold c4 in W; rewrite W; exact W3. }
  assert (H2' : split_at_first sentinel (Conn.stream c3) = Some (r2, rest2))
    by (unfold c3; rewrite write_stream, S2; exact H2).
  rewrite (bind_read_found sentinel _ _ r2 rest2) by exact H2'.
  destruct (read_until_found sentinel c3 r2 rest2 H2') as (_ & S4 & W4 & _).
  fold c4 in S4, W4.
  assert (W5 : Conn.written c5 =
               Conn.written c0 ++ [PASTE_MODE_CMD; script ++ sentinel; EOT]).
  { unfold c5; rewrite write_written, W4, W3, <- app_assoc; reflexivity. }
  rewrite bind_write.
  cbn [_connection set_connection]; fold c0 c1 c2 c3 c4 c5.
  destruct (split_at_first newline rest2) as [[r3 rest3]|] eqn:H3.
  2:{ assert (H3' : split_at_first newline (Conn.stream c5) = None)
        by (unfold c5; rewrite write_stream, S4; exact H3).
      exists c6; split; [rewrite bind_read_missing by exact H3'; reflexivity|].
      destruct (read_until_missing newline c5 H3') as (_ & W & _).
      fold c6 in W; rewrite W; exact W5. }
  assert (H3' : split_at_first newline (Conn.stream c5) = Some (r3, rest3))
    by (unfold c5; rewrite write_stream, S4; exact H3).
  rewrite (bind_read_found newline _ _ r3 rest3) by exact H3'.
  destruct (read_until_found newline c5 r3 rest3 H3') as (_ & S6 & W6 & _).
  fold c6 in S6, W6.
  cbn [_connection set_connection]; fold c0 c1 c2 c3 c4 c5 c6.
  destruct (split_at_first NORMAL_PROMPT rest3) as [[r4 rest]|] eqn:H4.
  2:{ assert (H4' : split_at_first NORMAL_PROMPT (Conn.stream c6) = None)
        by (rewrite S6; exact H4).
      exists c7; split; [rewrite bind_read_missing by exact H4'; reflexivity|].
      destruct (read_until_missing NORMAL_PROMPT c6 H4') as (_ & W & _).
      fold c7 in W; rewrite W, W6; exact W5. }
  assert (H4' : split_at_first NORMAL_PROMPT (Conn.stream c6) = Some (r4, rest))
    by (rewrite S6; exact H4).
  rewrite (bind_read_found NORMAL_PROMPT _ _ r4 rest) by exact H4'.
  destruct (read_until_found NORMAL_PROMPT c6 r4 rest H4')
    as (_ & S7 & W7 & _).
  fold c7 in S7, W7.
  exists c7; split; [reflexivity|split].
  - rewrite W7, W6; exact W5.
  - exact S7.
Qed.

(** A submission in a well-framed exchange, its output sent on as an output
    event. *)
Lemma execute_sends_output (script pre ack output rest : bytes)
  (self : Backend) :
  NORMAL_PROMPT <> [] ->
  ~ occurs sentinel script ->
  well_framed NORMAL_PROMPT pre ack output ->
  Conn.stream (_connection self) =
    paste_exchange NORMAL_PROMPT pre script ack output rest ->
  exists self',
    execute script _send_output self = (Ret tt, self') /\
    outbox self' = outbox self ++ [ProgramOutput "stdout" output] /\
    welcome_texts self' = welcome_texts self /\
    _executable self' = _executable self /\
    Conn.written (_connection self') =
      Conn.written (_connection self) ++
      [PASTE_MODE_CMD; script ++ sentinel; EOT] /\
    Conn.delivered (_connection self') =
      Conn.delivered (_connection self) ++
      [pre ++ PASTE_MODE_LINE_PREFIX; script ++ sentinel;
       ack ++ newline; output ++ NORMAL_PROMPT] /\
    Conn.stream (_connection self') = rest.
Proof.
  intros Hne Hs Hw Hstream.
  pose proof (four_reads_exchange NORMAL_PROMPT pre script ack output rest
                Hw Hs) as H4.
  rewrite <- Hstream in H4.
  destruct (execute_found NORMAL_PROMPT EOT script _send_output self
              _ _ _ _ _ H4) as (c & He & Hd & Hwr & Hst).
  rewrite slice_to_neg_app in He by exact Hne.
  eexists; split; [exact He|].
  repeat split; assumption.
Qed.

(** X6.  Consecutive submissions do not interfere.  When the interpreter
    answers two scripts that do not hold the sentinel, one exchange after
    the other, each well framed, submitting the first and then the second
    sends the output of the first and then the output of the second, each
    as one output event on stdout, and leaves unread what followed the
    second prompt; the six writes are the two framed scripts, in order. *)
Theorem consecutive_submissions_keep_their_output
  (script1 pre1 ack1 output1 script2 pre2 ack2 output2 rest : bytes)
  (self : Backend) :
  NORMAL_PROMPT <> [] ->
  ~ occurs sentinel script1 -> ~ occurs sentinel script2 ->
  well_framed NORMAL_PROMPT pre1 ack1 output1 ->
  well_framed NORMAL_PROMPT pre2 ack2 output2 ->
  Conn.stream (_connection self) =
    paste_exchange NORMAL_PROMPT pre1 script1 ack1 output1
      (paste_exchange NORMAL_PROMPT pre2 script2 ack2 output2 rest) ->
  exists self',
    (execute script1 _send_output ;; execute script2 _send_output) self =
      (Ret tt, self') /\
    outbox self' =
      outbox self ++
      [ProgramOutput "stdout" output1; ProgramOutput "stdout" output2] /\
    Conn.written (_connection self') =
      Conn.written (_connection self) ++
      [PASTE_MODE_CMD; script1 ++ sentinel; EOT;
       PASTE_MODE_CMD; script2 ++ sentinel; EOT] /\
    Conn.stream (_connection self') = rest /\
    welcome_texts self' = welcome_texts self.
Proof.
  intros Hne Hs1 Hs2 Hw1 Hw2 Hstream.
  destruct (execute_sends_output script1 pre1 ack1 output1 _ self
              Hne Hs1 Hw1 Hstream)
    as (self1 & He1 & Ho1 & Ht1 & _ & Hwr1 & _ & Hst1).
  destruct (execute_sends_output script2 pre2 ack2 output2 rest self1
              Hne Hs2 Hw2 Hst1)
    as (self2 & He2 & Ho2 & Ht2 & _ & Hwr2 & _ & Hst2).
  exists self2; split; [|split; [|split; [|split]]].
  - unfold bind at 1; rewrite He1; exact He2.
  - rewrite Ho2, Ho1, <- app_assoc; reflexivity.
  - rewrite Hwr2, Hwr1, <- app_assoc; reflexivity.
  - exact Hst2.
  - rewrite Ht2; exact Ht1.
Qed.

(** With nothing more to arrive, a submission reads from the buffer
    alone. *)
Lemma execute_keeps_no_arrivals (script : bytes)
  (output_consumer : bytes -> string -> M Backend unit) (self : Backend) :
  (forall data name s,
     _connection (snd (output_consumer data name s)) = _connection s) ->
  Conn.arrivals (_connection self) = [] ->
  Conn.arrivals
    (_connection (snd (execute script output_consumer self))) = [].
Proof.
  intros Ho.
  set (idle := fun s : Backend => Conn.arrivals (_connection s) = []).
  assert (Hbind : forall (A B : Type) (m : M Backend A) (k : A -> M Backend B),
             (forall s, idle s -> idle (snd (m s))) ->
             (forall a s, idle s -> idle (snd (k a s))) ->
             forall s, idle s -> idle (snd (bind m k s))).
  { intros A B m k Hm Hk s Hs; unfold bind.
    specialize (Hm s Hs); destruct (m s) as [[a|e|] s1]; cbn [snd] in *;
      [apply Hk; exact Hm | exact Hm | exact Hm]. }
  assert (Hwrite : forall data s,
             idle s -> idle (snd (on_connection (Conn.write data) s)))
    by (intros data s Hs; exact Hs).
  assert (Hread : forall pat s,
             idle s -> idle (snd (on_connection (Conn.read_until pat) s))).
  { intros pat s Hs; unfold idle, on_connection, Conn.read_until in *.
    rewrite Hs; cbn [Conn.await].
    destruct (split_at_first pat (Conn.read_buffer (_connection s)))
      as [[r rest]|]; reflexivity. }
  unfold _execute_with_consumer; fold (idle self).
  change (idle self ->
          idle (snd ((on_connection (Conn.write PASTE_MODE_CMD) ;;
                      on_connection (Conn.read_until PASTE_MODE_LINE_PREFIX) ;;
                      on_connection (Conn.write (script ++ sentinel)) ;;
                      on_connection (Conn.read_until sentinel) ;;
                      on_connection (Conn.write EOT) ;;
                      on_connection (Conn.read_until newline) ;;
                      data <- on_connection (Conn.read_until NORMAL_PROMPT) ;;
                      output_consumer
                        (slice_to_neg data (length NORMAL_PROMPT)) "stdout")
                       self))).
  apply Hbind; [apply Hwrite | intros _].
  apply Hbind; [apply Hread | intros _].
  apply Hbind; [apply Hwrite | intros _].
  apply Hbind; [apply Hread | intros _].
  apply Hbind; [apply Hwrite | intros _].
  apply Hbind; [apply Hread | intros _].
  apply Hbind; [apply Hread | intros data s Hs].
  unfold idle; rewrite Ho; exact Hs.
Qed.

(** X15.  What the child sent behind the prompt of a submission is
    forwarded by the next [_forward_unexpected_output].  When everything
    that the interpreter answers to a script without the sentinel is
    buffered, in a well-framed exchange, the submission sends the program's
    output, and the forwarding that follows sends what came behind the
    prompt: without its last prompt marker when it ends with one, as it is
    when it does not, and nothing when nothing came; afterwards nothing is
    left to read. *)
Theorem trailing_output_is_forwarded_after_a_submission
  (script pre ack output rest : bytes) (stream_name : string)
  (self : Backend) :
  NORMAL_PROMPT <> [] ->
  ~ occurs sentinel script ->
  well_framed NORMAL_PROMPT pre ack output ->
  Conn.arrivals (_connection self) = [] ->
  Conn.read_buffer (_connection self) =
    paste_exchange NORMAL_PROMPT pre script ack output rest ->
  exists self',
    (execute script _send_output ;;
     _forward_unexpected_output NORMAL_PROMPT stream_name) self =
      (Ret tt, self') /\
    outbox self' =
      outbox self ++
      ProgramOutput "stdout" output ::
      (if endswith rest NORMAL_PROMPT
       then [ProgramOutput "stdout"
               (slice_to_neg rest (length NORMAL_PROMPT))]
       else if is_empty rest then []
       else [ProgramOutput "stdout" rest]) /\
    Conn.stream (_connection self') = [].
Proof.
  intros Hne Hs Hw Ha Hb.
  assert (Hstream : Conn.stream (_connection self) =
                    paste_exchange NORMAL_PROMPT pre script ack output rest).
  { unfold Conn.stream; rewrite Ha, Hb; apply app_nil_r. }
  destruct (execute_sends_output script pre ack output rest self
              Hne Hs Hw Hstream)
    as (self1 & He & Ho & _ & _ & _ & _ & Hst).
  pose proof (execute_keeps_no_arrivals script _send_output self
                (fun data name s => eq_refl) Ha) as Ha1.
  rewrite He in Ha1; cbn [snd] in Ha1.
  assert (Hb1 : Conn.read_buffer (_connection self1) = rest).
  { unfold Conn.stream in Hst; rewrite Ha1 in Hst; cbn [concat] in Hst.
    rewrite app_nil_r in Hst; exact Hst. }
  unfold bind at 1; rewrite He.
  unfold _forward_unexpected_output.
  rewrite bind_on_connection.
  unfold Conn.read_all, Conn.absorb; rewrite Ha1, Hb1.
  cbn [fst snd Conn.deliver].
  destruct (endswith rest NORMAL_PROMPT).
  - eexists; split; [reflexivity|split; [|reflexivity]].
    cbn [outbox set_connection]; rewrite Ho, <- app_assoc; reflexivity.
  - destruct rest as [|x rest]; cbn [is_empty negb].
    + eexists; split; [reflexivity|split; [|reflexivity]].
      cbn [outbox set_connection]; exact Ho.
    + eexists; split; [reflexivity|split; [|reflexivity]].
      cbn [outbox set_connection]; rewrite Ho, <- app_assoc; reflexivity.
Qed.

End SubmissionFacts.

(** ** The calls of a scan *)

Lemma logged_traced {St A : Type} (event : A -> scan_event) (m : M St A)
  (s s' : St * list scan_event) (a : A) :
  logged event m s = (Ret a, s') -> snd s' = snd s ++ [event a].
Proof.
  unfold logged; destruct (m (fst s)) as [[a'|e|] s1]; try discriminate.
  intros H; injection H as <- <-; reflexivity.
Qed.

Section ScanTrace.

Context {St : Type}.
Variables LF NORMAL_PROMPT : bytes.
Variable ends_overlap : bytes -> bytes -> bool.
Variable _check_for_side_commands : M St unit.
Variable soft_read_until : list bytes -> M St bytes.
Variable soft_read : nat -> M St bytes.
Variable output_consumer : bytes -> string -> M St unit.

(** The calls made so far, as a state shows them. *)
Variable trace : St -> list scan_event.

Hypothesis check_traced : forall s s' u,
  _check_for_side_commands s = (Ret u, s') ->
  trace s' = trace s ++ [SideCommandCheck].
Hypothesis soft_read_until_traced : forall closers s s' data,
  soft_read_until closers s = (Ret data, s') ->
  trace s' = trace s ++ [MainRead data].
Hypothesis soft_read_traced : forall n s s' data,
  soft_read n s = (Ret data, s') ->
  trace s' = trace s ++ [Probe data].
Hypothesis consumer_traced : forall data name s s' u,
  output_consumer data name s = (Ret u, s') ->
  trace s' = trace s ++ [Chunk data name].

Local Abbreviation iteration :=
  (scan_iteration LF NORMAL_PROMPT ends_overlap _check_for_side_commands
     soft_read_until soft_read output_consumer).
Local Abbreviation loop :=
  (scan_loop LF NORMAL_PROMPT ends_overlap _check_for_side_commands
     soft_read_until soft_read output_consumer).

(** The calls of one pass through the loop body, in the order of the code:
    the check, the main read, then nothing more when the read was empty; or
    one call of the consumer; or the probe, followed by the consumer when
    the probe came back empty. *)
Lemma iteration_trace (stream_name : string) (pending : bytes) (s s' : St)
  (ctl : loop_ctl) :
  iteration stream_name pending s = (Ret ctl, s') ->
  exists data calls,
    trace s' = trace s ++ SideCommandCheck :: MainRead data :: calls /\
    ((data = [] /\ calls = [] /\ ctl = Continue pending) \/
     (data <> [] /\ ctl = Continue [] /\
      exists probed,
        calls = probed ++ [Chunk (pending ++ data) stream_name] /\
        (probed = [] \/ probed = [Probe []]) /\
        (endswith (pending ++ data) LF = true \/
         endswith (pending ++ data) NORMAL_PROMPT = false)) \/
     (data <> [] /\ ctl = Return NORMAL_PROMPT /\
      calls = [Chunk (slice_to_neg (pending ++ data) (length NORMAL_PROMPT))
                 stream_name] /\
      endswith (pending ++ data) LF = false /\
      endswith (pending ++ data) NORMAL_PROMPT = true) \/
     (data <> [] /\
      exists follow_up,
        follow_up <> [] /\ calls = [Probe follow_up] /\
        ctl = Continue ((pending ++ data) ++ follow_up) /\
        endswith (pending ++ data) LF = false /\
        endswith (pending ++ data) NORMAL_PROMPT = false /\
        ends_overlap (pending ++ data) NORMAL_PROMPT = true)).
Proof.
  unfold scan_iteration, bind; intros H.
  destruct (_check_for_side_commands s) as [[u|e1|] s1] eqn:Hc;
    try discriminate.
  pose proof (check_traced _ _ _ Hc) as T1.
  destruct (soft_read_until _ s1) as [[d|e2|] s2] eqn:Hr; try discriminate.
  pose proof (soft_read_until_traced _ _ _ _ Hr) as T2.
  rewrite T1, <- app_assoc in T2; cbn [app] in T2.
  exists d.
  destruct d as [|c d]; cbn [is_empty] in H.
  { injection H as <- <-; exists []; split; [exact T2|left; auto]. }
  set (p := pending ++ c :: d) in *.
  assert (Hd : c :: d <> []) by discriminate.
  unfold scan_branch in H.
  destruct (endswith p LF) eqn:E1.
  { destruct (output_consumer p stream_name s2) as [[u'|e3|] s3] eqn:Ho;
      try discriminate.
    injection H as <- <-; pose proof (consumer_traced _ _ _ _ _ Ho) as T3.
    eexists; split; [rewrite T3, T2, <- app_assoc; reflexivity|].
    right; left; split; [exact Hd|split; [reflexivity|]].
    exists []; auto. }
  destruct (endswith p NORMAL_PROMPT) eqn:E2.
  { destruct (output_consumer _ stream_name s2) as [[u'|e3|] s3] eqn:Ho;
      try discriminate.
    injection H as <- <-; pose proof (consumer_traced _ _ _ _ _ Ho) as T3.
    eexists; split; [rewrite T3, T2, <- app_assoc; reflexivity|].
    right; right; left; auto. }
  destruct (ends_overlap p NORMAL_PROMPT) eqn:E3.
  { destruct (soft_read 1 s2) as [[f|e3|] s3] eqn:Hp; try discriminate.
    pose proof (soft_read_traced _ _ _ _ Hp) as T3.
    destruct f as [|c' f]; cbn [is_empty] in H.
    - destruct (output_consumer p stream_name s3) as [[u'|e4|] s4] eqn:Ho;
        try discriminate.
      injection H as <- <-; pose proof (consumer_traced _ _ _ _ _ Ho) as T4.
      eexists; split;
        [rewrite T4, T3, T2, <- !app_assoc; reflexivity|].
      right; left; split; [exact Hd|split; [reflexivity|]].
      exists [Probe []]; auto.
    - injection H as <- <-.
      eexists; split; [rewrite T3, T2, <- app_assoc; reflexivity|].
      right; right; right; split; [exact Hd|].
      exists (c' :: f); repeat split; auto; discriminate. }
  destruct (output_consumer p stream_name s2) as [[u'|e3|] s3] eqn:Ho;
    try discriminate.
  injection H as <- <-; pose proof (consumer_traced _ _ _ _ _ Ho) as T3.
  eexists; split; [rewrite T3, T2, <- app_assoc; reflexivity|].
  right; left; split; [exact Hd|split; [reflexivity|]].
  exists []; auto.
Qed.

Local Abbreviation count := (fun (f : scan_event -> bool) (events : list scan_event) =>
                               length (filter f events)).

(** The number of calls of each kind in one pass. *)
Lemma iteration_counts (stream_name : string) (pending : bytes) (s s' : St)
  (ctl : loop_ctl) :
  iteration stream_name pending s = (Ret ctl, s') ->
  exists events,
    trace s' = trace s ++ events /\
    count is_check events = 1 /\
    count is_main_read events = 1 /\
    count is_probe events <= 1 /\
    count is_chunk events <= 1 /\
    count is_probe events + count is_chunk events + 2 = length events.
Proof.
  intros H; destruct (iteration_trace _ _ _ _ _ H) as (d & calls & T & C).
  eexists; split; [exact T|].
  destruct C as [(_ & -> & _)|[(_ & _ & probed & -> & [->| ->] & _)|
                 [(_ & _ & -> & _)|(_ & f & _ & -> & _)]]];
    cbn; repeat split; lia.
Qed.

Lemma count_app (f : scan_event -> bool) (x y : list scan_event) :
  count f (x ++ y) = count f x + count f y.
Proof. cbn beta; rewrite filter_app, length_app; reflexivity. Qed.

(** X7.  Every iteration of the scan checks for side commands once and
    reads once.  While the loop is running after [fuel] iterations, the
    calls made since the start hold [fuel] side-command checks and [fuel]
    main reads, at most one probe and at most one call of the consumer for
    each iteration, and nothing else; when the loop has returned, the same
    holds with the number of iterations that it took, at least one and at
    most [fuel]. *)
Theorem scan_checks_once_per_read (fuel : nat) (stream_name : string)
  (pending : bytes) (s s' : St) (status : scan_status) :
  loop fuel stream_name pending s = (status, s') ->
  let counted events iterations :=
    trace s' = trace s ++ events /\
    count is_check events = iterations /\
    count is_main_read events = iterations /\
    count is_probe events <= iterations /\
    count is_chunk events <= iterations /\
    length events =
      2 * iterations + count is_probe events + count is_chunk events in
  match status with
  | Running _ => exists events, counted events fuel
  | Stopped (Ret _) =>
      exists events iterations,
        1 <= iterations <= fuel /\ counted events iterations
  | Stopped _ => True
  end.
Proof.
  cbv zeta.
  revert pending s; induction fuel as [|fuel IH]; intros pending s H.
  - injection H as <- <-; exists []; rewrite app_nil_r.
    repeat split; auto.
  - rewrite scan_loop_step in H.
    destruct (iteration stream_name pending s) as [[[p'|v]|e1|] s1] eqn:Hi.
    + destruct (iteration_counts _ _ _ _ _ Hi)
        as (ev1 & T1 & C1 & R1 & P1 & K1 & L1).
      specialize (IH p' s1 H).
      destruct status as [p|[v|e|]]; try exact I.
      * destruct IH as (ev2 & T2 & C2 & R2 & P2 & K2 & L2).
        exists (ev1 ++ ev2).
        rewrite !count_app, length_app, T2, T1, <- app_assoc.
        cbn beta in *; repeat split; lia.
      * destruct IH as (ev2 & n & Hn & T2 & C2 & R2 & P2 & K2 & L2).
        exists (ev1 ++ ev2), (S n).
        rewrite !count_app, length_app, T2, T1, <- app_assoc.
        cbn beta in *; repeat split; lia.
    + injection H as <- <-.
      destruct (iteration_counts _ _ _ _ _ Hi)
        as (ev1 & T1 & C1 & R1 & P1 & K1 & L1).
      exists ev1, 1; cbn beta in *; repeat split; try lia; exact T1.
    + injection H as <- <-; exact I.
    + injection H as <- <-; exact I.
Qed.

(** The chunks of one pass. *)
Lemma iteration_chunks (stream_name : string) (pending : bytes) (s s' : St)
  (ctl : loop_ctl) :
  iteration stream_name pending s = (Ret ctl, s') ->
  exists events,
    trace s' = trace s ++ events /\
    match ctl with
    | Continue _ =>
        Forall (fun chunk =>
                  chunk <> [] /\
                  (endswith chunk LF = true \/
                   endswith chunk NORMAL_PROMPT = false))
               (chunks_of events)
    | Return _ => exists out, chunks_of events = [out]
    end.
Proof.
  intros H; destruct (iteration_trace _ _ _ _ _ H) as (d & calls & T & C).
  eexists; split; [exact T|].
  destruct C as [(_ & -> & ->)|[(Hd & -> & probed & -> & Hp & He)|
                 [(_ & -> & -> & _)|(_ & f & _ & -> & -> & _)]]].
  - constructor.
  - assert (Hne : pending ++ d <> []).
    { intros E; apply app_eq_nil in E as [_ E]; contradiction. }
    destruct Hp as [-> | ->]; cbn [app chunks_of];
      (constructor; [split; [exact Hne | exact He] | constructor]).
  - eexists; reflexivity.
  - constructor.
Qed.

Lemma chunks_of_app (x y : list scan_event) :
  chunks_of (x ++ y) = chunks_of x ++ chunks_of y.
Proof.
  induction x as [|[| | |] x IH]; cbn [app chunks_of]; try exact IH.
  - reflexivity.
  - rewrite IH; reflexivity.
Qed.

(** X8.  The consumer is never handed an empty chunk while the scan goes
    on, nor one that ends with the prompt marker without ending with LF.
    While the loop is running, every chunk handed over since the start is
    non-empty and ends with LF or does not end with the prompt marker; when
    the loop has returned, this holds of every chunk but the last one, which
    is what was pending before the prompt and may be empty. *)
Theorem scan_chunks_are_not_empty (fuel : nat) (stream_name : string)
  (pending : bytes) (s s' : St) (status : scan_status) :
  loop fuel stream_name pending s = (status, s') ->
  let proper chunk :=
    chunk <> [] /\
    (endswith chunk LF = true \/ endswith chunk NORMAL_PROMPT = false) in
  match status with
  | Running _ =>
      exists events,
        trace s' = trace s ++ events /\ Forall proper (chunks_of events)
  | Stopped (Ret _) =>
      exists events chunks out,
        trace s' = trace s ++ events /\
        chunks_of events = chunks ++ [out] /\ Forall proper chunks
  | Stopped _ => True
  end.
Proof.
  cbv zeta.
  revert pending s; induction fuel as [|fuel IH]; intros pending s H.
  - injection H as <- <-; exists []; rewrite app_nil_r; split; constructor.
  - rewrite scan_loop_step in H.
    destruct (iteration stream_name pending s) as [[[p'|v]|e1|] s1] eqn:Hi.
    + destruct (iteration_chunks _ _ _ _ _ Hi) as (ev1 & T1 & F1).
      specialize (IH p' s1 H).
      destruct status as [p|[v|e|]]; try exact I.
      * destruct IH as (ev2 & T2 & F2).
        exists (ev1 ++ ev2); rewrite T2, T1, <- app_assoc, chunks_of_app.
        split; [reflexivity | apply Forall_app; auto].
      * destruct IH as (ev2 & chunks & out & T2 & E2 & F2).
        exists (ev1 ++ ev2), (chunks_of ev1 ++ chunks), out.
        rewrite T2, T1, <- !app_assoc, chunks_of_app, E2.
        split; [reflexivity|split; [reflexivity | apply Forall_app; auto]].
    + injection H as <- <-.
      destruct (iteration_chunks _ _ _ _ _ Hi) as (ev1 & T1 & out & E1).
      exists ev1, [], out; split; [exact T1|split; [exact E1|constructor]].
    + injection H as <- <-; exact I.
    + injection H as <- <-; exact I.
Qed.

End ScanTrace.

(** ** What a scan withholds *)

Section ScanWithholds.

Context {St : Type}.
Variables LF NORMAL_PROMPT : bytes.
Variable ends_overlap : bytes -> bytes -> bool.
Variable _check_for_side_commands : M St unit.
Variable soft_read_until : list bytes -> M St bytes.
Variable soft_read : nat -> M St bytes.
Variable output_consumer : bytes -> string -> M St unit.

Local Abbreviation iteration :=
  (scan_iteration LF NORMAL_PROMPT ends_overlap _check_for_side_commands
     soft_read_until soft_read output_consumer).
Local Abbreviation loop :=
  (scan_loop LF NORMAL_PROMPT ends_overlap _check_for_side_commands
     soft_read_until soft_read output_consumer).

(** The pending buffer with which an iteration goes back to the start of
    the loop. *)
Lemma iteration_withholds (stream_name : string) (pending pending' : bytes)
  (s s' : St) :
  iteration stream_name pending s = (Ret (Continue pending'), s') ->
  pending' = pending \/ pending' = [] \/
  exists data follow_up,
    pending' = (pending ++ data) ++ follow_up /\
    data <> [] /\ follow_up <> [] /\
    endswith (pending ++ data) LF = false /\
    endswith (pending ++ data) NORMAL_PROMPT = false /\
    ends_overlap (pending ++ data) NORMAL_PROMPT = true.
Proof.
  unfold scan_iteration, bind; intros H.
  destruct (_check_for_side_commands s) as [[u|e1|] s1]; try discriminate.
  destruct (soft_read_until _ s1) as [[d|e2|] s2]; try discriminate.
  destruct d as [|c d]; cbn [is_empty] in H.
  { injection H as <- _; left; reflexivity. }
  set (p := pending ++ c :: d) in *.
  unfold scan_branch in H.
  destruct (endswith p LF) eqn:E1.
  { destruct (output_consumer p stream_name s2) as [[u'|e3|] s3];
      try discriminate.
    injection H as <- _; right; left; reflexivity. }
  destruct (endswith p NORMAL_PROMPT) eqn:E2.
  { destruct (output_consumer _ stream_name s2) as [[u'|e3|] s3];
      discriminate. }
  destruct (ends_overlap p NORMAL_PROMPT) eqn:E3.
  { destruct (soft_read 1 s2) as [[f|e3|] s3]; try discriminate.
    destruct f as [|c' f]; cbn [is_empty] in H.
    - destruct (output_consumer p stream_name s3) as [[u'|e4|] s4];
        try discriminate.
      injection H as <- _; right; left; reflexivity.
    - injection H as <- _; right; right.
      exists (c :: d), (c' :: f); repeat split; auto; discriminate. }
  destruct (output_consumer p stream_name s2) as [[u'|e3|] s3];
    try discriminate.
  injection H as <- _; right; left; reflexivity.
Qed.

(** X12.  A scan withholds only what may be the start of a prompt.  After
    any number of iterations of a scan, while the loop is running, the
    pending buffer is empty, or it is a buffer of which the overlap test
    held, and which ended neither with LF nor with the prompt marker,
    followed by what the probe then returned. *)
Theorem withheld_bytes_passed_the_overlap_test (fuel : nat)
  (stream_name : string) (s s' : St) (pending : bytes) :
  loop fuel stream_name [] s = (Running pending, s') ->
  pending = [] \/
  exists tested follow_up,
    pending = tested ++ follow_up /\ follow_up <> [] /\
    ends_overlap tested NORMAL_PROMPT = true /\
    endswith tested LF = false /\
    endswith tested NORMAL_PROMPT = false.
Proof.
  set (withheld p :=
         p = [] \/
         exists tested follow_up,
           p = tested ++ follow_up /\ follow_up <> [] /\
           ends_overlap tested NORMAL_PROMPT = true /\
           endswith tested LF = false /\
           endswith tested NORMAL_PROMPT = false).
  assert (G : forall fuel p0 s0,
             withheld p0 ->
             loop fuel stream_name p0 s0 = (Running pending, s') ->
             withheld pending).
  { clear fuel s; induction fuel as [|fuel IH]; intros p0 s0 W H.
    - injection H as <- _; exact W.
    - rewrite scan_loop_step in H.
      destruct (iteration stream_name p0 s0) as [[[p'|v]|e1|] s1] eqn:Hi;
        try discriminate.
      apply (IH p' s1); [|exact H].
      destruct (iteration_withholds _ _ _ _ _ Hi)
        as [->|[->|(d & f & -> & _ & Hf & E1 & E2 & E3)]].
      + exact W.
      + left; reflexivity.
      + right; exists (p0 ++ d), f; auto. }
  intros H; apply (G fuel [] s); [left; reflexivity | exact H].
Qed.

End ScanWithholds.

(** ** What reading leaves alone *)

Lemma soft_read_until_keeps_written (closers : list bytes) :
  preserves Conn.written (Conn.soft_read_until closers).
Proof.
  intros c; destruct (soft_read_until_delivers closers c) as (_ & _ & _ & H & _).
  exact H.
Qed.

Lemma soft_read_keeps_written (n : nat) :
  preserves Conn.written (Conn.soft_read n).
Proof.
  intros c; destruct (soft_read_delivers n c) as (_ & _ & _ & H & _).
  exact H.
Qed.

Lemma read_all_keeps_written : preserves Conn.written Conn.read_all.
Proof.
  intros c; unfold Conn.read_all, Conn.absorb.
  destruct (Conn.arrivals c); reflexivity.
Qed.

Lemma on_connection_keeps_written {A : Type} (m : M Conn.t A) :
  preserves Conn.written m ->
  preserves (fun self => Conn.written (_connection self)) (on_connection m).
Proof.
  intros H self; unfold on_connection.
  specialize (H (_connection self)).
  destruct (m (_connection self)); exact H.
Qed.

Lemma on_self_keeps {L A X : Type} (f : Backend -> X) (m : M Backend A) :
  preserves f m ->
  preserves (fun st : Backend * L => f (fst st)) (on_self m).
Proof.
  intros H [self l]; unfold on_self; cbn [fst snd].
  specialize (H self); destruct (m self); exact H.
Qed.

Section ReadingFacts.

Variables LF NORMAL_PROMPT : bytes.
Variable ends_overlap : bytes -> bytes -> bool.
Variable decode : bytes -> option text.
Variable _check_for_side_commands : M Backend unit.

Local Abbreviation written_by := (fun self : Backend => Conn.written (_connection self)).

Lemma scan_keeps_written {L : Type}
  (output_consumer : bytes -> string -> M (Backend * L) unit)
  (fuel : nat) (stream_name : string) (pending : bytes) (st : Backend * L) :
  preserves written_by _check_for_side_commands ->
  (forall data name,
     preserves (fun st : Backend * L => written_by (fst st))
               (output_consumer data name)) ->
  written_by
    (fst (snd (scan_loop LF NORMAL_PROMPT ends_overlap
                 (on_self _check_for_side_commands)
                 (fun closers =>
                    on_self (on_connection (Conn.soft_read_until closers)))
                 (fun n => on_self (on_connection (Conn.soft_read n)))
                 output_consumer fuel stream_name pending st))) =
  written_by (fst st).
Proof.
  intros Hc Ho.
  apply (scan_loop_preserves LF NORMAL_PROMPT ends_overlap
           (on_self _check_for_side_commands)
           (fun closers =>
              on_self (on_connection (Conn.soft_read_until closers)))
           (fun n => on_self (on_connection (Conn.soft_read n)))
           output_consumer
           (fun st : Backend * L => written_by (fst st))).
  - apply (on_self_keeps written_by); exact Hc.
  - intros closers; apply (on_self_keeps written_by).
    apply on_connection_keeps_written, soft_read_until_keeps_written.
  - intros n; apply (on_self_keeps written_by).
    apply on_connection_keeps_written, soft_read_keeps_written.
  - exact Ho.
Qed.

(** X9.  Reading never writes.  When the side-command check writes nothing
    to the connection, neither does a scan whose consumer writes nothing,
    however it ends; nor does [_process_until_initial_prompt]; and
    [_forward_unexpected_output] never writes. *)
Theorem reading_never_writes :
  preserves written_by _check_for_side_commands ->
  (forall (L : Type)
          (output_consumer : bytes -> string -> M (Backend * L) unit)
          (fuel : nat) (stream_name : string) (st : Backend * L),
     (forall data name,
        preserves (fun st : Backend * L => written_by (fst st))
                  (output_consumer data name)) ->
     written_by
       (fst (snd (forward_output LF NORMAL_PROMPT ends_overlap
                    _check_for_side_commands output_consumer fuel
                    stream_name st))) =
     written_by (fst st)) /\
  (forall (fuel : nat) (clean : option bool) (self : Backend),
     written_by
       (snd (_process_until_initial_prompt LF NORMAL_PROMPT ends_overlap
               decode _check_for_side_commands fuel clean self)) =
     written_by self) /\
  (forall (stream_name : string) (self : Backend),
     written_by
       (snd (_forward_unexpected_output NORMAL_PROMPT stream_name self)) =
     written_by self).
Proof.
  intros Hc; split; [|split].
  - intros L output_consumer fuel stream_name st Ho.
    pose proof (scan_keeps_written output_consumer fuel stream_name [] st
                  Hc Ho) as P.
    unfold forward_output, _forward_output_until_active_prompt.
    destruct (scan_loop _ _ _ _ _ _ _ fuel stream_name [] st)
      as [[p|o] st']; exact P.
  - intros fuel clean self.
    pose proof (scan_keeps_written collect_output fuel "stdout" []
                  (self, []) Hc (fun data name st => eq_refl)) as P.
    destruct (scan_loop LF NORMAL_PROMPT ends_overlap
                (on_self _check_for_side_commands)
                (fun closers =>
                   on_self (on_connection (Conn.soft_read_until closers)))
                (fun n => on_self (on_connection (Conn.soft_read n)))
                collect_output fuel "stdout" [] (self, []))
      as [status [self1 output]] eqn:Hl.
    rewrite (process_until_initial_prompt_stores _ _ _ _ _ _ clean _ _ _ _ Hl).
    cbn [fst snd] in P.
    destruct status as [p|[v|e|]]; try exact P.
    destruct (decode (join output)); exact P.
  - intros stream_name self; unfold _forward_unexpected_output.
    apply (preserves_bind written_by).
    + apply on_connection_keeps_written, read_all_keeps_written.
    + intros data; destruct (endswith data NORMAL_PROMPT);
        [intros s; reflexivity|].
      destruct (negb (is_empty data)); intros s; reflexivity.
Qed.

End ReadingFacts.

(** ** The run command *)

Lemma bind_raise_eq {St A B : Type} (m : M St A) (k : A -> M St B)
  (s s' : St) (e : exn) :
  m s = (Raise e, s') -> bind m k s = (Raise e, s').
Proof. intros H; unfold bind; rewrite H; reflexivity. Qed.

Section RunFacts.

Variable nl : byte.
Variable NORMAL_PROMPT : bytes.
Variable ends_overlap : bytes -> bytes -> bool.
Variable SubprocessConnection : string -> list string -> exn + Conn.t.
Variable _check_for_side_commands : M Backend unit.
Variable _report_time : string -> M Backend unit.
Variable _prepare_helpers : M Backend unit.

Hypothesis prompt_not_empty : NORMAL_PROMPT <> [].
Hypothesis no_line_feed_in_prompt : ~ In nl NORMAL_PROMPT.

(** No side command is queued, and reporting a time does nothing to the
    attributes of the backend. *)
Hypothesis no_side_command : forall self,
  _check_for_side_commands self = (Ret tt, self).
Hypothesis report_only : forall label self,
  _report_time label self = (Ret tt, self).

Local Abbreviation run :=
  (_cmd_Run [nl] NORMAL_PROMPT ends_overlap SubprocessConnection
     _check_for_side_commands _report_time _prepare_helpers).

Lemma bind_report {B : Type} (label : string) (k : unit -> M Backend B)
  (self : Backend) :
  bind (_report_time label) k self = k tt self.
Proof. unfold bind; rewrite report_only; reflexivity. Qed.

Lemma then_report (m : M Backend unit) (label : string) (self : Backend) :
  bind m (fun _ => _report_time label) self = m self.
Proof.
  unfold bind; destruct (m self) as [[[]|e|] s']; try reflexivity.
  apply report_only.
Qed.

(** X10.  A run command restarts the child and forwards its banner.  With
    no side command queued and time reports that change nothing: the old
    connection is closed first; when the new child cannot be started, the
    error of the constructor is raised and nothing else has happened; when
    it starts and sends its banner line-buffered, followed by the prompt
    marker, every line is sent on as one output event on stdout, then what
    precedes the prompt on its line, then the stored welcome text in one
    HideTrailingOutput event, and the command goes on to prepare the
    helpers; the welcome text is as it was. *)
Theorem run_restarts_the_child
  (cmd : Command) (self : Backend) (extra : nat)
  (batches : list (list bytes)) (lines : list bytes) (tail rest : bytes)
  (more : list bytes) (welcome : text) :
  let closed := set_connection (snd (Conn.close (_connection self))) self in
  let fuel := iterations_for batches + (length lines + 1) + extra in
  match SubprocessConnection (_executable self) ("-i" :: args cmd) with
  | inl e => run fuel cmd self = (Raise e, closed)
  | inr c =>
      Forall (Forall (complete_line nl NORMAL_PROMPT)) batches ->
      Forall (complete_line nl NORMAL_PROMPT) lines ->
      ~ In nl tail -> only_at_end NORMAL_PROMPT (tail ++ NORMAL_PROMPT) ->
      Conn.read_buffer c = [] ->
      Conn.arrivals c =
        map (@concat byte) batches ++
        (concat lines ++ tail ++ NORMAL_PROMPT ++ rest) :: more ->
      _original_welcome_text self = Some welcome ->
      exists self',
        run fuel cmd self = _prepare_helpers self' /\
        outbox self' =
          outbox self ++
          map (ProgramOutput "stdout") (concat batches ++ lines ++ [tail]) ++
          [HideTrailingOutput welcome] /\
        welcome_texts self' = welcome_texts self /\
        Conn.read_buffer (_connection self') = rest /\
        Conn.arrivals (_connection self') = more /\
        Conn.written (_connection self') = Conn.written c
  end.
Proof.
  cbv zeta.
  set (self0 := set_connection (snd (Conn.close (_connection self))) self).
  assert (Hstart : forall fuel,
             run fuel cmd self =
             bind (reconnect SubprocessConnection ("-i" :: args cmd))
               (fun _ =>
                  _report_time "afconn" ;;
                  (fun self =>
                     let (o, st) :=
                       forward_output [nl] NORMAL_PROMPT ends_overlap
                         _check_for_side_commands
                         (fun data name => on_self (_send_output data name))
                         fuel "stdout" (self, tt) in
                     (o, fst st)) ;;
                  _report_time "afforv" ;;
                  welcome <- get_original_welcome_text ;;
                  send_message (HideTrailingOutput welcome) ;;
                  _report_time "beffhelp" ;;
                  _prepare_helpers ;;
                  _report_time "affhelp") self0).
  { intros fuel; unfold _cmd_Run.
    rewrite bind_on_connection; cbn [fst Conn.close].
    fold self0; rewrite bind_report; reflexivity. }
  destruct (SubprocessConnection (_executable self) ("-i" :: args cmd))
    as [e|c] eqn:Hsub.
  { rewrite Hstart.
    apply bind_raise_eq; unfold reconnect.
    change (_executable self0) with (_executable self).
    rewrite Hsub; reflexivity. }
  intros Hbatches Hlines Hnl Hend Hb Ha Hw.
  set (self1 := set_connection c self0).
  rewrite Hstart; clear Hstart.
  rewrite (bind_ret_eq _ _ self0 self1 tt)
    by (unfold reconnect; change (_executable self0) with (_executable self);
        rewrite Hsub; reflexivity).
  rewrite bind_report.
  destruct (loop_line_buffered nl NORMAL_PROMPT ends_overlap
              _check_for_side_commands
              (fun data name => on_self (L := unit) (_send_output data name))
              (fun chunk name => ProgramOutput name chunk)
              (fun st => outbox (fst st))
              prompt_not_empty no_line_feed_in_prompt
              (fun s l =>
                 ex_intro _ s (conj (no_side_command s)
                                 (conj eq_refl eq_refl)))
              (fun data name st =>
                 ex_intro _ _ (conj eq_refl (conj eq_refl eq_refl)))
              (fun _ _ _ => eq_refl)
              "stdout" batches lines tail rest more (self1, tt)
              Hbatches Hlines Hnl Hend Hb Ha)
    as ([self2 u] & Hl & Hcalls & Hb2 & Ha2 & Hw2).
  cbn [fst snd] in Hcalls, Hb2, Ha2, Hw2.
  assert (Ht : welcome_texts self2 = welcome_texts self).
  { pose proof (scan_loop_preserves [nl] NORMAL_PROMPT ends_overlap
                  (on_self _check_for_side_commands)
                  (fun closers =>
                     on_self (on_connection (Conn.soft_read_until closers)))
                  (fun n => on_self (on_connection (Conn.soft_read n)))
                  (fun data name => on_self (L := unit) (_send_output data name))
                  (fun st : Backend * unit => welcome_texts (fst st))
                  (on_self_keeps welcome_texts _
                     (fun s => f_equal
                                 (fun r => welcome_texts (snd r))
                                 (no_side_command s)))
                  (fun closers =>
                     on_self_keeps welcome_texts _ (preserves_on_connection _))
                  (fun n =>
                     on_self_keeps welcome_texts _ (preserves_on_connection _))
                  (fun data name =>
                     on_self_keeps welcome_texts _ (preserves_send_message _))
                  (iterations_for batches + (length lines + 1))
                  "stdout" [] (self1, tt)) as P.
    rewrite Hl in P; exact P. }
  assert (Hscan :
            forward_output [nl] NORMAL_PROMPT ends_overlap
              _check_for_side_commands
              (fun data name => on_self (_send_output data name))
              (iterations_for batches + (length lines + 1) + extra)
              "stdout" (self1, tt) = (Ret NORMAL_PROMPT, (self2, u))).
  { unfold forward_output, _forward_output_until_active_prompt.
    rewrite scan_loop_add, Hl; reflexivity. }
  unfold bind at 1; rewrite Hscan; cbn [fst].
  rewrite bind_report.
  assert (Hw2' : _original_welcome_text self2 = Some welcome).
  { unfold welcome_texts in Ht; injection Ht as Ht _; rewrite Ht; exact Hw. }
  unfold bind at 1, get_original_welcome_text; rewrite Hw2'.
  unfold bind at 1; cbn [send_message].
  rewrite bind_report, then_report.
  eexists; split; [reflexivity|].
  cbn [outbox welcome_texts _original_welcome_text _welcome_text _connection].
  split; [|split; [exact Ht|repeat split; assumption]].
  rewrite Hcalls; cbn [fst self1 self0 set_connection outbox].
  rewrite <- app_assoc; reflexivity.
Qed.

End RunFacts.

(** ** The properties above, on runs of a MicroPython REPL *)

(** The prompt in two batches, [>>] and [> ], behind the start of a line. *)
Lemma split_prompt_is_recognised_witness :
  let st := (Repl.backend [b "x = >>"; b "> "], @nil bytes) in
  exists st',
    forward_output [x0a] Repl.NORMAL_PROMPT Matcher.ends_overlap
      Repl.no_side_commands collect_output 2 "stdout" st =
      (Ret Repl.NORMAL_PROMPT, st') /\
    snd st' = [b "x = "] /\
    Conn.read_buffer (_connection (fst st')) = [] /\
    Conn.arrivals (_connection (fst st')) = [] /\
    Conn.delivered (_connection (fst st')) = [b "x = >>"; b ">"; b " "].
Proof.
  cbv zeta.
  apply (split_prompt_is_recognised
           x0a Repl.NORMAL_PROMPT Matcher.ends_overlap Repl.no_side_commands
           collect_output (fun chunk _ => chunk) (@snd Backend (list bytes))
           ltac:(discriminate)
           (not_in_computed x0a Repl.NORMAL_PROMPT eq_refl)
           (no_side_commands_returns _)
           collect_output_records
           (fun _ _ _ => eq_refl)
           "stdout" (b "x = ") (b ">>") (b " ") ">"%byte [] 0);
    solve [reflexivity | discriminate].
Defined.

(** Dots of a progress display, one batch each. *)
Lemma unfinished_output_is_forwarded_as_it_arrives_witness :
  let st := (Repl.backend [b "Loading"; b "."; b "."], @nil bytes) in
  exists st',
    Repl.loop 3 "stdout" [] st = (Running [], st') /\
    snd st' = [b "Loading"; b "."; b "."] /\
    Conn.read_buffer (_connection (fst st')) = [] /\
    Conn.arrivals (_connection (fst st')) = [].
Proof.
  cbv zeta.
  apply (unfinished_output_is_forwarded_as_it_arrives
           x0a Repl.NORMAL_PROMPT Matcher.ends_overlap Repl.no_side_commands
           collect_output (fun chunk _ => chunk) (@snd Backend (list bytes))
           ltac:(discriminate)
           (no_side_commands_returns _)
           collect_output_records
           (fun _ _ _ => eq_refl)
           "stdout" [b "Loading"; b "."; b "."]).
  - repeat constructor; discriminate.
  - reflexivity.
  - reflexivity.
Defined.

Lemma no_side_commands_leave_connection (s : Backend) :
  exists s',
    Repl.no_side_commands s = (Ret tt, s') /\ _connection s' = _connection s.
Proof. exists s; split; reflexivity. Qed.

(** The banner of the Unix port, line-buffered. *)
Lemma line_buffered_banner_is_captured_witness :
  let line1 := b "MicroPython v1.12 on 2020-02-02; linux version" ++ [x0a] in
  let line2 := b "Use Ctrl-D to exit, Ctrl-E for paste mode" ++ [x0a] in
  let self := Repl.backend [line1; line2 ++ Repl.NORMAL_PROMPT] in
  let decoded := map Byte.to_N (line1 ++ line2) in
  exists self',
    Repl.capture 3 self = (Ret tt, self') /\
    _original_welcome_text self' = Some (replace decoded CRLF [10%N]) /\
    _welcome_text self' =
      Some (replace (replace decoded CRLF [10%N]) boilerplate_line []) /\
    Conn.read_buffer (_connection self') = [] /\
    Conn.arrivals (_connection self') = [] /\
    Conn.written (_connection self') = [].
Proof.
  cbv zeta.
  apply (line_buffered_banner_is_captured
           Repl.NORMAL_PROMPT Matcher.ends_overlap Repl.decode
           Repl.no_side_commands x0a
           [[b "MicroPython v1.12 on 2020-02-02; linux version" ++ [x0a]]]
           [b "Use Ctrl-D to exit, Ctrl-E for paste mode" ++ [x0a]]
           [] [] []
           (map Byte.to_N
              ((b "MicroPython v1.12 on 2020-02-02; linux version" ++ [x0a]) ++
               b "Use Ctrl-D to exit, Ctrl-E for paste mode" ++ [x0a]))
           0 None).
  - discriminate.
  - apply not_in_computed; reflexivity.
  - exact no_side_commands_leave_connection.
  - repeat constructor; apply complete_line_computed; reflexivity.
  - repeat constructor; apply complete_line_computed; reflexivity.
  - apply not_in_computed; reflexivity.
  - apply only_at_end_computed; reflexivity.
  - reflexivity.
  - reflexivity.
  - reflexivity.
Defined.

(** A banner read in one piece. *)
Lemma welcome_text_is_what_was_read_witness :
  let self := Repl.backend [b "MicroPython" ++ [x0a] ++ Repl.NORMAL_PROMPT] in
  let self' := snd (Repl.capture 2 self) in
  exists banner decoded,
    concat (Conn.delivered (_connection self')) =
      concat (Conn.delivered (_connection self)) ++
      banner ++ Repl.NORMAL_PROMPT /\
    Repl.decode banner = Some decoded /\
    _original_welcome_text self' = Some (replace decoded CRLF [10%N]) /\
    _welcome_text self' =
      Some (replace (replace decoded CRLF [10%N]) boilerplate_line []).
Proof.
  cbv zeta.
  apply (welcome_text_is_what_was_read
           Repl.NORMAL_PROMPT Matcher.ends_overlap Repl.decode
           Repl.no_side_commands Repl.LF 2 None
           (Repl.backend [b "MicroPython" ++ [x0a] ++ Repl.NORMAL_PROMPT])
           (snd (Repl.capture 2
                   (Repl.backend
                      [b "MicroPython" ++ [x0a] ++ Repl.NORMAL_PROMPT])))).
  - discriminate.
  - intros s s' u H; injection H as _ <-; reflexivity.
  - reflexivity.
Defined.

(** The banner of the Unix port: the boilerplate line is cut out. *)
Lemma welcome_text_cleaning_witness :
  let line1 := b "MicroPython v1.12 on 2020-02-02; linux version" ++ [x0a] in
  let line2 := b "Use Ctrl-D to exit, Ctrl-E for paste mode" ++ [x0a] in
  let self := Repl.backend [line1; line2 ++ Repl.NORMAL_PROMPT] in
  let self' := snd (Repl.capture 3 self) in
  exists raw cleaned,
    _original_welcome_text self' = Some raw /\
    _welcome_text self' = Some cleaned /\
    length cleaned <= length raw /\
    (~ text_occurs boilerplate_line raw -> cleaned = raw) /\
    (forall u v,
        raw = u ++ boilerplate_line ++ v ->
        (forall a t, u ++ boilerplate_line = a ++ boilerplate_line ++ t ->
                     t = []) ->
        ~ text_occurs boilerplate_line v ->
        cleaned = u ++ v).
Proof.
  cbv zeta.
  apply (welcome_text_cleaning
           Repl.NORMAL_PROMPT Matcher.ends_overlap Repl.decode
           Repl.no_side_commands Repl.LF 3 None
           (Repl.backend
              [b "MicroPython v1.12 on 2020-02-02; linux version" ++ [x0a];
               (b "Use Ctrl-D to exit, Ctrl-E for paste mode" ++ [x0a]) ++
               Repl.NORMAL_PROMPT])).
  reflexivity.
Defined.

(** A banner that is not ASCII, which the decoding of the model refuses. *)
Lemma failed_capture_assigns_nothing_witness :
  let self := Repl.backend [[xff] ++ Repl.NORMAL_PROMPT] in
  let scan :=
    forward_output Repl.LF Repl.NORMAL_PROMPT Matcher.ends_overlap
      Repl.no_side_commands collect_output 2 "stdout" (self, []) in
  (fst (Repl.capture 2 self) <> Ret tt ->
   welcome_texts (snd (Repl.capture 2 self)) = welcome_texts self) /\
  (forall v, fst scan = Ret v ->
             Repl.decode (join (snd (snd scan))) = None ->
             fst (Repl.capture 2 self) = Raise UnicodeDecodeError).
Proof.
  cbv zeta.
  apply (failed_capture_assigns_nothing
           Repl.NORMAL_PROMPT Matcher.ends_overlap Repl.decode
           Repl.no_side_commands Repl.LF 2 None
           (Repl.backend [[xff] ++ Repl.NORMAL_PROMPT])).
  intros s; reflexivity.
Defined.

(** [print(1)], then [print(2)]. *)
Lemma consecutive_submissions_keep_their_output_witness :
  let script1 := b "print(1)" in
  let script2 := b "print(2)" in
  let answer :=
    paste_exchange Repl.NORMAL_PROMPT [] script1 [] (b "1" ++ newline)
      (paste_exchange Repl.NORMAL_PROMPT [] script2 [] (b "2" ++ newline) []) in
  let self := Repl.backend [answer] in
  exists self',
    (Repl.execute script1 _send_output ;; Repl.execute script2 _send_output)
      self = (Ret tt, self') /\
    outbox self' =
      [ProgramOutput "stdout" (b "1" ++ newline);
       ProgramOutput "stdout" (b "2" ++ newline)] /\
    Conn.written (_connection self') =
      [PASTE_MODE_CMD; script1 ++ sentinel; Repl.EOT;
       PASTE_MODE_CMD; script2 ++ sentinel; Repl.EOT] /\
    Conn.stream (_connection self') = [] /\
    welcome_texts self' = welcome_texts self.
Proof.
  cbv zeta.
  apply (consecutive_submissions_keep_their_output
           Repl.NORMAL_PROMPT Repl.EOT
           (b "print(1)") [] [] (b "1" ++ newline)
           (b "print(2)") [] [] (b "2" ++ newline) []).
  - discriminate.
  - apply split_at_first_None; reflexivity.
  - apply split_at_first_None; reflexivity.
  - repeat split;
      solve [apply only_at_end_computed; reflexivity | eexists; reflexivity].
  - repeat split;
      solve [apply only_at_end_computed; reflexivity | eexists; reflexivity].
  - reflexivity.
Defined.

(** A line printed by a thread of the program after the prompt came back. *)
Lemma trailing_output_is_forwarded_after_a_submission_witness :
  let script := b "start()" in
  let late := b "done" ++ newline ++ Repl.NORMAL_PROMPT in
  let self :=
    {| _executable := "micropython";
       _connection :=
         {| Conn.arrivals := [];
            Conn.read_buffer :=
              paste_exchange Repl.NORMAL_PROMPT [] script [] [] late;
            Conn.written := []; Conn.delivered := [] |};
       _original_welcome_text := None; _welcome_text := None;
       outbox := [] |} in
  exists self',
    (Repl.execute script _send_output ;;
     _forward_unexpected_output Repl.NORMAL_PROMPT "stdout") self =
      (Ret tt, self') /\
    outbox self' =
      [ProgramOutput "stdout" [];
       ProgramOutput "stdout" (b "done" ++ newline)] /\
    Conn.stream (_connection self') = [].
Proof.
  cbv zeta.
  apply (trailing_output_is_forwarded_after_a_submission
           Repl.NORMAL_PROMPT Repl.EOT (b "start()") [] [] []
           (b "done" ++ newline ++ Repl.NORMAL_PROMPT) "stdout").
  - discriminate.
  - apply split_at_first_None; reflexivity.
  - repeat split;
      solve [apply only_at_end_computed; reflexivity | eexists; reflexivity].
  - reflexivity.
  - reflexivity.
Defined.

(** A scan that emits a chunk, releases a false start of the prompt after a
    probe that timed out, emits a line and returns at the prompt. *)
Lemma scan_checks_once_per_read_witness :
  let batches := [b "ab"; b ">>"; []; b "ok" ++ [x0a] ++ b ">>> "] in
  let s' := snd (Traced.scan 4 batches) in
  exists events iterations,
    1 <= iterations <= 4 /\
    snd s' = [] ++ events /\
    length (filter is_check events) = iterations /\
    length (filter is_main_read events) = iterations /\
    length (filter is_probe events) <= iterations /\
    length (filter is_chunk events) <= iterations /\
    length events =
      2 * iterations + length (filter is_probe events) +
      length (filter is_chunk events).
Proof.
  cbv zeta.
  exact (scan_checks_once_per_read
           Repl.LF Repl.NORMAL_PROMPT Matcher.ends_overlap
           Traced.check Traced.soft_read_until Traced.soft_read
           Traced.consumer (@snd _ _)
           (logged_traced _ _) (fun closers => logged_traced _ _)
           (fun n => logged_traced _ _)
           (fun data name => logged_traced _ _)
           4 "stdout" []
           ((Repl.backend [b "ab"; b ">>"; []; b "ok" ++ [x0a] ++ b ">>> "],
             []), [])
           (snd (Traced.scan 4
                   [b "ab"; b ">>"; []; b "ok" ++ [x0a] ++ b ">>> "]))
           (Stopped (Ret Repl.NORMAL_PROMPT)) eq_refl).
Defined.

Lemma scan_chunks_are_not_empty_witness :
  let batches := [b "ab"; b ">>"; []; b "ok" ++ [x0a] ++ b ">>> "] in
  let s' := snd (Traced.scan 4 batches) in
  exists events chunks out,
    snd s' = [] ++ events /\
    chunks_of events = chunks ++ [out] /\
    Forall (fun chunk =>
              chunk <> [] /\
              (endswith chunk Repl.LF = true \/
               endswith chunk Repl.NORMAL_PROMPT = false)) chunks.
Proof.
  cbv zeta.
  exact (scan_chunks_are_not_empty
           Repl.LF Repl.NORMAL_PROMPT Matcher.ends_overlap
           Traced.check Traced.soft_read_until Traced.soft_read
           Traced.consumer (@snd _ _)
           (logged_traced _ _) (fun closers => logged_traced _ _)
           (fun n => logged_traced _ _)
           (fun data name => logged_traced _ _)
           4 "stdout" []
           ((Repl.backend [b "ab"; b ">>"; []; b "ok" ++ [x0a] ++ b ">>> "],
             []), [])
           (snd (Traced.scan 4
                   [b "ab"; b ">>"; []; b "ok" ++ [x0a] ++ b ">>> "]))
           (Stopped (Ret Repl.NORMAL_PROMPT)) eq_refl).
Defined.

(** Two bytes of the prompt, and a third that the probe took. *)
Lemma withheld_bytes_passed_the_overlap_test_witness :
  let pending := b ">>>" in
  pending = [] \/
  exists tested follow_up,
    pending = tested ++ follow_up /\ follow_up <> [] /\
    Matcher.ends_overlap tested Repl.NORMAL_PROMPT = true /\
    endswith tested Repl.LF = false /\
    endswith tested Repl.NORMAL_PROMPT = false.
Proof.
  cbv zeta.
  exact (withheld_bytes_passed_the_overlap_test
           Repl.LF Repl.NORMAL_PROMPT Matcher.ends_overlap
           Repl.check Repl.soft_read_until Repl.soft_read collect_output
           1 "stdout" (Repl.backend [b ">>"; b ">"], [])
           (snd (Repl.loop 1 "stdout" [] (Repl.backend [b ">>"; b ">"], [])))
           (b ">>>") eq_refl).
Defined.

(** A session without side commands. *)
Lemma reading_never_writes_witness :
  (forall (L : Type)
          (output_consumer : bytes -> string -> M (Backend * L) unit)
          (fuel : nat) (stream_name : string) (st : Backend * L),
     (forall data name,
        preserves (fun st : Backend * L =>
                     Conn.written (_connection (fst st)))
                  (output_consumer data name)) ->
     Conn.written
       (_connection
          (fst (snd (forward_output Repl.LF Repl.NORMAL_PROMPT
                       Matcher.ends_overlap Repl.no_side_commands
                       output_consumer fuel stream_name st)))) =
     Conn.written (_connection (fst st))) /\
  (forall (fuel : nat) (clean : option bool) (self : Backend),
     Conn.written
       (_connection
          (snd (_process_until_initial_prompt Repl.LF Repl.NORMAL_PROMPT
                  Matcher.ends_overlap Repl.decode Repl.no_side_commands
                  fuel clean self))) =
     Conn.written (_connection self)) /\
  (forall (stream_name : string) (self : Backend),
     Conn.written
       (_connection
          (snd (_forward_unexpected_output Repl.NORMAL_PROMPT stream_name
                  self))) =
     Conn.written (_connection self)).
Proof.
  exact (reading_never_writes
           Repl.LF Repl.NORMAL_PROMPT Matcher.ends_overlap Repl.decode
           Repl.no_side_commands (fun s => eq_refl)).
Defined.

(** A run command whose new child sends a banner of two lines. *)
Lemma run_restarts_the_child_witness :
  let line1 := b "MicroPython v1.12 on 2020-02-02; linux version" ++ [x0a] in
  let line2 := b "Use Ctrl-D to exit, Ctrl-E for paste mode" ++ [x0a] in
  let cmd := {| args := ["main.py"]; cmd_line := "%Run main.py" |} in
  let self :=
    {| _executable := "micropython";
       _connection := Repl.connection [b "left over"];
       _original_welcome_text := Some (str "MicroPython");
       _welcome_text := Some (str "MicroPython");
       outbox := [] |} in
  exists self',
    Repl.run [line1 ++ line2 ++ Repl.NORMAL_PROMPT] 3 cmd self =
      Repl.no_helpers self' /\
    outbox self' =
      [ProgramOutput "stdout" line1; ProgramOutput "stdout" line2;
       ProgramOutput "stdout" [];
       HideTrailingOutput (str "MicroPython")] /\
    welcome_texts self' = welcome_texts self /\
    Conn.read_buffer (_connection self') = [] /\
    Conn.arrivals (_connection self') = [] /\
    Conn.written (_connection self') = [].
Proof.
  cbv zeta.
  apply (run_restarts_the_child
           x0a Repl.NORMAL_PROMPT Matcher.ends_overlap
           (Repl.respawn
              [(b "MicroPython v1.12 on 2020-02-02; linux version" ++ [x0a]) ++
               (b "Use Ctrl-D to exit, Ctrl-E for paste mode" ++ [x0a]) ++
               Repl.NORMAL_PROMPT])
           Repl.no_side_commands Repl.no_report Repl.no_helpers
           ltac:(discriminate)
           (not_in_computed x0a Repl.NORMAL_PROMPT eq_refl)
           (fun _ => eq_refl) (fun _ _ => eq_refl)
           {| args := ["main.py"]; cmd_line := "%Run main.py" |}
           {| _executable := "micropython";
              _connection := Repl.connection [b "left over"];
              _original_welcome_text := Some (str "MicroPython");
              _welcome_text := Some (str "MicroPython");
              outbox := [] |}
           0 []
           [b "MicroPython v1.12 on 2020-02-02; linux version" ++ [x0a];
            b "Use Ctrl-D to exit, Ctrl-E for paste mode" ++ [x0a]]
           [] [] [] (str "MicroPython")).
  - repeat constructor.
  - repeat constructor; apply complete_line_computed; reflexivity.
  - apply not_in_computed; reflexivity.
  - apply only_at_end_computed; reflexivity.
  - reflexivity.
  - reflexivity.
  - reflexivity.
Defined.
